(** * Traffic monitor: persistence helpers, broadcast manager and the
      QoS allocation contract

    A shallow embedding of [db.ts] (the query helpers), of the schema
    they read, of the [WebSocketManager] (subscriptions, the
    broadcasting tick, the module-level singleton), of the dashboard
    page, and of the allocation engine, which the TypeScript sources
    only call through the AI service.

    A MySQL decimal column holds a whole number of hundredths and
    reaches JavaScript as a string; JavaScript numbers are IEEE 754
    doubles; timestamps and integer columns are [Z].  The quantities of
    the allocation engine are exact rationals ([Q]). *)

From Stdlib Require Import ZArith QArith Qround Qminmax Qabs Qfield Lqa Lia.
From Stdlib Require Import List Sorted Permutation String Ascii DecimalString.
From Stdlib Require Import SpecFloat.
From stdpp Require Import base option list sorting gmap strings.

(** ** Asynchronous computations

    An [async] function runs against the process state and either
    returns or rejects; [try ... catch] is [try_catch]. *)

Inductive Outcome (A : Type) : Type :=
| Ok (a : A)
| Throw (e : string).
Arguments Ok {A} a.
Arguments Throw {A} e.

Definition Async (W A : Type) : Type := W → Outcome A * W.

Global Instance async_ret {W} : MRet (Async W) := λ A a w, (Ok a, w).

Global Instance async_bind {W} : MBind (Async W) := λ A B k m w,
  match m w with
  | (Ok a, w') => k a w'
  | (Throw e, w') => (Throw e, w')
  end.

Definition throw {W A} (e : string) : Async W A := λ w, (Throw e, w).

Definition try_catch {W A} (m : Async W A) (handler : string → Async W A)
  : Async W A :=
  λ w, match m w with
       | (Ok a, w') => (Ok a, w')
       | (Throw e, w') => handler e w'
       end.

Definition gets {W A} (f : W → A) : Async W A := λ w, (Ok (f w), w).

Definition modify {W} (f : W → W) : Async W unit := λ w, (Ok tt, f w).

(** ** Decimal columns

    A [decimal(p, 2)] column holds a whole number of hundredths, below
    [10^p] in absolute value. *)

Record Decimal : Type := mkDecimal { hundredths : Z }.

Definition decimalValue (d : Decimal) : Q := hundredths d # 100.

(** The hundredths nearest to a number, halves away from zero. *)
Definition nearestHundredths (x : Q) : Z :=
  (Z.sgn (Qnum x) * Qfloor (Qabs x * 100 + (1 # 2))%Q)%Z.

(** The server storing the number a statement carries in a
    [decimal(p, 2)] column: it rounds to the column's scale and, in its
    default strict mode, refuses a value the column cannot hold. *)
Definition decimalColumn (precision : nat) (x : Q) : option Decimal :=
  let units := nearestHundredths x in
  if decide (Z.abs units < 10 ^ Z.of_nat precision)%Z
  then Some (mkDecimal units) else None.

(** The decimal nearest to a number. *)
Definition decimal (x : Q) : Decimal := mkDecimal (nearestHundredths x).

(** A nullable decimal column: [None] stays [NULL]. *)
Definition nullableDecimalColumn (precision : nat) (x : option Q)
  : option (option Decimal) :=
  match x with
  | Some q => Some <$> decimalColumn precision q
  | None => Some None
  end.

(** ** Schema ([drizzle/schema]) *)

Inductive TrafficType : Type :=
| video | voice | file | background | unknown.

Global Instance TrafficType_eq_dec : EqDecision TrafficType.
Proof. solve_decision. Defined.

Definition trafficTypeName (t : TrafficType) : string :=
  match t with
  | video => "video"
  | voice => "voice"
  | file => "file"
  | background => "background"
  | unknown => "unknown"
  end.

Inductive Severity : Type := info | warning | critical.

Module TrafficLog.
Record t : Type := mk {
    id : Z;
    timestamp : Z;
    sourceIp : string;
    destinationIp : string;
    sourcePort : option Z;
    destinationPort : option Z;
    protocol : string;
    trafficType : TrafficType;
    packetSize : Z;
    throughput : option Decimal;
    priority : option Z;
    createdAt : Z
  }.
End TrafficLog.

Module Prediction.
Record t : Type := mk {
    id : Z;
    timestamp : Z;
    trafficType : TrafficType;
    predictedBandwidth : Decimal;
    confidence : Decimal;
    actualBandwidth : option Decimal;
    error : option Decimal;
    createdAt : Z
  }.
End Prediction.

Module QosRule.
Record t : Type := mk {
    id : Z;
    trafficType : TrafficType;
    priority : Z;
    minBandwidth : Decimal;
    maxBandwidth : Decimal;
    dscp : option Z;
    enabled : bool;
    createdAt : Z;
    updatedAt : Z
  }.
End QosRule.

Module NetworkInterface.
Record t : Type := mk {
    id : Z;
    name : string;
    ipAddress : option string;
    macAddress : option string;
    mtu : option Z;
    totalBandwidth : option Decimal;
    currentUsage : option Decimal;
    isActive : bool;
    createdAt : Z;
    updatedAt : Z
  }.
End NetworkInterface.

Module ActiveFlow.
Record t : Type := mk {
    id : Z;
    sourceIp : string;
    destinationIp : string;
    sourcePort : option Z;
    destinationPort : option Z;
    protocol : string;
    trafficType : TrafficType;
    currentBandwidth : Decimal;
    allocatedBandwidth : option Decimal;
    packetCount : option Z;
    byteCount : option Z;
    startTime : Z;
    lastSeen : Z;
    createdAt : Z
  }.
End ActiveFlow.

Module SystemAlert.
Record t : Type := mk {
    id : Z;
    severity : Severity;
    title : string;
    message : string;
    relatedFlowId : option Z;
    resolved : bool;
    createdAt : Z;
    resolvedAt : option Z
  }.
End SystemAlert.

(** The [$inferInsert] types: columns with a default or an
    auto-increment are optional.  A decimal is the number the
    statement carries, which the server fits to the column. *)

Module InsertTrafficLog.
Record t : Type := mk {
    id : option Z;
    timestamp : option Z;
    sourceIp : string;
    destinationIp : string;
    sourcePort : option Z;
    destinationPort : option Z;
    protocol : string;
    trafficType : TrafficType;
    packetSize : Z;
    throughput : option Q;
    priority : option Z;
    createdAt : option Z
  }.
End InsertTrafficLog.

Module InsertPrediction.
Record t : Type := mk {
    id : option Z;
    timestamp : option Z;
    trafficType : TrafficType;
    predictedBandwidth : Q;
    confidence : Q;
    actualBandwidth : option Q;
    error : option Q;
    createdAt : option Z
  }.
End InsertPrediction.

Module InsertActiveFlow.
Record t : Type := mk {
    id : option Z;
    sourceIp : string;
    destinationIp : string;
    sourcePort : option Z;
    destinationPort : option Z;
    protocol : string;
    trafficType : TrafficType;
    currentBandwidth : Q;
    allocatedBandwidth : option Q;
    packetCount : option Z;
    byteCount : option Z;
    startTime : option Z;
    lastSeen : option Z;
    createdAt : option Z
  }.
End InsertActiveFlow.

(** [Partial<InsertActiveFlow>]: every column may be left out. *)
Module PartialActiveFlow.
Record t : Type := mk {
    id : option Z;
    sourceIp : option string;
    destinationIp : option string;
    sourcePort : option Z;
    destinationPort : option Z;
    protocol : option string;
    trafficType : option TrafficType;
    currentBandwidth : option Q;
    allocatedBandwidth : option Q;
    packetCount : option Z;
    byteCount : option Z;
    startTime : option Z;
    lastSeen : option Z;
    createdAt : option Z
  }.
End PartialActiveFlow.

Module InsertSystemAlert.
Record t : Type := mk {
    id : option Z;
    severity : Severity;
    title : string;
    message : string;
    relatedFlowId : option Z;
    resolved : option bool;
    createdAt : option Z;
    resolvedAt : option Z
  }.
End InsertSystemAlert.

(** ** The database behind the drizzle handle *)

Record Database : Type := mkDatabase {
  trafficLogs : list TrafficLog.t;
  predictions : list Prediction.t;
  qosRules : list QosRule.t;
  networkInterfaces : list NetworkInterface.t;
  activeFlows : list ActiveFlow.t;
  systemAlerts : list SystemAlert.t
}.

Inductive Table : Type :=
| trafficLogsT | predictionsT | qosRulesT
| networkInterfacesT | activeFlowsT | systemAlertsT.

(** The object returned by [drizzle(url)]. *)
Record Handle : Type := mkHandle { handleUrl : string }.

(** What [db.insert] and [db.update] resolve to. *)
Record ResultSetHeader : Type := mkResultSetHeader {
  insertId : Z;
  affectedRows : Z
}.

(** The state the helpers of [db.ts] run against: the module variable
    [_db], the environment, the driver, the MySQL server (its tables,
    the tables whose statements are rejected at the moment, its clock),
    the registered interval timers and the console. *)
Record World : Type := mkWorld {
  _db : option Handle;
  DATABASE_URL : option string;
  drizzle : string → Outcome Handle;
  database : Database;
  rejects : Table → bool;
  now : Z;
  timers : gset nat;
  console : list string
}.

Definition set_db (h : option Handle) (w : World) : World :=
  mkWorld h (DATABASE_URL w) (drizzle w) (database w) (rejects w) (now w)
          (timers w) (console w).

Definition set_database (d : Database) (w : World) : World :=
  mkWorld (_db w) (DATABASE_URL w) (drizzle w) d (rejects w) (now w)
          (timers w) (console w).

Definition set_timers (t : gset nat) (w : World) : World :=
  mkWorld (_db w) (DATABASE_URL w) (drizzle w) (database w) (rejects w)
          (now w) t (console w).

Definition console_write (line : string) (w : World) : World :=
  mkWorld (_db w) (DATABASE_URL w) (drizzle w) (database w) (rejects w)
          (now w) (timers w) (console w ++ [line]).

(** JavaScript truthiness of [process.env.DATABASE_URL]. *)
Definition truthy (s : option string) : option string :=
  match s with
  | Some EmptyString => None
  | other => other
  end.

(** ** Query builder *)

(** [ORDER BY key] and [ORDER BY key DESC]. *)
Definition ascBy {A} (key : A → Z) : relation A :=
  λ a b, (key a ≤ key b)%Z.

Definition descBy {A} (key : A → Z) : relation A :=
  λ a b, (key b ≤ key a)%Z.

Global Instance ascBy_dec {A} (key : A → Z) : RelDecision (ascBy key) :=
  λ a b, decide (key a ≤ key b)%Z.

Global Instance descBy_dec {A} (key : A → Z) : RelDecision (descBy key) :=
  λ a b, decide (key b ≤ key a)%Z.

Definition orderBy {A} (key : A → Z) (rows : list A) : list A :=
  merge_sort (ascBy key) rows.

Definition orderByDesc {A} (key : A → Z) (rows : list A) : list A :=
  merge_sort (descBy key) rows.

(** [LIMIT n OFFSET k], applied after the ordering. *)
Definition limitOffset {A} (limit offset : nat) (rows : list A) : list A :=
  take limit (drop offset rows).

(** Running a statement on a table: it rejects when the server refuses
    statements on that table. *)
Definition execute {A} (t : Table) (read : Database → A) : Async World A :=
  λ w, if rejects w t then (Throw "query failed", w)
       else (Ok (read (database w)), w).

Definition nextId {A} (id : A → Z) (rows : list A) : Z :=
  (1 + foldr (λ r m, Z.max (id r) m) 0 rows)%Z.

(** * db.ts *)

(** Lazily create the drizzle instance so local tooling can run without
    a DB. *)
Definition getDb : Async World (option Handle) :=
  λ w, match _db w, truthy (DATABASE_URL w) with
       | None, Some url =>
           match drizzle w url with
           | Ok h => (Ok (Some h), set_db (Some h) w)
           | Throw e =>
               (Ok None,
                set_db None (console_write "[Database] Failed to connect:" w))
           end
       | current, _ => (Ok current, w)
       end.

Definition getTrafficLogs (limit offset : nat)
  : Async World (list TrafficLog.t) :=
  db ← getDb;
  match db with
  | None => mret []
  | Some _ =>
      execute trafficLogsT
        (λ d, limitOffset limit offset
                (orderByDesc TrafficLog.timestamp (trafficLogs d)))
  end.

Definition getActiveFlows : Async World (list ActiveFlow.t) :=
  db ← getDb;
  match db with
  | None => mret []
  | Some _ =>
      execute activeFlowsT
        (λ d, orderByDesc ActiveFlow.lastSeen (activeFlows d))
  end.

Definition getTrafficByType (trafficType : string)
  : Async World (list TrafficLog.t) :=
  db ← getDb;
  match db with
  | None => mret []
  | Some _ =>
      execute trafficLogsT
        (λ d, take 100
                (orderByDesc TrafficLog.timestamp
                   (filter (λ r, trafficTypeName (TrafficLog.trafficType r)
                                 = trafficType)
                           (trafficLogs d))))
  end.

Definition getPredictions (trafficType : option string) (limit : nat)
  : Async World (list Prediction.t) :=
  db ← getDb;
  match db with
  | None => mret []
  | Some _ =>
      match truthy trafficType with
      | Some ty =>
          execute predictionsT
            (λ d, take limit
                    (orderByDesc Prediction.timestamp
                       (filter (λ r, trafficTypeName (Prediction.trafficType r)
                                     = ty)
                               (predictions d))))
      | None =>
          execute predictionsT
            (λ d, take limit
                    (orderByDesc Prediction.timestamp (predictions d)))
      end
  end.

Definition getQosRules : Async World (list QosRule.t) :=
  db ← getDb;
  match db with
  | None => mret []
  | Some _ =>
      execute qosRulesT (λ d, orderBy QosRule.priority (qosRules d))
  end.

Definition getNetworkInterfaces : Async World (list NetworkInterface.t) :=
  db ← getDb;
  match db with
  | None => mret []
  | Some _ => execute networkInterfacesT networkInterfaces
  end.

Definition getSystemAlerts (unresolved : bool) (limit : nat)
  : Async World (list SystemAlert.t) :=
  db ← getDb;
  match db with
  | None => mret []
  | Some _ =>
      if unresolved then
        execute systemAlertsT
          (λ d, take limit
                  (orderByDesc SystemAlert.createdAt
                     (filter (λ r, SystemAlert.resolved r = false)
                             (systemAlerts d))))
      else
        execute systemAlertsT
          (λ d, take limit
                  (orderByDesc SystemAlert.createdAt (systemAlerts d)))
  end.

(** Writes: the statement runs on the server, which fills in the
    defaulted columns, fits the decimals to their columns, and fails
    the statement, writing nothing, when a value is out of range. *)
Definition executeWrite (t : Table)
    (write : Z → Database → option (ResultSetHeader * Database))
  : Async World ResultSetHeader :=
  λ w, if rejects w t then (Throw "query failed", w)
       else match write (now w) (database w) with
            | Some (r, d) => (Ok r, set_database d w)
            | None => (Throw "Out of range value", w)
            end.

Definition set_trafficLogs (l : list TrafficLog.t) (d : Database) :=
  mkDatabase l (predictions d) (qosRules d) (networkInterfaces d)
             (activeFlows d) (systemAlerts d).

Definition set_predictions (l : list Prediction.t) (d : Database) :=
  mkDatabase (trafficLogs d) l (qosRules d) (networkInterfaces d)
             (activeFlows d) (systemAlerts d).

Definition set_activeFlows (l : list ActiveFlow.t) (d : Database) :=
  mkDatabase (trafficLogs d) (predictions d) (qosRules d)
             (networkInterfaces d) l (systemAlerts d).

Definition set_systemAlerts (l : list SystemAlert.t) (d : Database) :=
  mkDatabase (trafficLogs d) (predictions d) (qosRules d)
             (networkInterfaces d) (activeFlows d) l.

(** The row the server stores for an insert, if every decimal fits
    its column. *)
Definition trafficLogRow (data : InsertTrafficLog.t) (t : Z)
    (rows : list TrafficLog.t) : option TrafficLog.t :=
  throughput ← nullableDecimalColumn 10 (InsertTrafficLog.throughput data);
  Some (TrafficLog.mk
    (default (nextId TrafficLog.id rows) (InsertTrafficLog.id data))
    (default t (InsertTrafficLog.timestamp data))
    (InsertTrafficLog.sourceIp data)
    (InsertTrafficLog.destinationIp data)
    (InsertTrafficLog.sourcePort data)
    (InsertTrafficLog.destinationPort data)
    (InsertTrafficLog.protocol data)
    (InsertTrafficLog.trafficType data)
    (InsertTrafficLog.packetSize data)
    throughput
    (Some (default 0%Z (InsertTrafficLog.priority data)))
    (default t (InsertTrafficLog.createdAt data))).

Definition predictionRow (data : InsertPrediction.t) (t : Z)
    (rows : list Prediction.t) : option Prediction.t :=
  predictedBandwidth ←
    decimalColumn 10 (InsertPrediction.predictedBandwidth data);
  confidence ← decimalColumn 5 (InsertPrediction.confidence data);
  actualBandwidth ←
    nullableDecimalColumn 10 (InsertPrediction.actualBandwidth data);
  error ← nullableDecimalColumn 10 (InsertPrediction.error data);
  Some (Prediction.mk
    (default (nextId Prediction.id rows) (InsertPrediction.id data))
    (default t (InsertPrediction.timestamp data))
    (InsertPrediction.trafficType data)
    predictedBandwidth
    confidence
    actualBandwidth
    error
    (default t (InsertPrediction.createdAt data))).

Definition activeFlowRow (data : InsertActiveFlow.t) (t : Z)
    (rows : list ActiveFlow.t) : option ActiveFlow.t :=
  currentBandwidth ←
    decimalColumn 10 (InsertActiveFlow.currentBandwidth data);
  allocatedBandwidth ←
    nullableDecimalColumn 10 (InsertActiveFlow.allocatedBandwidth data);
  Some (ActiveFlow.mk
    (default (nextId ActiveFlow.id rows) (InsertActiveFlow.id data))
    (InsertActiveFlow.sourceIp data)
    (InsertActiveFlow.destinationIp data)
    (InsertActiveFlow.sourcePort data)
    (InsertActiveFlow.destinationPort data)
    (InsertActiveFlow.protocol data)
    (InsertActiveFlow.trafficType data)
    currentBandwidth
    allocatedBandwidth
    (Some (default 0%Z (InsertActiveFlow.packetCount data)))
    (Some (default 0%Z (InsertActiveFlow.byteCount data)))
    (default t (InsertActiveFlow.startTime data))
    (default t (InsertActiveFlow.lastSeen data))
    (default t (InsertActiveFlow.createdAt data))).

Definition systemAlertRow (data : InsertSystemAlert.t) (t : Z)
    (rows : list SystemAlert.t) : SystemAlert.t :=
  SystemAlert.mk
    (default (nextId SystemAlert.id rows) (InsertSystemAlert.id data))
    (InsertSystemAlert.severity data)
    (InsertSystemAlert.title data)
    (InsertSystemAlert.message data)
    (InsertSystemAlert.relatedFlowId data)
    (default false (InsertSystemAlert.resolved data))
    (default t (InsertSystemAlert.createdAt data))
    (InsertSystemAlert.resolvedAt data).

(** [SET] of the columns present in the partial row, if the decimals
    among them fit their columns. *)
Definition patchActiveFlow (data : PartialActiveFlow.t) (r : ActiveFlow.t)
  : option ActiveFlow.t :=
  currentBandwidth ←
    match PartialActiveFlow.currentBandwidth data with
    | Some q => decimalColumn 10 q
    | None => Some (ActiveFlow.currentBandwidth r)
    end;
  allocatedBandwidth ←
    match PartialActiveFlow.allocatedBandwidth data with
    | Some q => Some <$> decimalColumn 10 q
    | None => Some (ActiveFlow.allocatedBandwidth r)
    end;
  Some (ActiveFlow.mk
    (default (ActiveFlow.id r) (PartialActiveFlow.id data))
    (default (ActiveFlow.sourceIp r) (PartialActiveFlow.sourceIp data))
    (default (ActiveFlow.destinationIp r)
             (PartialActiveFlow.destinationIp data))
    (from_option Some (ActiveFlow.sourcePort r)
                 (PartialActiveFlow.sourcePort data))
    (from_option Some (ActiveFlow.destinationPort r)
                 (PartialActiveFlow.destinationPort data))
    (default (ActiveFlow.protocol r) (PartialActiveFlow.protocol data))
    (default (ActiveFlow.trafficType r) (PartialActiveFlow.trafficType data))
    currentBandwidth
    allocatedBandwidth
    (from_option Some (ActiveFlow.packetCount r)
                 (PartialActiveFlow.packetCount data))
    (from_option Some (ActiveFlow.byteCount r)
                 (PartialActiveFlow.byteCount data))
    (default (ActiveFlow.startTime r) (PartialActiveFlow.startTime data))
    (default (ActiveFlow.lastSeen r) (PartialActiveFlow.lastSeen data))
    (default (ActiveFlow.createdAt r) (PartialActiveFlow.createdAt data))).

(** [Object.entries(data)] without the [undefined] values is empty. *)
Definition isEmptyPatch (data : PartialActiveFlow.t) : bool :=
  bool_decide
    (PartialActiveFlow.id data = None
     ∧ PartialActiveFlow.sourceIp data = None
     ∧ PartialActiveFlow.destinationIp data = None
     ∧ PartialActiveFlow.sourcePort data = None
     ∧ PartialActiveFlow.destinationPort data = None
     ∧ PartialActiveFlow.protocol data = None
     ∧ PartialActiveFlow.trafficType data = None
     ∧ PartialActiveFlow.currentBandwidth data = None
     ∧ PartialActiveFlow.allocatedBandwidth data = None
     ∧ PartialActiveFlow.packetCount data = None
     ∧ PartialActiveFlow.byteCount data = None
     ∧ PartialActiveFlow.startTime data = None
     ∧ PartialActiveFlow.lastSeen data = None
     ∧ PartialActiveFlow.createdAt data = None).

Definition insertTrafficLog (data : InsertTrafficLog.t)
  : Async World (option ResultSetHeader) :=
  db ← getDb;
  match db with
  | None => mret None
  | Some _ =>
      result ← executeWrite trafficLogsT (λ t d,
        row ← trafficLogRow data t (trafficLogs d);
        Some (mkResultSetHeader (TrafficLog.id row) 1,
              set_trafficLogs (trafficLogs d ++ [row]) d));
      mret (Some result)
  end.

Definition insertPrediction (data : InsertPrediction.t)
  : Async World (option ResultSetHeader) :=
  db ← getDb;
  match db with
  | None => mret None
  | Some _ =>
      result ← executeWrite predictionsT (λ t d,
        row ← predictionRow data t (predictions d);
        Some (mkResultSetHeader (Prediction.id row) 1,
              set_predictions (predictions d ++ [row]) d));
      mret (Some result)
  end.

Definition insertActiveFlow (data : InsertActiveFlow.t)
  : Async World (option ResultSetHeader) :=
  db ← getDb;
  match db with
  | None => mret None
  | Some _ =>
      result ← executeWrite activeFlowsT (λ t d,
        row ← activeFlowRow data t (activeFlows d);
        Some (mkResultSetHeader (ActiveFlow.id row) 1,
              set_activeFlows (activeFlows d ++ [row]) d));
      mret (Some result)
  end.

Definition updateActiveFlow (flowId : Z) (data : PartialActiveFlow.t)
  : Async World (option ResultSetHeader) :=
  db ← getDb;
  match db with
  | None => mret None
  | Some _ =>
      (* [set(data)] throws on an empty object, before any statement. *)
      if isEmptyPatch data then throw "No values to set"
      else
        result ← executeWrite activeFlowsT (λ t d,
          let hit := λ r : ActiveFlow.t,
                       bool_decide (ActiveFlow.id r = flowId) in
          rows ← mapM (λ r, if hit r then patchActiveFlow data r else Some r)
                      (activeFlows d);
          Some (mkResultSetHeader 0
                  (Z.of_nat (length (List.filter hit (activeFlows d)))),
                set_activeFlows rows d));
        mret (Some result)
  end.

Definition insertSystemAlert (data : InsertSystemAlert.t)
  : Async World (option ResultSetHeader) :=
  db ← getDb;
  match db with
  | None => mret None
  | Some _ =>
      result ← executeWrite systemAlertsT (λ t d,
        let row := systemAlertRow data t (systemAlerts d) in
        Some (mkResultSetHeader (SystemAlert.id row) 1,
              set_systemAlerts (systemAlerts d ++ [row]) d));
      mret (Some result)
  end.

Record NetworkStats : Type := mkNetworkStats {
  interfaces : list NetworkInterface.t;
  flows : list ActiveFlow.t;
  recentLogs : list TrafficLog.t
}.

Definition getNetworkStats : Async World (option NetworkStats) :=
  db ← getDb;
  match db with
  | None => mret None
  | Some _ =>
      interfaces ← execute networkInterfacesT networkInterfaces;
      flows ← execute activeFlowsT activeFlows;
      recentLogs ← execute trafficLogsT
        (λ d, take 1000 (orderByDesc TrafficLog.timestamp (trafficLogs d)));
      mret (Some (mkNetworkStats interfaces flows recentLogs))
  end.

(** * The broadcast manager ([WebSocketManager]) *)

(** ** JavaScript numbers

    A Number is an IEEE 754 binary64 value; the arithmetic is that of
    [SpecFloat], rounding to nearest, ties to even. *)

Definition Number : Type := spec_float.

Definition NaN : Number := S754_nan.

(** The Number nearest to a rational. *)
Definition numberOfQ (x : Q) : Number :=
  let round (negative : bool) (n : positive) :=
    let '(m, e, l) :=
      SFdiv_core_binary 53 1024 (Zpos n) 0 (Zpos (Qden x)) 0 in
    binary_round_aux 53 1024 negative m e l in
  match Qnum x with
  | Z0 => S754_zero false
  | Zpos n => round false n
  | Zneg n => round true n
  end.

Definition numberOfZ (n : Z) : Number := numberOfQ (inject_Z n).

(** The mathematical value of a finite Number. *)
Definition valueOf (x : Number) : Q :=
  match x with
  | S754_finite s m e =>
      let v := if (0 <=? e)%Z then inject_Z (Zpos m * 2 ^ e)
               else Zpos m # Pos.pow 2 (Z.to_pos (- e)) in
      if s then (- v)%Q else v
  | _ => 0%Q
  end.

Definition pow10 (n : Z) : Q :=
  if (0 <=? n)%Z then inject_Z (10 ^ n) else 1 # Z.to_pos (10 ^ (- n)).

(** ** [Number::toString] and [StringToNumber] *)

Definition decimalDigits (n : Z) : string :=
  DecimalString.NilZero.string_of_uint (N.to_uint (Z.to_N n)).

Fixpoint zeros (n : nat) : string :=
  match n with
  | O => EmptyString
  | S n' => String "0" (zeros n')
  end.

Definition padLeft (width : nat) (s : string) : string :=
  (zeros (width - String.length s) +:+ s)%string.

(** The least [n] from [n0] on with [v < 10^n]. *)
Fixpoint decadeFrom (fuel : nat) (v : Q) (n : Z) : Z :=
  match fuel with
  | O => n
  | S fuel' =>
      if Qlt_le_dec v (pow10 n) then n else decadeFrom fuel' v (n + 1)
  end.

(** The digit strings of [k] digits that read back as [x]: integers
    [s] with [10^(k-1) ≤ s < 10^k] for which [s × 10^(n-k)] rounds to
    [x].  Only the two integers around [x / 10^(n-k)] can. *)
Definition readsBack (x : Number) (k n s : Z) : bool :=
  (10 ^ (k - 1) <=? s)%Z && (s <? 10 ^ k)%Z
  && SFeqb (numberOfQ (inject_Z s * pow10 (n - k))) x.

Definition digitCandidates (x : Number) (k n0 : Z) : list (Z * Z) :=
  let v := valueOf x in
  n ← [n0; (n0 + 1)%Z];
  s ← [Qfloor (v / pow10 (n - k)); (Qfloor (v / pow10 (n - k)) + 1)%Z];
  if readsBack x k n s then [(s, n)] else [].

(** Of the candidates the one nearest to [x], the even one on a tie. *)
Definition nearer (v : Q) (k : Z) (a b : Z * Z) : Z * Z :=
  let da := Qabs (inject_Z a.1 * pow10 (a.2 - k) - v) in
  let db := Qabs (inject_Z b.1 * pow10 (b.2 - k) - v) in
  match (da ?= db)%Q with
  | Lt => a
  | Gt => b
  | Eq => if Z.even a.1 then a else b
  end.

Fixpoint shortestDigits (fuel : nat) (x : Number) (k n0 : Z) : Z * Z * Z :=
  match fuel with
  | O => (0, k, n0)%Z
  | S fuel' =>
      match digitCandidates x k n0 with
      | c :: cs =>
          let best := fold_left (nearer (valueOf x) k) cs c in
          (best.1, k, best.2)
      | [] => shortestDigits fuel' x (k + 1)%Z n0
      end
  end.

Definition substringFrom (n : nat) (s : string) : string :=
  String.substring n (String.length s - n) s.

(** [Number::toString(x)] for radix 10. *)
Definition numberToString (x : Number) : string :=
  match x with
  | S754_nan => "NaN"
  | S754_zero _ => "0"
  | S754_infinity s => if s then "-Infinity" else "Infinity"
  | S754_finite negative _ _ =>
      let v := Qabs (valueOf x) in
      let '(s, k, n) :=
        shortestDigits 17 (SFabs x) 1 (decadeFrom 700 v (-330)) in
      let digits := decimalDigits s in
      let sign := if negative then "-" else "" in
      let exponent :=
        ("e" +:+ (if (0 <=? n - 1)%Z then "+" else "-")
             +:+ decimalDigits (Z.abs (n - 1))) in
      sign +:+
      (if (k <=? n)%Z && (n <=? 21)%Z then
         digits +:+ zeros (Z.to_nat (n - k))
       else if (0 <? n)%Z && (n <=? 21)%Z then
         String.substring 0 (Z.to_nat n) digits +:+ "."
         +:+ substringFrom (Z.to_nat n) digits
       else if (-6 <? n)%Z && (n <=? 0)%Z then
         "0." +:+ zeros (Z.to_nat (- n)) +:+ digits
       else if (k =? 1)%Z then
         digits +:+ exponent
       else
         String.substring 0 1 digits +:+ "." +:+ substringFrom 1 digits
         +:+ exponent)
  end.


(** [StringToNumber]: white space is trimmed, the empty string is 0, and
    anything that is not a numeric literal is [NaN].  (Of the white
    space only the ASCII characters are recognised.) *)
Definition isWhiteSpace (c : ascii) : bool :=
  bool_decide (nat_of_ascii c ∈ [9; 10; 11; 12; 13; 32]).

Fixpoint dropWhile {A} (p : A → bool) (l : list A) : list A :=
  match l with
  | [] => []
  | x :: rest => if p x then dropWhile p rest else l
  end.

Definition trim (text : list ascii) : list ascii :=
  reverse (dropWhile isWhiteSpace (reverse (dropWhile isWhiteSpace text))).

(** The value of a digit in a radix up to 16. *)
Definition digitValue (radix : Z) (c : ascii) : option Z :=
  let n := Z.of_nat (nat_of_ascii c) in
  let d := if (48 <=? n)%Z && (n <=? 57)%Z then (n - 48)%Z
           else if (97 <=? n)%Z && (n <=? 102)%Z then (n - 87)%Z
           else if (65 <=? n)%Z && (n <=? 70)%Z then (n - 55)%Z
           else 16%Z in
  if (d <? radix)%Z then Some d else None.

Fixpoint digitsFrom (radix : Z) (acc : Z) (text : list ascii) : option Z :=
  match text with
  | [] => Some acc
  | c :: rest =>
      d ← digitValue radix c;
      digitsFrom radix (acc * radix + d)%Z rest
  end.

(** One or more digits. *)
Definition digitsValue (radix : Z) (text : list ascii) : option Z :=
  match text with
  | [] => None
  | _ => digitsFrom radix 0 text
  end.

(** The text before the first character that satisfies [p], and the
    text after it if there is one. *)
Fixpoint splitAt (p : ascii → bool) (text : list ascii)
  : list ascii * option (list ascii) :=
  match text with
  | [] => ([], None)
  | c :: rest =>
      if p c then ([], Some rest)
      else let '(before, after) := splitAt p rest in (c :: before, after)
  end.

Definition isChar (a : ascii) (c : ascii) : bool := bool_decide (c = a).

Definition isExponentIndicator (c : ascii) : bool :=
  isChar "e" c || isChar "E" c.

(** A leading sign, and the text after it. *)
Definition splitSign (text : list ascii) : bool * list ascii :=
  match text with
  | c :: rest =>
      if isChar "-" c then (true, rest)
      else if isChar "+" c then (false, rest)
      else (false, text)
  | [] => (false, [])
  end.

(** [SignedInteger]. *)
Definition signedInteger (text : list ascii) : option Z :=
  let '(negative, digits) := splitSign text in
  n ← digitsValue 10 digits;
  Some (if negative then (- n)%Z else n).

(** [StrUnsignedDecimalLiteral] other than [Infinity]: its value. *)
Definition unsignedDecimal (text : list ascii) : option Q :=
  let '(mantissa, exponentPart) := splitAt isExponentIndicator text in
  e ← match exponentPart with
      | Some part => signedInteger part
      | None => Some 0%Z
      end;
  let '(whole, fraction) := splitAt (isChar ".") mantissa in
  i ← digitsFrom 10 0 whole;
  j ← digitsFrom 10 0 (default [] fraction);
  if bool_decide (whole = [] ∧ default [] fraction = []) then None
  else
    Some ((inject_Z i
           + inject_Z j * pow10 (- Z.of_nat (length (default [] fraction))))
          * pow10 e)%Q.

Definition infinityText : list ascii := list_ascii_of_string "Infinity".

(** [StrDecimalLiteral]. *)
Definition strDecimalLiteral (text : list ascii) : Number :=
  let '(negative, unsigned) := splitSign text in
  let magnitude :=
    if bool_decide (unsigned = infinityText) then S754_infinity false
    else from_option numberOfQ NaN (unsignedDecimal unsigned) in
  if negative then SFopp magnitude else magnitude.

(** The radix of a [NonDecimalIntegerLiteral], and its digits. *)
Definition radixPrefix (text : list ascii) : option (Z * list ascii) :=
  match text with
  | c0 :: c1 :: digits =>
      if negb (isChar "0" c0) then None
      else if isChar "x" c1 || isChar "X" c1 then Some (16%Z, digits)
      else if isChar "o" c1 || isChar "O" c1 then Some (8%Z, digits)
      else if isChar "b" c1 || isChar "B" c1 then Some (2%Z, digits)
      else None
  | _ => None
  end.

Definition stringToNumber (str : string) : Number :=
  let text := trim (list_ascii_of_string str) in
  match text with
  | [] => S754_zero false
  | _ =>
      match radixPrefix text with
      | Some (radix, digits) =>
          from_option numberOfZ NaN (digitsValue radix digits)
      | None => strDecimalLiteral text
      end
  end.

(** ** [Number.prototype.toFixed]

    [toFixedUnits f x] is the integer [n] for which [n / 10^f] is
    closest to [|x|], the larger one on a tie; it is printed with [f]
    fraction digits.  From [10^21] on, and for [NaN] and the
    infinities, [toFixed] is [Number::toString]. *)

Definition toFixedUnits (digits : nat) (x : Q) : Z :=
  Qfloor (Qabs x * inject_Z (10 ^ Z.of_nat digits) + (1 # 2))%Q.

Definition fixedNotation (digits : nat) (x : Q) : string :=
  let n := toFixedUnits digits x in
  let scale := (10 ^ Z.of_nat digits)%Z in
  let s := if Qlt_le_dec x 0 then "-"%string else EmptyString in
  let a := decimalDigits (n / scale) in
  let b := padLeft digits (decimalDigits (n mod scale)) in
  match digits with
  | O => (s +:+ a)%string
  | S _ => (s +:+ a +:+ "." +:+ b)%string
  end.

Definition toFixed (digits : nat) (x : Number) : string :=
  match x with
  | S754_nan | S754_infinity _ => numberToString x
  | _ =>
      if Qlt_le_dec (Qabs (valueOf x)) (inject_Z (10 ^ 21))
      then fixedNotation digits (valueOf x)
      else numberToString x
  end.

(** ** JavaScript values

    The values the reducers of the sources meet: numbers and
    strings. *)

Inductive JsValue : Type :=
| JsNumber (x : Number)
| JsString (s : string).

(** What the driver hands over for a decimal column: a string with two
    digits after the point. *)
Definition decimalString (d : Decimal) : string :=
  let n := Z.abs (hundredths d) in
  (if (hundredths d <? 0)%Z then "-" else "")
  +:+ decimalDigits (n / 100) +:+ "." +:+ padLeft 2 (decimalDigits (n mod 100)).

Definition toString (v : JsValue) : string :=
  match v with
  | JsNumber x => numberToString x
  | JsString s => s
  end.

Definition toNumber (v : JsValue) : Number :=
  match v with
  | JsNumber x => x
  | JsString s => stringToNumber s
  end.

Definition toBoolean (v : JsValue) : bool :=
  match v with
  | JsNumber (S754_zero _ | S754_nan) => false
  | JsNumber _ => true
  | JsString s => negb (bool_decide (s = ""))
  end.

(** [a + b]: the sum of two numbers, the concatenation otherwise. *)
Definition jsPlus (a b : JsValue) : JsValue :=
  match a, b with
  | JsNumber x, JsNumber y => JsNumber (SFadd 53 1024 x y)
  | _, _ => JsString (toString a +:+ toString b)
  end.

(** [a || b], where [a] may be [null] or [undefined]. *)
Definition jsOr (a : option JsValue) (b : JsValue) : JsValue :=
  match a with
  | Some v => if toBoolean v then v else b
  | None => b
  end.

(** [a / b]. *)
Definition jsDivide (a b : JsValue) : Number :=
  SFdiv 53 1024 (toNumber a) (toNumber b).

(** ** Messages *)

Record UpdateStats : Type := mkUpdateStats {
  totalFlows : nat;
  totalPackets : nat;
  activeAlerts : nat
}.

Record TypeStats : Type := mkTypeStats {
  count : nat;
  avgThroughput : JsValue
}.

Inductive Payload : Type :=
| ConnectedPayload (clientId : string) (timestamp : Z)
| ChannelPayload (channel : string)
| TrafficUpdatePayload (timestamp : Z) (logs : list TrafficLog.t)
    (flows : list ActiveFlow.t) (alerts : list SystemAlert.t)
    (stats : UpdateStats)
| TrafficByTypePayload (timestamp : Z)
    (videoStats voiceStats fileStats backgroundStats : TypeStats)
| DataPayload (timestamp : Z) (channel : option string)
    (data : list (string * string)).

Record Message : Type := mkMessage {
  event : string;
  payload : Payload
}.

(** ** Connections *)

(** A socket, with the messages the server has emitted to it. *)
Record Socket : Type := mkSocket {
  socketId : string;
  emitted : list Message
}.

Record ClientConnection : Type := mkClientConnection {
  id : string;
  socket : Socket;
  connectedAt : Z;
  subscriptions : gset string
}.

Definition HTTPServer : Type := nat.

Record SocketIOServer : Type := mkSocketIOServer {
  httpServer : HTTPServer;
  closed : bool
}.

(** The sockets connected to [io] are those of [clients]: the
    connection handler registers every socket and the disconnect
    handler removes it. *)
Record WebSocketManager : Type := mkWebSocketManager {
  io : SocketIOServer;
  clients : gmap string ClientConnection;
  updateInterval : option nat;
  updateIntervalMs : Z
}.

Record Node : Type := mkNode {
  manager : WebSocketManager;
  world : World
}.

Definition set_clients (c : gmap string ClientConnection)
    (m : WebSocketManager) : WebSocketManager :=
  mkWebSocketManager (io m) c (updateInterval m) (updateIntervalMs m).

Definition liftWorld {A} (m : Async World A) : Async Node A :=
  λ n, let '(r, w) := m (world n) in (r, mkNode (manager n) w).

Definition modifyClients
    (f : gmap string ClientConnection → gmap string ClientConnection)
  : Async Node unit :=
  modify (λ n, mkNode (set_clients (f (clients (manager n))) (manager n))
                      (world n)).

Definition consoleLog (line : string) : Async Node unit :=
  modify (λ n, mkNode (manager n) (console_write line (world n))).

Definition newDate : Async Node Z := gets (λ n, now (world n)).

(** [socket.emit(event, payload)] on the socket of one client. *)
Definition socketEmit (msg : Message) (c : ClientConnection)
  : ClientConnection :=
  mkClientConnection (id c)
    (mkSocket (socketId (socket c)) (emitted (socket c) ++ [msg]))
    (connectedAt c) (subscriptions c).

(** [this.io.emit(event, payload)]: to every connected socket. *)
Definition ioEmit (ev : string) (p : Payload) : Async Node unit :=
  modifyClients (fmap (socketEmit (mkMessage ev p))).

Definition subscriptionsAdd (channel : string) (c : ClientConnection)
  : ClientConnection :=
  mkClientConnection (id c) (socket c) (connectedAt c)
                     ({[channel]} ∪ subscriptions c).

Definition subscriptionsDelete (channel : string) (c : ClientConnection)
  : ClientConnection :=
  mkClientConnection (id c) (socket c) (connectedAt c)
                     (subscriptions c ∖ {[channel]}).

(** ** [setupConnections]: the handlers of one socket *)

Definition onConnection (sid : string) : Async Node unit :=
  let clientId := sid in
  connectedAt ← newDate;
  let client := mkClientConnection clientId (mkSocket sid []) connectedAt ∅ in
  modifyClients (insert clientId client);;
  consoleLog ("[WebSocket] Client connected: " +:+ clientId);;
  timestamp ← newDate;
  modifyClients
    (alter (socketEmit
              (mkMessage "connected" (ConnectedPayload clientId timestamp)))
           clientId).

Definition onSubscribe (clientId channel : string) : Async Node unit :=
  modifyClients (alter (subscriptionsAdd channel) clientId);;
  modifyClients
    (alter (socketEmit (mkMessage "subscribed" (ChannelPayload channel)))
           clientId);;
  consoleLog ("[WebSocket] Client " +:+ clientId +:+ " subscribed to "
              +:+ channel).

Definition onUnsubscribe (clientId channel : string) : Async Node unit :=
  modifyClients (alter (subscriptionsDelete channel) clientId);;
  modifyClients
    (alter (socketEmit (mkMessage "unsubscribed" (ChannelPayload channel)))
           clientId).

Definition onDisconnect (clientId : string) : Async Node unit :=
  modifyClients (delete clientId);;
  consoleLog ("[WebSocket] Client disconnected: " +:+ clientId).

Definition onError (clientId : string) : Async Node unit :=
  consoleLog ("[WebSocket] Error from " +:+ clientId +:+ ":").

(** ** [startBroadcasting]: the callback of the interval *)

(** [log.throughput || 0]: the string of the decimal, which is truthy
    also for ["0.00"], or the number 0 for a [null]. *)
Definition throughputOrZero (log : TrafficLog.t) : JsValue :=
  jsOr (JsString ∘ decimalString <$> TrafficLog.throughput log)
       (JsNumber (numberOfZ 0)).

(** The entry of one traffic type in the [traffic-by-type] message; the
    source spells it out once per type. *)
Definition typeStats (traffic : list TrafficLog.t) : TypeStats :=
  mkTypeStats (length traffic)
    (if (0 <? length traffic)%nat then
       JsString
         (toFixed 2
            (jsDivide
               (fold_left (λ sum log, jsPlus sum (throughputOrZero log))
                          traffic (JsNumber (numberOfZ 0)))
               (JsNumber (numberOfZ (Z.of_nat (length traffic))))))
     else JsNumber (numberOfZ 0)).

Definition ofType (ty : TrafficType) (logs : list TrafficLog.t)
  : list TrafficLog.t :=
  filter (λ log, TrafficLog.trafficType log = ty) logs.

Definition broadcastTick : Async Node unit :=
  try_catch
    (trafficLogs ← liftWorld (getTrafficLogs 100 0);
     activeFlows ← liftWorld getActiveFlows;
     alerts ← liftWorld (getSystemAlerts true 10);
     stats ← liftWorld getNetworkStats;
     (* Broadcast to all connected clients *)
     t1 ← newDate;
     ioEmit "traffic-update"
       (TrafficUpdatePayload t1 (take 50 trafficLogs) activeFlows alerts
          (mkUpdateStats (length activeFlows)
             (fold_left (λ sum _, sum + 1) trafficLogs 0)
             (length alerts)));;
     (* Broadcast per-type statistics *)
     let videoTraffic := ofType video trafficLogs in
     let voiceTraffic := ofType voice trafficLogs in
     let fileTraffic := ofType file trafficLogs in
     let backgroundTraffic := ofType background trafficLogs in
     t2 ← newDate;
     ioEmit "traffic-by-type"
       (TrafficByTypePayload t2 (typeStats videoTraffic)
          (typeStats voiceTraffic) (typeStats fileTraffic)
          (typeStats backgroundTraffic)))
    (λ error, consoleLog "[WebSocket] Broadcasting error:").

(** [setInterval(callback, updateIntervalMs)]. *)
Definition startBroadcasting : Async Node unit :=
  modify (λ n,
    let t := fresh (timers (world n)) in
    mkNode (mkWebSocketManager (io (manager n)) (clients (manager n))
                               (Some t) (updateIntervalMs (manager n)))
           (set_timers ({[t]} ∪ timers (world n)) (world n))).

(** The event loop reaching the interval: the callback runs while the
    timer is registered. *)
Definition intervalFires : Async Node unit :=
  λ n, match updateInterval (manager n) with
       | Some t => if decide (t ∈ timers (world n)) then broadcastTick n
                   else (Ok tt, n)
       | None => (Ok tt, n)
       end.

Definition broadcast (ev : string) (data : list (string * string))
  : Async Node unit :=
  t ← newDate;
  ioEmit ev (DataPayload t None data).

Definition broadcastToSubscribers (channel ev : string)
    (data : list (string * string)) : Async Node unit :=
  t ← newDate;
  modifyClients
    (fmap (λ client,
       if decide (channel ∈ subscriptions client) then
         socketEmit (mkMessage ev (DataPayload t (Some channel) data)) client
       else client)).

Record ConnectedClient : Type := mkConnectedClient {
  cc_id : string;
  cc_connectedAt : Z;
  cc_subscriptions : list string
}.

Definition getConnectedClients : Async Node (list ConnectedClient) :=
  gets (λ n,
    map (λ kv : string * ClientConnection,
           mkConnectedClient (id kv.2) (connectedAt kv.2)
                             (elements (subscriptions kv.2)))
        (map_to_list (clients (manager n)))).

(** [clearInterval] and [io.close()], which drops every connection. *)
Definition stop : Async Node unit :=
  modify (λ n,
    let w := match updateInterval (manager n) with
             | Some t => set_timers (timers (world n) ∖ {[t]}) (world n)
             | None => world n
             end in
    mkNode (mkWebSocketManager
              (mkSocketIOServer (httpServer (io (manager n))) true)
              ∅ (updateInterval (manager n)) (updateIntervalMs (manager n)))
           w).

(** [new WebSocketManager(httpServer)]. *)
Definition newWebSocketManager (server : HTTPServer)
  : Async World WebSocketManager :=
  λ w,
    let this := mkWebSocketManager (mkSocketIOServer server false) ∅ None 1000 in
    match startBroadcasting (mkNode this w) with
    | (Ok _, n) => (Ok (manager n), world n)
    | (Throw e, n) => (Throw e, world n)
    end.

(** ** The module-level singleton

    Objects live in a heap; [wsManager] holds a reference or [null]. *)

Record Process : Type := mkProcess {
  wsManager : option nat;
  heap : gmap nat WebSocketManager;
  processWorld : World
}.

Definition initialProcess (w : World) : Process := mkProcess None ∅ w.

Definition initializeWebSocket (server : HTTPServer) : Async Process nat :=
  λ p, match wsManager p with
       | None =>
           match newWebSocketManager server (processWorld p) with
           | (Ok m, w) =>
               let ref := fresh (dom (heap p)) in
               (Ok ref, mkProcess (Some ref) (<[ref := m]> (heap p)) w)
           | (Throw e, w) => (Throw e, mkProcess None (heap p) w)
           end
       | Some ref => (Ok ref, p)
       end.

Definition getWebSocketManager : Async Process (option nat) :=
  gets wsManager.

(** * The allocation engine

    [allocate] belongs to the AI service, which the TypeScript sources
    reach only over HTTP ([POST /allocate]); it is modelled from the
    specification. *)

Module Engine.

Definition TrafficClass : Type := TrafficType.

Definition Mbps : Type := Q.

(** Declared order of the classes: video, voice, file, background. *)
Definition classRank (c : TrafficClass) : Z :=
  match c with
  | video => 0
  | voice => 1
  | file => 2
  | background => 3
  | unknown => 4
  end.

Definition classes : list TrafficClass :=
  [video; voice; file; background; unknown].

(** Modelled from the spec: the [QosRule] and [AllocationResult] of the
    data model (section 3), which the engine exchanges with its
    callers. *)
Module QosRule.
Record t : Type := mk {
  trafficClass : TrafficClass;
  priority : Z;
  minBandwidthMbps : Mbps;
  maxBandwidthMbps : Mbps;
  dscp : option Z;
  enabled : bool
}.
End QosRule.

Module AllocationResult.
Record t : Type := mk {
  trafficClass : TrafficClass;
  requestedMbps : Mbps;
  allocatedMbps : Mbps;
  satisfiedMin : bool
}.
End AllocationResult.

Inductive AllocationError : Type := NegativeBudget.

(** Modelled from the spec: the order of step 1 of [allocate], priority
    descending with ties broken by the declared order of the
    classes. *)
Definition ruleBefore : relation QosRule.t :=
  λ a b, (QosRule.priority b < QosRule.priority a
          ∨ (QosRule.priority a = QosRule.priority b
             ∧ classRank (QosRule.trafficClass a)
               ≤ classRank (QosRule.trafficClass b)))%Z.

Global Instance ruleBefore_dec : RelDecision ruleBefore.
Proof. intros a b. unfold ruleBefore. apply _. Defined.

(** Modelled from the spec: step 1 of [allocate], the enabled rules in
    that order. *)
Definition sortRules (rules : list QosRule.t) : list QosRule.t :=
  merge_sort ruleBefore (List.filter QosRule.enabled rules).

(** The working state of one class during the passes. *)
Record Entry : Type := mkEntry {
  rule : QosRule.t;
  requested : Mbps;
  allocated : Mbps;
  satisfied : bool
}.

Definition setAllocated (a : Mbps) (e : Entry) : Entry :=
  mkEntry (rule e) (requested e) a (satisfied e).

(** Modelled from the spec: the demand of a class in [allocate]; with
    none given it is the rule's minimum. *)
Definition demandOf (perClassDemand : TrafficClass → option Mbps)
    (r : QosRule.t) : Mbps :=
  default (QosRule.minBandwidthMbps r) (perClassDemand (QosRule.trafficClass r)).

(** Modelled from the spec: pass 1 of [allocate], absent from the
    sources.  For each rule in priority order reserve
    [min(rule.minBandwidthMbps, remainingBudget)]; a class whose full
    minimum cannot be reserved gets [satisfiedMin = false]; the pass
    continues with what remains.  A class reached with the budget
    exhausted has [satisfiedMin = false] whatever its minimum: in the
    second scenario of section 8 (budget 3) all classes after video
    get 0 and [satisfiedMin = false], background with its minimum of 0
    among them. *)
Fixpoint guaranteeMinimums (perClassDemand : TrafficClass → option Mbps)
    (remaining : Mbps) (rules : list QosRule.t) : list Entry * Mbps :=
  match rules with
  | [] => ([], remaining)
  | r :: rest =>
      let reserved := Qmin (QosRule.minBandwidthMbps r) remaining in
      let e := mkEntry r (demandOf perClassDemand r) reserved
                       (Qle_bool (QosRule.minBandwidthMbps r) remaining
                        && negb (Qle_bool remaining 0)) in
      let '(es, after) :=
        guaranteeMinimums perClassDemand (remaining - reserved)%Q rest in
      (e :: es, after)
  end.

(** Modelled from the spec: the growth step shared by passes 2 to 4 of
    [allocate].  An allocation grows toward a target, capped by what
    remains of the budget; one already at or above the target stays. *)
Definition growth (target : Mbps) (e : Entry) (cap : Mbps) : Mbps :=
  Qmin (Qmax 0 (target - allocated e)) cap.

Fixpoint growPass (applies : Entry → bool) (target : Entry → Mbps)
    (remaining : Mbps) (es : list Entry) : list Entry * Mbps :=
  match es with
  | [] => ([], remaining)
  | e :: rest =>
      if applies e then
        let g := growth (target e) e remaining in
        let '(es', after) := growPass applies target (remaining - g)%Q rest in
        (setAllocated (allocated e + g)%Q e :: es', after)
      else
        let '(es', after) := growPass applies target remaining rest in
        (e :: es', after)
  end.

Definition hasPriority (p : Z) (e : Entry) : bool :=
  (QosRule.priority (rule e) =? p)%Z.

(** Modelled from the spec: pass 2 of [allocate]; priority 3 grows
    toward [demand × 1.2], never above the rule's maximum. *)
Definition headroomTarget (e : Entry) : Mbps :=
  Qmin (requested e * (12 # 10)) (QosRule.maxBandwidthMbps (rule e)).

(** Modelled from the spec: pass 3 of [allocate]; priority 1 gets
    [min(demand, maxBandwidthMbps, remainingBudget)], its reservation
    included. *)
Definition demandTarget (e : Entry) : Mbps :=
  Qmin (requested e) (QosRule.maxBandwidthMbps (rule e)).

(** Modelled from the spec: pass 4 of [allocate]; what remains is
    divided in equal shares among the priority-0 classes, each up to
    its maximum. *)
Definition shareLeftover (remaining : Mbps) (es : list Entry) : list Entry :=
  let n := length (List.filter (hasPriority 0) es) in
  let share := (remaining / inject_Z (Z.of_nat n))%Q in
  map (λ e, if hasPriority 0 e then
              setAllocated
                (allocated e
                 + growth (QosRule.maxBandwidthMbps (rule e)) e share)%Q e
            else e)
      es.

Definition toResult (e : Entry) : AllocationResult.t :=
  AllocationResult.mk (QosRule.trafficClass (rule e)) (requested e)
                      (allocated e) (satisfied e).

(** Modelled from the spec: the failure condition of [allocate] for a
    class with demand but no enabled rule; it is reported with nothing
    allocated, and as no minimum is configured for it none is
    missed. *)
Definition unmatched (perClassDemand : TrafficClass → option Mbps)
    (rules : list QosRule.t) : list AllocationResult.t :=
  omap (λ c,
          match perClassDemand c with
          | Some d =>
              if bool_decide (c ∈ map QosRule.trafficClass rules) then None
              else Some (AllocationResult.mk c d 0%Q true)
          | None => None
          end)
       classes.

(** Modelled from the spec: [allocate(perClassDemand, rules,
    totalBudget)], absent from the sources; the four passes over the
    enabled rules in priority order, failing fast on a negative
    budget.  The alerts of pass 1 are the alert evaluator's, which reads
    [satisfiedMin]. *)
Definition allocate (perClassDemand : TrafficClass → option Mbps)
    (rules : list QosRule.t) (totalBudget : Mbps)
  : AllocationError + list AllocationResult.t :=
  if Qlt_le_dec totalBudget 0 then inl NegativeBudget
  else
    let sorted := sortRules rules in
    let '(es1, rem1) := guaranteeMinimums perClassDemand totalBudget sorted in
    let '(es2, rem2) := growPass (hasPriority 3) headroomTarget rem1 es1 in
    let '(es3, rem3) := growPass (hasPriority 1) demandTarget rem2 es2 in
    let es4 := shareLeftover rem3 es3 in
    inr (map toResult es4 ++ unmatched perClassDemand sorted).


Definition sumEntries (es : list Entry) : Mbps :=
  foldr (λ e acc, (allocated e + acc)%Q) 0%Q es.

Definition sumAllocated (results : list AllocationResult.t) : Mbps :=
  foldr (λ r acc, (AllocationResult.allocatedMbps r + acc)%Q) 0%Q results.

(** The default rules of the setup guide, and the demands and budgets
    of the two allocation scenarios. *)
Definition defaultRules : list QosRule.t :=
  [QosRule.mk video 3 5%Q 50%Q (Some 46%Z) true;
   QosRule.mk voice 3 (1 # 10)%Q 10%Q (Some 46%Z) true;
   QosRule.mk file 1 (1 # 2)%Q 30%Q (Some 10%Z) true;
   QosRule.mk background 0 0%Q 20%Q (Some 0%Z) true].

Definition scenarioDemand (c : TrafficClass) : option Mbps :=
  match c with
  | video => Some 40%Q
  | voice => Some 2%Q
  | file => Some 25%Q
  | background => Some 30%Q
  | unknown => None
  end.

(** The results of the first scenario (budget 100). *)
Definition scenarioResults : list AllocationResult.t :=
  match allocate scenarioDemand defaultRules 100%Q with
  | inr results => results
  | inl _ => []
  end.


End Engine.

(** * Views and sample states used in the statements *)

(** The four reads that open the tick. *)
Definition tickReads
  : Async World (list TrafficLog.t * list ActiveFlow.t * list SystemAlert.t
                 * option NetworkStats) :=
  trafficLogs ← getTrafficLogs 100 0;
  activeFlows ← getActiveFlows;
  alerts ← getSystemAlerts true 10;
  stats ← getNetworkStats;
  mret (trafficLogs, activeFlows, alerts, stats).

(** The two messages of a tick whose reads returned. *)
Definition trafficUpdate (t : Z) (trafficLogs : list TrafficLog.t)
    (activeFlows : list ActiveFlow.t) (alerts : list SystemAlert.t)
  : Message :=
  mkMessage "traffic-update"
    (TrafficUpdatePayload t (take 50 trafficLogs) activeFlows alerts
       (mkUpdateStats (length activeFlows)
          (fold_left (λ sum _, sum + 1) trafficLogs 0) (length alerts))).

Definition trafficByType (t : Z) (trafficLogs : list TrafficLog.t) : Message :=
  mkMessage "traffic-by-type"
    (TrafficByTypePayload t
       (typeStats (ofType video trafficLogs))
       (typeStats (ofType voice trafficLogs))
       (typeStats (ofType file trafficLogs))
       (typeStats (ofType background trafficLogs))).

(** The number of logs of a traffic type, and what their average
    throughput is meant to be: the sum of their throughputs, a missing
    one counted as 0, divided by their number. *)
Fixpoint countOfType (ty : TrafficType) (logs : list TrafficLog.t) : nat :=
  match logs with
  | [] => 0
  | log :: rest =>
      if decide (TrafficLog.trafficType log = ty)
      then S (countOfType ty rest) else countOfType ty rest
  end.

Fixpoint throughputOfType (ty : TrafficType) (logs : list TrafficLog.t) : Q :=
  match logs with
  | [] => 0
  | log :: rest =>
      if decide (TrafficLog.trafficType log = ty)
      then (from_option decimalValue 0 (TrafficLog.throughput log)
            + throughputOfType ty rest)%Q
      else throughputOfType ty rest
  end.

Definition meanThroughput (ty : TrafficType) (logs : list TrafficLog.t) : Q :=
  (throughputOfType ty logs / inject_Z (Z.of_nat (countOfType ty logs)))%Q.

(** The logs that carry a throughput. *)
Definition withThroughput (logs : list TrafficLog.t) : list TrafficLog.t :=
  filter (λ log, is_Some (TrafficLog.throughput log)) logs.

(** The number of points in a text. *)
Fixpoint pointsIn (text : list ascii) : nat :=
  match text with
  | [] => 0
  | c :: rest => if isChar "." c then S (pointsIn rest) else pointsIn rest
  end.

Definition points (s : string) : nat := pointsIn (list_ascii_of_string s).

Definition sampleLog (i : Z) (ty : TrafficType) (throughput : option Q)
  : TrafficLog.t :=
  TrafficLog.mk i (10 + i) "10.0.0.1" "10.0.0.2" None None "UDP" ty 1200
                (decimal <$> throughput) None (10 + i).

Definition sampleRule (i : Z) (ty : TrafficType) (priority : Z) (lo hi : Q)
  : QosRule.t :=
  QosRule.mk i ty priority (decimal lo) (decimal hi) None true 0 0.

Definition sampleDatabase : Database :=
  mkDatabase
    [sampleLog 1 video (Some 1%Q); sampleLog 2 video None;
     sampleLog 3 video (Some 0%Q)]
    []
    [sampleRule 1 video 3 5 50; sampleRule 2 background 0 0 20]
    [] [] [].

(** A process with a working handle, and one without a database. *)
Definition sampleWorld : World :=
  mkWorld (Some (mkHandle "mysql://db")) (Some "mysql://db")
          (λ url, Ok (mkHandle url)) sampleDatabase (λ _, false) 1000 ∅ [].

Definition offlineWorld : World :=
  mkWorld None None (λ url, Throw "no driver") sampleDatabase (λ _, false)
          1000 ∅ [].

(** The same process while the server rejects reads of the traffic
    logs. *)
Definition failingWorld (w : World) : World :=
  mkWorld (_db w) (DATABASE_URL w) (drizzle w) (database w)
          (λ t, match t with trafficLogsT => true | _ => rejects w t end)
          (now w) (timers w) (console w).

(** A manager with one client that subscribed to [alerts] only. *)
Definition sampleNode : Node :=
  let start :=
    mkNode (mkWebSocketManager (mkSocketIOServer 0 false) ∅ None 1000)
           sampleWorld in
  (onSubscribe "a" "alerts"
     (onConnection "a" (startBroadcasting start).2).2).2.

Definition emittedTo (cid : string) (n : Node) : list Message :=
  from_option (λ c, emitted (socket c)) [] (clients (manager n) !! cid).

(** A process whose database holds two video logs, of throughput 1 and
    2, and a manager with one client on it. *)
Definition pairDatabase : Database :=
  mkDatabase [sampleLog 1 video (Some 1%Q); sampleLog 2 video (Some 2%Q)]
             [] [] [] [] [].

Definition pairWorld : World :=
  mkWorld (Some (mkHandle "mysql://db")) (Some "mysql://db")
          (λ url, Ok (mkHandle url)) pairDatabase (λ _, false) 1000 ∅ [].

Definition pairNode : Node :=
  let start :=
    mkNode (mkWebSocketManager (mkSocketIOServer 0 false) ∅ None 1000)
           pairWorld in
  (onConnection "a" (startBroadcasting start).2).2.

(** A database with traffic of every type, flows and alerts. *)
Definition sampleFlow (i : Z) (ty : TrafficType) (bandwidth : Q)
  : ActiveFlow.t :=
  ActiveFlow.mk i "10.0.0.1" "10.0.0.2" (Some 5004%Z) (Some 5004%Z) "UDP" ty
                (decimal bandwidth) None (Some 0%Z) (Some 0%Z) 100 (100 + i)
                100.

Definition sampleAlert (i : Z) (s : Severity) (resolved : bool)
  : SystemAlert.t :=
  SystemAlert.mk i s "Bandwidth" "Video minimum not met" None resolved
                 (200 + i) None.

Definition busyDatabase : Database :=
  mkDatabase
    [sampleLog 1 video (Some 4%Q); sampleLog 2 voice (Some (1 # 2)%Q);
     sampleLog 3 unknown (Some 2%Q); sampleLog 4 file None;
     sampleLog 5 video (Some 6%Q)]
    [Prediction.mk 1 50 video (decimal 40) (decimal 80) None None 50]
    [sampleRule 1 video 3 5 50]
    []
    [sampleFlow 7 video 4%Q; sampleFlow 8 voice (1 # 2)%Q]
    [sampleAlert 1 critical false; sampleAlert 2 warning true].

Definition busyWorld : World :=
  mkWorld (Some (mkHandle "mysql://db")) (Some "mysql://db")
          (λ url, Ok (mkHandle url)) busyDatabase (λ _, false) 1000 ∅ [].

(** ** Runs of the manager

    What reaches the manager in a process: socket events, the interval,
    calls of its public methods, and changes of the database made by
    others. *)
Inductive ManagerEvent : Type :=
| ConnectionEvent (sid : string)
| SubscribeEvent (cid channel : string)
| UnsubscribeEvent (cid channel : string)
| DisconnectEvent (cid : string)
| ErrorEvent (cid : string)
| IntervalEvent
| BroadcastCall (ev : string) (data : list (string * string))
| BroadcastToSubscribersCall (channel ev : string)
    (data : list (string * string))
| DatabaseChange (change : Database → Database).

Definition handleEvent (e : ManagerEvent) : Async Node unit :=
  match e with
  | ConnectionEvent sid => onConnection sid
  | SubscribeEvent cid channel => onSubscribe cid channel
  | UnsubscribeEvent cid channel => onUnsubscribe cid channel
  | DisconnectEvent cid => onDisconnect cid
  | ErrorEvent cid => onError cid
  | IntervalEvent => intervalFires
  | BroadcastCall ev data => broadcast ev data
  | BroadcastToSubscribersCall channel ev data =>
      broadcastToSubscribers channel ev data
  | DatabaseChange change =>
      modify (λ n, mkNode (manager n)
                          (set_database (change (database (world n)))
                                        (world n)))
  end.

Definition runEvents (events : list ManagerEvent) (n : Node) : Node :=
  fold_left (λ n e, (handleEvent e n).2) events n.

(** The node right after [new WebSocketManager(httpServer)]. *)
Definition startedNode (server : HTTPServer) (w : World) : Node :=
  match newWebSocketManager server w with
  | (Ok m, w') => mkNode m w'
  | (Throw _, w') =>
      mkNode (mkWebSocketManager (mkSocketIOServer server false) ∅ None 1000) w'
  end.

(** A client whose first message is the greeting of its connection and
    whose id is the key it is stored under. *)
Definition greeted (k : string) (c : ClientConnection) : Prop :=
  id c = k ∧ socketId (socket c) = k
  ∧ ∃ t rest,
      emitted (socket c)
      = mkMessage "connected" (ConnectedPayload k t) :: rest.

(** A process that cannot get a handle: [_db] is null and either no
    [DATABASE_URL] is set or the driver throws on it. *)
Definition offline (w : World) : Prop :=
  _db w = None
  ∧ match truthy (DATABASE_URL w) with
    | Some url => ∃ e, drizzle w url = Throw e
    | None => True
    end.

(** The statistics of a type with no log. *)
Definition noTraffic : TypeStats := mkTypeStats 0 (JsNumber (numberOfZ 0)).

(** ** Users ([users] of the schema, [upsertUser], [getUserByOpenId]) *)

Inductive Role : Type := userRole | adminRole.

Global Instance Role_eq_dec : EqDecision Role.
Proof. solve_decision. Defined.

Module User.
Record t : Type := mk {
  id : Z;
  openId : string;
  name : option string;
  email : option string;
  loginMethod : option string;
  role : Role;
  createdAt : Z;
  updatedAt : Z;
  lastSignedIn : Z
}.
End User.

Global Instance User_eq_dec : EqDecision User.t.
Proof. solve_decision. Defined.

(** [InsertUser]: an optional nullable column is absent ([None]),
    [null] ([Some None]) or a value. *)
Module InsertUser.
Record t : Type := mk {
  id : option Z;
  openId : string;
  name : option (option string);
  email : option (option string);
  loginMethod : option (option string);
  role : option Role;
  createdAt : option Z;
  updatedAt : option Z;
  lastSignedIn : option Z
}.
End InsertUser.

(** The [updateSet] of [upsertUser]: the columns to overwrite. *)
Record UpdateSet : Type := mkUpdateSet {
  setName : option (option string);
  setEmail : option (option string);
  setLoginMethod : option (option string);
  setRole : option Role;
  setLastSignedIn : option Z
}.

(** The process with its [users] table; [usersRejected] tells whether
    the server rejects statements on it. *)
Record Accounts : Type := mkAccounts {
  accountsWorld : World;
  users : list User.t;
  usersRejected : bool
}.

Definition liftAccounts {A} (m : Async World A) : Async Accounts A :=
  λ a, let '(r, w) := m (accountsWorld a) in
       (r, mkAccounts w (users a) (usersRejected a)).

Definition accountsLog (line : string) : Async Accounts unit :=
  modify (λ a, mkAccounts (console_write line (accountsWorld a)) (users a)
                          (usersRejected a)).

Definition isEmptyUpdateSet (s : UpdateSet) : bool :=
  match setName s, setEmail s, setLoginMethod s, setRole s,
        setLastSignedIn s with
  | None, None, None, None, None => true
  | _, _, _, _, _ => false
  end.

(** [ON DUPLICATE KEY UPDATE]: the columns of the set are overwritten;
    [updatedAt] follows when the row changes. *)
Definition applyUpdateSet (s : UpdateSet) (t : Z) (u : User.t) : User.t :=
  let changed :=
    User.mk (User.id u) (User.openId u)
            (default (User.name u) (setName s))
            (default (User.email u) (setEmail s))
            (default (User.loginMethod u) (setLoginMethod s))
            (default (User.role u) (setRole s))
            (User.createdAt u) (User.updatedAt u)
            (default (User.lastSignedIn u) (setLastSignedIn s)) in
  if decide (changed = u) then u
  else User.mk (User.id changed) (User.openId changed) (User.name changed)
               (User.email changed) (User.loginMethod changed)
               (User.role changed) (User.createdAt changed) t
               (User.lastSignedIn changed).

(** The row [INSERT] creates from the values, defaults filled in. *)
Definition userRow (values : InsertUser.t) (t : Z) (rows : list User.t)
  : User.t :=
  User.mk (default (nextId User.id rows) (InsertUser.id values))
          (InsertUser.openId values)
          (default None (InsertUser.name values))
          (default None (InsertUser.email values))
          (default None (InsertUser.loginMethod values))
          (default userRole (InsertUser.role values))
          (default t (InsertUser.createdAt values))
          (default t (InsertUser.updatedAt values))
          (default t (InsertUser.lastSignedIn values)).

(** [db.insert(users).values(values).onDuplicateKeyUpdate({set})]. *)
Definition insertOnDuplicateKeyUpdate (values : InsertUser.t) (s : UpdateSet)
  : Async Accounts unit :=
  λ a, if usersRejected a then (Throw "query failed", a)
       else
         let t := now (accountsWorld a) in
         let same := λ u : User.t,
           bool_decide (User.openId u = InsertUser.openId values) in
         if existsb same (users a) then
           (Ok tt,
            mkAccounts (accountsWorld a)
              (map (λ u, if same u then applyUpdateSet s t u else u) (users a))
              (usersRejected a))
         else
           (Ok tt,
            mkAccounts (accountsWorld a)
              (users a ++ [userRow values t (users a)])
              (usersRejected a)).

(** The role [upsertUser] writes: the given one, else [admin] for the
    owner ([ENV.ownerOpenId]), else none. *)
Definition upsertRole (ownerOpenId : string) (user : InsertUser.t)
  : option Role :=
  match InsertUser.role user with
  | Some r => Some r
  | None =>
      if decide (InsertUser.openId user = ownerOpenId)
      then Some adminRole else None
  end.

(** The [values] and the [updateSet] [upsertUser] builds at time [t]. *)
Definition upsertValues (ownerOpenId : string) (t : Z) (user : InsertUser.t)
  : InsertUser.t :=
  InsertUser.mk None (InsertUser.openId user)
    (InsertUser.name user) (InsertUser.email user)
    (InsertUser.loginMethod user) (upsertRole ownerOpenId user) None None
    (Some (default t (InsertUser.lastSignedIn user))).

Definition upsertUpdateSet (ownerOpenId : string) (t : Z)
    (user : InsertUser.t) : UpdateSet :=
  let updateSet :=
    mkUpdateSet (InsertUser.name user) (InsertUser.email user)
                (InsertUser.loginMethod user) (upsertRole ownerOpenId user)
                (InsertUser.lastSignedIn user) in
  if isEmptyUpdateSet updateSet
  then mkUpdateSet None None None None (Some t)
  else updateSet.

Definition upsertUser (ownerOpenId : string) (user : InsertUser.t)
  : Async Accounts unit :=
  if decide (InsertUser.openId user = "") then
    throw "User openId is required for upsert"
  else
    db ← liftAccounts getDb;
    match db with
    | None =>
        accountsLog "[Database] Cannot upsert user: database not available"
    | Some _ =>
        try_catch
          (t ← gets (λ a, now (accountsWorld a));
           insertOnDuplicateKeyUpdate (upsertValues ownerOpenId t user)
                                      (upsertUpdateSet ownerOpenId t user))
          (λ error,
             (accountsLog "[Database] Failed to upsert user:";;
              throw error))
    end.

(** [db.select().from(users).where(eq(users.openId, openId)).limit(1)]. *)
Definition selectUserByOpenId (openId : string)
  : Async Accounts (list User.t) :=
  λ a, if usersRejected a then (Throw "query failed", a)
       else (Ok (take 1 (filter (λ u, User.openId u = openId) (users a))), a).

Definition getUserByOpenId (openId : string)
  : Async Accounts (option User.t) :=
  db ← liftAccounts getDb;
  match db with
  | None =>
      (accountsLog "[Database] Cannot get user: database not available";;
       mret None)
  | Some _ =>
      (result ← selectUserByOpenId openId;
       mret (head result))
  end.

Definition sampleUser : User.t :=
  User.mk 1 "u-1" (Some "Ada") None (Some "google") userRole 10 10 10.

Definition sampleAccounts : Accounts :=
  mkAccounts sampleWorld [sampleUser] false.

(** * The dashboard page ([Dashboard], client side)

    The state of the component and the effects that run when the
    results of its three queries arrive. *)

Module Dashboard.

(** A point of the throughput chart.  The interface declares the four
    typed fields as numbers; what they hold is what the reducer put
    there.  A log of type [unknown] adds an [unknown] key to the
    object. *)
Record TrafficData : Type := mkTrafficData {
  timestamp : string;
  videoMbps : JsValue;
  voiceMbps : JsValue;
  fileMbps : JsValue;
  backgroundMbps : JsValue;
  unknownMbps : option JsValue
}.

Definition zero : JsValue := JsNumber (numberOfZ 0).

Definition newGroup (time : string) : TrafficData :=
  mkTrafficData time zero zero zero zero None.

(** [group[type]]. *)
Definition getField (ty : TrafficType) (g : TrafficData) : option JsValue :=
  match ty with
  | video => Some (videoMbps g)
  | voice => Some (voiceMbps g)
  | file => Some (fileMbps g)
  | background => Some (backgroundMbps g)
  | unknown => unknownMbps g
  end.

Definition setField (ty : TrafficType) (v : JsValue) (g : TrafficData)
  : TrafficData :=
  match ty with
  | video => mkTrafficData (timestamp g) v (voiceMbps g) (fileMbps g)
                           (backgroundMbps g) (unknownMbps g)
  | voice => mkTrafficData (timestamp g) (videoMbps g) v (fileMbps g)
                           (backgroundMbps g) (unknownMbps g)
  | file => mkTrafficData (timestamp g) (videoMbps g) (voiceMbps g) v
                          (backgroundMbps g) (unknownMbps g)
  | background => mkTrafficData (timestamp g) (videoMbps g) (voiceMbps g)
                                (fileMbps g) v (unknownMbps g)
  | unknown => mkTrafficData (timestamp g) (videoMbps g) (voiceMbps g)
                             (fileMbps g) (backgroundMbps g) (Some v)
  end.

(** [group[type] = (group[type] || 0) + (log.throughput || 0)]. *)
Definition addTo (ty : TrafficType) (throughput : JsValue) (g : TrafficData)
  : TrafficData :=
  setField ty (jsPlus (jsOr (getField ty g) zero) throughput) g.

(** One step of the [forEach] over the logs: [timeGroups] is the object
    keyed by the time string, in insertion order. *)
Fixpoint addLog (time : string) (ty : TrafficType) (throughput : JsValue)
    (timeGroups : list TrafficData) : list TrafficData :=
  match timeGroups with
  | [] => [addTo ty throughput (newGroup time)]
  | g :: rest =>
      if decide (timestamp g = time)
      then addTo ty throughput g :: rest
      else g :: addLog time ty throughput rest
  end.

Section WithLocale.

(** [new Date(timestamp).toLocaleTimeString()], which depends on the
    locale of the browser. *)
Context (toLocaleTimeString : Z → string).

Definition groupLogs (logs : list TrafficLog.t) : list TrafficData :=
  fold_left
    (λ timeGroups log,
       addLog (toLocaleTimeString (TrafficLog.timestamp log))
              (TrafficLog.trafficType log)
              (throughputOrZero log) timeGroups)
    logs [].

(** [array.slice(-20)]. *)
Definition sliceLast {A} (k : nat) (l : list A) : list A :=
  drop (length l - k) l.

Record State : Type := mkState {
  trafficData : list TrafficData;
  flows : list ActiveFlow.t;
  alerts : list SystemAlert.t;
  totalBandwidth : Number;
  usedBandwidth : JsValue
}.

Definition initialState : State := mkState [] [] [] (numberOfZ 0) zero.

(** The three effects; [None] is the [undefined] of a query that has
    no data (yet, or because the user is not authenticated). *)
Definition onTrafficLogs (data : option (list TrafficLog.t)) (st : State)
  : State :=
  match data with
  | Some (log :: rest) =>
      let trafficLogs := log :: rest in
      mkState (sliceLast 20 (groupLogs trafficLogs)) (flows st) (alerts st)
              (totalBandwidth st)
              (fold_left (λ sum log, jsPlus sum (throughputOrZero log))
                         trafficLogs zero)
  | _ => st
  end.

Definition onActiveFlows (data : option (list ActiveFlow.t)) (st : State)
  : State :=
  match data with
  | Some (flow :: rest) =>
      mkState (trafficData st) (flow :: rest) (alerts st)
              (totalBandwidth st) (usedBandwidth st)
  | _ => st
  end.

Definition onSystemAlerts (data : option (list SystemAlert.t)) (st : State)
  : State :=
  match data with
  | Some (alert :: rest) =>
      mkState (trafficData st) (flows st) (alert :: rest)
              (totalBandwidth st) (usedBandwidth st)
  | _ => st
  end.

Definition bandwidthUsagePercent (st : State) : Number :=
  if SFltb (numberOfZ 0) (totalBandwidth st)
  then SFmul 53 1024
         (jsDivide (usedBandwidth st) (JsNumber (totalBandwidth st)))
         (numberOfZ 100)
  else numberOfZ 0.

(** A value of the pie chart: [trafficData.reduce((sum, d) => sum +
    d.video, 0)] and its siblings, one per typed field. *)
Definition pieValue (field : TrafficData → JsValue) (data : list TrafficData)
  : JsValue :=
  fold_left (λ sum d, jsPlus sum (field d)) data zero.

(** What a field of the chart can hold: the number 0 it starts with,
    or a string that is not empty. *)
Definition untouched (v : JsValue) : Prop := v = zero.

Definition textual (v : JsValue) : Prop := ∃ s, v = JsString s ∧ s ≠ "".

Definition pieValues (data : list TrafficData)
  : list (TrafficType * JsValue) :=
  [(video, pieValue videoMbps data); (voice, pieValue voiceMbps data);
   (file, pieValue fileMbps data);
   (background, pieValue backgroundMbps data)].

Inductive QueryResult : Type :=
| TrafficLogsResult (data : option (list TrafficLog.t))
| ActiveFlowsResult (data : option (list ActiveFlow.t))
| SystemAlertsResult (data : option (list SystemAlert.t)).

Definition onResult (r : QueryResult) (st : State) : State :=
  match r with
  | TrafficLogsResult data => onTrafficLogs data st
  | ActiveFlowsResult data => onActiveFlows data st
  | SystemAlertsResult data => onSystemAlerts data st
  end.

Definition render (results : list QueryResult) : State :=
  fold_left (λ st r, onResult r st) results initialState.

End WithLocale.

(** A locale that prints the seconds of the timestamp. *)
Definition secondsLocale (t : Z) : string :=
  DecimalString.NilZero.string_of_uint (N.to_uint (Z.to_N t)) +:+ " s".

End Dashboard.

(** * db.ts: the helpers *)

Section DbHelpers.

Local Ltac run_helper H :=
  unfold mbind, async_bind; rewrite H; reflexivity.

(** [getDb] touches the handle and the console only. *)
Lemma getDb_database (w : World) : database (getDb w).2 = database w.
Proof.
  unfold getDb.
  destruct (_db w); [reflexivity|].
  destruct (truthy (DATABASE_URL w)) as [url|]; [|reflexivity].
  destruct (drizzle w url); reflexivity.
Qed.

Lemma getDb_rejects (w : World) : rejects (getDb w).2 = rejects w.
Proof.
  unfold getDb.
  destruct (_db w); [reflexivity|].
  destruct (truthy (DATABASE_URL w)) as [url|]; [|reflexivity].
  destruct (drizzle w url); reflexivity.
Qed.

Lemma getDb_returns (w : World) : ∃ h, (getDb w).1 = Ok h.
Proof.
  unfold getDb.
  destruct (_db w) as [h|]; [by exists (Some h)|].
  destruct (truthy (DATABASE_URL w)) as [url|]; [|by exists None].
  destruct (drizzle w url) as [h|e]; [by exists (Some h)|by exists None].
Qed.

(** C10. When [getDb] yields no handle, every query helper resolves to
    the empty list and every insert or update helper to [null], and the
    tables of the database are what they were. *)
Theorem helpers_without_handle (w w' : World) :
  getDb w = (Ok None, w') →
  database w' = database w
  ∧ (∀ limit offset, getTrafficLogs limit offset w = (Ok [], w'))
  ∧ getActiveFlows w = (Ok [], w')
  ∧ (∀ ty, getTrafficByType ty w = (Ok [], w'))
  ∧ (∀ ty limit, getPredictions ty limit w = (Ok [], w'))
  ∧ getQosRules w = (Ok [], w')
  ∧ getNetworkInterfaces w = (Ok [], w')
  ∧ (∀ unresolved limit, getSystemAlerts unresolved limit w = (Ok [], w'))
  ∧ (∀ data, insertTrafficLog data w = (Ok None, w'))
  ∧ (∀ data, insertPrediction data w = (Ok None, w'))
  ∧ (∀ data, insertActiveFlow data w = (Ok None, w'))
  ∧ (∀ flowId data, updateActiveFlow flowId data w = (Ok None, w'))
  ∧ (∀ data, insertSystemAlert data w = (Ok None, w')).
Proof.
  intros H. split.
  { pose proof (getDb_database w) as Hd. by rewrite H in Hd. }
  repeat split; intros;
    [ unfold getTrafficLogs | unfold getActiveFlows | unfold getTrafficByType
    | unfold getPredictions | unfold getQosRules | unfold getNetworkInterfaces
    | unfold getSystemAlerts | unfold insertTrafficLog
    | unfold insertPrediction | unfold insertActiveFlow
    | unfold updateActiveFlow | unfold insertSystemAlert ];
    run_helper H.
Qed.

Lemma helpers_without_handle_witness :
  getQosRules offlineWorld = (Ok [], offlineWorld)
  ∧ insertTrafficLog
      (InsertTrafficLog.mk None None "10.0.0.1" "10.0.0.2" None None "UDP"
                           video 1200 None None None)
      offlineWorld = (Ok None, offlineWorld).
Proof.
  pose proof (helpers_without_handle offlineWorld offlineWorld eq_refl)
    as (_ & _ & _ & _ & _ & Hq & _ & _ & Hi & _).
  split; [exact Hq | apply Hi].
Defined.

End DbHelpers.

(** * getQosRules: the order of the rules *)

Section RuleOrder.

Context {A : Type} (key : A → Z).

Global Instance ascBy_total : Total (ascBy key).
Proof. intros a b. unfold ascBy. lia. Qed.

Global Instance ascBy_trans : Transitive (ascBy key).
Proof. intros a b c. unfold ascBy. lia. Qed.

Global Instance descBy_total : Total (descBy key).
Proof. intros a b. unfold descBy. lia. Qed.

Global Instance descBy_trans : Transitive (descBy key).
Proof. intros a b c. unfold descBy. lia. Qed.

Lemma orderBy_sorted (rows : list A) :
  StronglySorted (ascBy key) (orderBy key rows).
Proof. apply StronglySorted_merge_sort; apply _. Qed.

Lemma orderBy_perm (rows : list A) : orderBy key rows ≡ₚ rows.
Proof. apply merge_sort_Permutation. Qed.

Lemma orderByDesc_sorted (rows : list A) :
  StronglySorted (descBy key) (orderByDesc key rows).
Proof. apply StronglySorted_merge_sort; apply _. Qed.

Lemma orderByDesc_perm (rows : list A) : orderByDesc key rows ≡ₚ rows.
Proof. apply merge_sort_Permutation. Qed.

End RuleOrder.

(** C5, as the code has it. Unless the server rejects the query,
    [getQosRules] returns, and the rules it returns are ordered by
    priority ascending: priorities never decrease along the list,
    which holds exactly the stored rules whenever a handle is
    available, and is empty without one. *)
Theorem getQosRules_ascending (w : World) :
  rejects w qosRulesT = false →
  ∃ rules,
    (getQosRules w).1 = Ok rules
    ∧ StronglySorted (ascBy QosRule.priority) rules
    ∧ (∀ h, (getDb w).1 = Ok (Some h) → rules ≡ₚ qosRules (database w))
    ∧ ((getDb w).1 = Ok None → rules = []).
Proof.
  intros Hok. unfold getQosRules, mbind, async_bind.
  pose proof (getDb_database w) as Hd.
  pose proof (getDb_rejects w) as Hr.
  destruct (getDb_returns w) as [o Ho].
  destruct (getDb w) as [r w'] eqn:Hg. simpl in *. subst r.
  destruct o as [h|]; simpl.
  - unfold execute. rewrite Hr, Hok. eexists. split; [reflexivity|].
    split; [apply orderBy_sorted|]. split; [|intros [=]].
    intros _ _. rewrite Hd. apply orderBy_perm.
  - exists []. split; [reflexivity|]. split; [constructor|].
    split; [intros h [=]|done].
Qed.


Lemma getQosRules_ascending_witness :
  ∃ rules,
    (getQosRules sampleWorld).1 = Ok rules
    ∧ StronglySorted (ascBy QosRule.priority) rules.
Proof.
  destruct (getQosRules_ascending sampleWorld eq_refl) as (rules & H1 & H2 & _).
  exists rules. split; [exact H1 | exact H2].
Defined.

(** C5, counterexample. With a video rule of priority 3 and a
    background rule of priority 0 stored, the first rule returned is the
    background one: the list is not ordered by priority descending. *)
Lemma getQosRules_descending_counterexample :
  (getQosRules sampleWorld).1
  = Ok [sampleRule 2 background 0 0 20; sampleRule 1 video 3 5 50]
  ∧ ¬ StronglySorted (descBy QosRule.priority)
        [sampleRule 2 background 0 0 20; sampleRule 1 video 3 5 50].
Proof.
  split; [reflexivity|].
  intros H. apply StronglySorted_inv in H as [_ H].
  apply Forall_inv in H. unfold descBy in H. simpl in H. lia.
Qed.

(** * The broadcast manager *)

Section Broadcast.

Implicit Types (n : Node) (c : ClientConnection) (cid channel : string).

(** The tick, by the outcome of its reads: both messages go to every
    connected socket, or the error is logged and nothing is sent. *)
Lemma broadcastTick_by_reads n :
  broadcastTick n =
  match tickReads (world n) with
  | (Ok (trafficLogs, activeFlows, alerts, _), w') =>
      (Ok tt,
       mkNode
         (set_clients
            (socketEmit (trafficByType (now w') trafficLogs)
             <$> (socketEmit
                    (trafficUpdate (now w') trafficLogs activeFlows alerts)
                  <$> clients (manager n)))
            (manager n))
         w')
  | (Throw e, w') =>
      (Ok tt,
       mkNode (manager n)
              (console_write "[WebSocket] Broadcasting error:" w'))
  end.
Proof.
  unfold broadcastTick, tickReads, try_catch, mbind, async_bind, liftWorld.
  destruct (getTrafficLogs 100 0 (world n)) as [[logs|e] w1]; simpl; [|done].
  destruct (getActiveFlows w1) as [[flows|e] w2]; simpl; [|done].
  destruct (getSystemAlerts true 10 w2) as [[alerts|e] w3]; simpl; [|done].
  destruct (getNetworkStats w3) as [[stats|e] w4]; simpl; done.
Qed.

Lemma emittedTo_lookup n cid c :
  clients (manager n) !! cid = Some c → emittedTo cid n = emitted (socket c).
Proof. unfold emittedTo. by intros ->. Qed.

(** ** Subscriptions *)

Lemma onSubscribe_clients n cid channel :
  clients (manager (onSubscribe cid channel n).2)
  = alter (socketEmit (mkMessage "subscribed" (ChannelPayload channel))) cid
      (alter (subscriptionsAdd channel) cid (clients (manager n))).
Proof. reflexivity. Qed.

Lemma onUnsubscribe_clients n cid channel :
  clients (manager (onUnsubscribe cid channel n).2)
  = alter (socketEmit (mkMessage "unsubscribed" (ChannelPayload channel))) cid
      (alter (subscriptionsDelete channel) cid (clients (manager n))).
Proof. reflexivity. Qed.

Lemma onSubscribe_subscriptions n cid channel c :
  clients (manager n) !! cid = Some c →
  subscriptions <$> clients (manager (onSubscribe cid channel n).2) !! cid
  = Some ({[channel]} ∪ subscriptions c).
Proof.
  intros H. rewrite onSubscribe_clients, !lookup_alter_eq, H. reflexivity.
Qed.

(** C6. For a connected client, subscribing to a channel a second time
    leaves its subscription set as the first subscription made it, and
    unsubscribing from a channel it never subscribed to returns normally
    and leaves the set as it was. *)
Theorem subscribe_idempotent_unsubscribe_noop n cid channel c :
  clients (manager n) !! cid = Some c →
  let once := (onSubscribe cid channel n).2 in
  let twice := (onSubscribe cid channel once).2 in
  (onSubscribe cid channel once).1 = Ok tt
  ∧ subscriptions <$> clients (manager twice) !! cid
    = subscriptions <$> clients (manager once) !! cid
  ∧ (channel ∉ subscriptions c →
     (onUnsubscribe cid channel n).1 = Ok tt
     ∧ subscriptions <$> clients (manager (onUnsubscribe cid channel n).2) !! cid
       = Some (subscriptions c)).
Proof.
  intros H once twice. split; [reflexivity|]. split.
  - pose proof (onSubscribe_subscriptions n cid channel c H) as H1.
    fold once in H1.
    destruct (clients (manager once) !! cid) as [c1|] eqn:Hc1; [|done].
    injection H1 as H1.
    unfold twice.
    rewrite (onSubscribe_subscriptions once cid channel c1 Hc1), H1. simpl.
    f_equal. by rewrite (assoc_L (∪)), (idemp_L (∪)).
  - intros Hnot. split; [reflexivity|].
    rewrite onUnsubscribe_clients, !lookup_alter_eq, H. simpl.
    f_equal. apply difference_disjoint_L. by apply disjoint_singleton_r.
Qed.

Lemma subscribe_idempotent_unsubscribe_noop_witness :
  let once := (onSubscribe "a" "traffic" sampleNode).2 in
  subscriptions
  <$> clients (manager (onSubscribe "a" "traffic" once).2) !! "a"
  = subscriptions <$> clients (manager once) !! "a".
Proof.
  eapply (λ c H, proj1 (proj2 (subscribe_idempotent_unsubscribe_noop
                                 sampleNode "a" "traffic" c H))).
  vm_compute. reflexivity.
Defined.

(** ** The singleton *)

(** C9. While [wsManager] is still [null], [getWebSocketManager] returns
    [null]; the first [initializeWebSocket] constructs a manager on the
    server it is given, at a reference not in use before; every later
    call returns that reference and leaves the process as it is,
    whatever server it is given; [getWebSocketManager] then returns the
    same reference. *)
Theorem initializeWebSocket_singleton (p : Process) (first another : HTTPServer) :
  wsManager p = None →
  (getWebSocketManager p).1 = Ok None
  ∧ ∃ ref m p1,
      initializeWebSocket first p = (Ok ref, p1)
      ∧ heap p !! ref = None
      ∧ heap p1 !! ref = Some m
      ∧ httpServer (io m) = first
      ∧ initializeWebSocket another p1 = (Ok ref, p1)
      ∧ getWebSocketManager p1 = (Ok (Some ref), p1).
Proof.
  intros H. split.
  { unfold getWebSocketManager, gets. simpl. by rewrite H. }
  unfold initializeWebSocket. rewrite H. simpl.
  eexists _, _, _. split; [reflexivity|]. simpl.
  split; [apply not_elem_of_dom, is_fresh|].
  split; [apply lookup_insert_eq|].
  repeat split.
Qed.

Lemma initializeWebSocket_singleton_witness :
  ∃ ref p1,
    initializeWebSocket 7 (initialProcess sampleWorld) = (Ok ref, p1)
    ∧ initializeWebSocket 8 p1 = (Ok ref, p1).
Proof.
  destruct (initializeWebSocket_singleton (initialProcess sampleWorld) 7 8
              eq_refl) as (_ & ref & m & p1 & H1 & _ & _ & _ & H2 & _).
  exists ref, p1. split; [exact H1 | exact H2].
Defined.

End Broadcast.

(** * The tick *)

Section Tick.

Implicit Types (n : Node) (c : ClientConnection) (cid channel : string).

(** ** The reads leave the timers alone *)

Lemma bind_timers {A B} (m : Async World A) (k : A → Async World B) :
  (∀ w, timers (m w).2 = timers w) →
  (∀ a w, timers (k a w).2 = timers w) →
  ∀ w, timers ((m ≫= k) w).2 = timers w.
Proof.
  intros Hm Hk w. unfold mbind, async_bind.
  specialize (Hm w). destruct (m w) as [[a|e] w1]; simpl in *; [|done].
  by rewrite Hk.
Qed.

Lemma getDb_timers w : timers (getDb w).2 = timers w.
Proof.
  unfold getDb.
  destruct (_db w); [reflexivity|].
  destruct (truthy (DATABASE_URL w)) as [url|]; [|reflexivity].
  destruct (drizzle w url); reflexivity.
Qed.

Lemma execute_timers {A} t (read : Database → A) w :
  timers (execute t read w).2 = timers w.
Proof. unfold execute. by destruct (rejects w t). Qed.

Local Ltac timers_step :=
  first [ apply getDb_timers | apply execute_timers | reflexivity
        | apply bind_timers; intros ].

Lemma tickReads_timers w : timers (tickReads w).2 = timers w.
Proof.
  unfold tickReads, getTrafficLogs, getActiveFlows, getSystemAlerts,
    getNetworkStats.
  repeat (timers_step; try match goal with
                           | |- context [match ?o with _ => _ end] =>
                               destruct o
                           end).
Qed.

(** ** When the reads return and when they fail *)

Lemma getDb_healthy (w : World) :
  (∀ t, rejects w t = false) →
  ∃ h w', getDb w = (Ok h, w') ∧ ∀ t, rejects w' t = false.
Proof.
  intros Hok. unfold getDb.
  destruct (_db w) as [h|]; [by exists (Some h), w|].
  destruct (truthy (DATABASE_URL w)) as [url|]; [|by exists None, w].
  destruct (drizzle w url) as [h|e]; by eexists _, _.
Qed.

Local Ltac read_step :=
  match goal with
  | H : ∀ t, rejects ?w t = false |- context [getDb ?w] =>
      destruct (getDb_healthy w H) as (? & ? & -> & ?); clear H; simpl
  | |- context [match ?o with Some _ => _ | None => _ end] =>
      destruct o; simpl
  | H : ∀ t, rejects ?w t = false |- context [rejects ?w ?t] =>
      rewrite (H t); simpl
  end.

(** While the server rejects nothing, the reads of a tick return. *)
Lemma healthy_reads_return (w : World) :
  (∀ t, rejects w t = false) →
  ∃ data w', tickReads w = (Ok data, w').
Proof.
  intros Hok.
  unfold tickReads, getTrafficLogs, getActiveFlows, getSystemAlerts,
    getNetworkStats, execute, mbind, async_bind, mret, async_ret.
  repeat read_step.
  all: by eexists _, _.
Qed.

(** With a handle, a rejected read of the traffic logs fails the reads
    of the tick. *)
Lemma rejected_read_fails (w : World) (h : Handle) :
  _db w = Some h → rejects w trafficLogsT = true →
  tickReads w = (Throw "query failed", w).
Proof.
  intros Hdb Hrej.
  unfold tickReads, getTrafficLogs, getDb, execute, mbind, async_bind.
  by rewrite Hdb, Hrej.
Qed.

(** ** Who receives the tick *)

Lemma broadcastTick_emitted n cid c trafficLogs activeFlows alerts stats w' :
  tickReads (world n) = (Ok (trafficLogs, activeFlows, alerts, stats), w') →
  clients (manager n) !! cid = Some c →
  emittedTo cid (broadcastTick n).2
  = emitted (socket c)
    ++ [trafficUpdate (now w') trafficLogs activeFlows alerts;
        trafficByType (now w') trafficLogs].
Proof.
  intros Hr Hc.
  rewrite broadcastTick_by_reads, Hr. unfold emittedTo. simpl.
  rewrite !lookup_fmap, Hc. simpl. by rewrite <- app_assoc.
Qed.

(** C2, as the code has it. When the reads of a tick return, every
    connected client, whatever its subscriptions, is sent exactly the
    [traffic-update] and the [traffic-by-type] message (the tick sends
    no allocation message); only [broadcastToSubscribers] looks at the
    subscriptions, sending its event to a client exactly when the
    channel is in the client's set. *)
Theorem tick_reaches_every_client n cid c trafficLogs activeFlows alerts
    stats w' :
  tickReads (world n) = (Ok (trafficLogs, activeFlows, alerts, stats), w') →
  clients (manager n) !! cid = Some c →
  emittedTo cid (broadcastTick n).2
  = emitted (socket c)
    ++ [trafficUpdate (now w') trafficLogs activeFlows alerts;
        trafficByType (now w') trafficLogs]
  ∧ ∀ channel ev data,
      emittedTo cid (broadcastToSubscribers channel ev data n).2
      = if decide (channel ∈ subscriptions c)
        then emitted (socket c)
             ++ [mkMessage ev
                   (DataPayload (now (world n)) (Some channel) data)]
        else emitted (socket c).
Proof.
  intros Hr Hc. split.
  - by eapply broadcastTick_emitted.
  - intros channel ev data. unfold emittedTo. simpl.
    rewrite lookup_fmap, Hc. simpl. by case_decide.
Qed.

Lemma tick_reaches_every_client_witness :
  map event (emittedTo "a" (broadcastTick sampleNode).2)
  = ["connected"; "subscribed"; "traffic-update"; "traffic-by-type"].
Proof.
  pose proof (tick_reaches_every_client sampleNode "a" _ _ _ _ _ _
                eq_refl eq_refl) as [H _].
  rewrite H. vm_compute. reflexivity.
Defined.

(** C2, counterexample. A client that subscribed to [alerts] only is
    sent the [traffic-update] message of the tick. *)
Lemma alerts_only_subscriber_counterexample :
  (elements ∘ subscriptions <$> clients (manager sampleNode) !! "a")
  = Some ["alerts"]
  ∧ ∃ p, mkMessage "traffic-update" p
         ∈ emittedTo "a" (broadcastTick sampleNode).2.
Proof.
  split; [vm_compute; reflexivity|].
  eexists. vm_compute. do 2 apply list_elem_of_further. apply list_elem_of_here.
Qed.

(** ** A tick whose reads fail *)

(** C3, as the code has it. When a read of the tick rejects, the
    callback still returns normally: the error is caught and logged,
    the manager is left as it was, so that no client is sent anything
    (neither the previous statistics nor an alert), and the interval
    stays registered and runs the next tick. *)
Theorem failed_read_tick n e w' t :
  tickReads (world n) = (Throw e, w') →
  updateInterval (manager n) = Some t →
  t ∈ timers (world n) →
  let n' := (intervalFires n).2 in
  (intervalFires n).1 = Ok tt
  ∧ manager n' = manager n
  ∧ console (world n') = console w' ++ ["[WebSocket] Broadcasting error:"]
  ∧ (∀ cid, emittedTo cid n' = emittedTo cid n)
  ∧ intervalFires n' = broadcastTick n'.
Proof.
  intros Hr Ht Hin n'.
  assert (Hf : intervalFires n = broadcastTick n).
  { unfold intervalFires. rewrite Ht. by rewrite decide_True. }
  assert (Hn' : n' = mkNode (manager n)
                   (console_write "[WebSocket] Broadcasting error:" w')).
  { unfold n'. by rewrite Hf, broadcastTick_by_reads, Hr. }
  rewrite Hf, broadcastTick_by_reads, Hr, Hn'. simpl.
  repeat split.
  unfold intervalFires. simpl. rewrite Ht.
  rewrite decide_True; [done|].
  pose proof (tickReads_timers (world n)) as Htm. rewrite Hr in Htm.
  simpl in Htm. by rewrite Htm.
Qed.

Lemma failed_read_tick_witness :
  let failing := mkNode (manager sampleNode) (failingWorld (world sampleNode)) in
  emittedTo "a" (intervalFires failing).2 = emittedTo "a" failing.
Proof.
  intros failing.
  refine (proj1 (proj2 (proj2 (proj2
            (failed_read_tick failing _ _ _ eq_refl eq_refl _)))) "a").
  vm_compute. reflexivity.
Defined.

(** C3, counterexample. After a tick that sent its statistics, a tick
    whose read of the traffic logs rejects sends nothing to the
    connected client: the previous statistics are not repeated and no
    alert is added. *)
Lemma failed_read_tick_counterexample :
  let healthy := (broadcastTick sampleNode).2 in
  let failing := mkNode (manager healthy) (failingWorld (world healthy)) in
  map event (emittedTo "a" healthy)
  = ["connected"; "subscribed"; "traffic-update"; "traffic-by-type"]
  ∧ (tickReads (world failing)).1 = Throw "query failed"
  ∧ emittedTo "a" (broadcastTick failing).2 = emittedTo "a" healthy.
Proof. vm_compute. repeat split. Qed.

End Tick.

(** * The per-type statistics *)

Section TypeStatistics.

Lemma length_ofType (ty : TrafficType) (logs : list TrafficLog.t) :
  length (ofType ty logs) = countOfType ty logs.
Proof.
  unfold ofType. induction logs as [|log rest IH]; [reflexivity|].
  rewrite filter_cons. simpl. destruct (decide _); simpl; by rewrite IH.
Qed.

(** ** Points in the strings of decimals *)

Lemma pointsIn_app (a b : list ascii) :
  pointsIn (a ++ b) = pointsIn a + pointsIn b.
Proof.
  induction a as [|c a IH]; [reflexivity|]. simpl.
  destruct (isChar "." c); simpl; by rewrite IH.
Qed.

Lemma list_ascii_of_string_app (a b : string) :
  list_ascii_of_string (a +:+ b)
  = list_ascii_of_string a ++ list_ascii_of_string b.
Proof. induction a as [|c a IH]; [reflexivity|]. simpl. by rewrite IH. Qed.

Lemma points_app (a b : string) : points (a +:+ b) = points a + points b.
Proof. unfold points. by rewrite list_ascii_of_string_app, pointsIn_app. Qed.

Lemma points_string_of_uint (u : Decimal.uint) :
  points (DecimalString.NilZero.string_of_uint u) = 0
  ∧ points (DecimalString.NilEmpty.string_of_uint u) = 0.
Proof.
  assert (H : points (DecimalString.NilEmpty.string_of_uint u) = 0).
  { induction u; simpl; try reflexivity; exact IHu. }
  split; [|exact H]. destruct u; exact H.
Qed.

Lemma points_decimalDigits (n : Z) : points (decimalDigits n) = 0.
Proof. apply points_string_of_uint. Qed.

Lemma points_zeros (n : nat) : points (zeros n) = 0.
Proof. induction n as [|n IH]; [reflexivity|exact IH]. Qed.

(** The string of a decimal holds exactly one point. *)
Lemma points_decimalString (d : Decimal) : points (decimalString d) = 1.
Proof.
  unfold decimalString, padLeft.
  rewrite !points_app, !points_decimalDigits, points_zeros.
  by destruct (hundredths d <? 0)%Z.
Qed.

Lemma decimalString_truthy (d : Decimal) :
  toBoolean (JsString (decimalString d)) = true.
Proof.
  simpl. apply negb_true_iff, bool_decide_eq_false. intros Hempty.
  pose proof (points_decimalString d) as Hp. by rewrite Hempty in Hp.
Qed.

Lemma throughputOrZero_cases (log : TrafficLog.t) :
  throughputOrZero log
  = match TrafficLog.throughput log with
    | Some d => JsString (decimalString d)
    | None => JsNumber (numberOfZ 0)
    end.
Proof.
  unfold throughputOrZero.
  destruct (TrafficLog.throughput log) as [d|]; [|reflexivity].
  simpl fmap. unfold jsOr, compose. by rewrite decimalString_truthy.
Qed.

(** ** The reducer

    [reduce((sum, log) => sum + (log.throughput || 0), 0)] adds nothing
    up: from the first log that carries a throughput on, the
    accumulator is a string, with one point for each throughput met. *)

Lemma reduce_from_string (logs : list TrafficLog.t) (s : string) :
  ∃ s',
    fold_left (λ sum log, jsPlus sum (throughputOrZero log)) logs (JsString s)
    = JsString s'
    ∧ points s' = points s + length (withThroughput logs).
Proof.
  revert s. induction logs as [|log rest IH]; intros s; simpl.
  { exists s. split; [reflexivity|]. unfold withThroughput. simpl. lia. }
  rewrite throughputOrZero_cases. unfold withThroughput.
  rewrite filter_cons.
  destruct (TrafficLog.throughput log) as [d|] eqn:Hd; simpl.
  - destruct (IH (s +:+ decimalString d)) as (s' & Hs' & Hp).
    exists s'. split; [exact Hs'|].
    rewrite Hp, points_app, points_decimalString.
    unfold withThroughput. lia.
  - destruct (IH (s +:+ "0")) as (s' & Hs' & Hp).
    exists s'. split; [exact Hs'|].
    rewrite Hp, points_app.
    change (points "0") with 0. unfold withThroughput. lia.
Qed.

Lemma reduce_throughputs (logs : list TrafficLog.t) :
  match withThroughput logs with
  | [] =>
      fold_left (λ sum log, jsPlus sum (throughputOrZero log)) logs
                (JsNumber (numberOfZ 0))
      = JsNumber (numberOfZ 0)
  | _ :: _ =>
      ∃ s,
        fold_left (λ sum log, jsPlus sum (throughputOrZero log)) logs
                  (JsNumber (numberOfZ 0))
        = JsString s
        ∧ points s = length (withThroughput logs)
  end.
Proof.
  induction logs as [|log rest IH]; [reflexivity|].
  unfold withThroughput in *. rewrite filter_cons. simpl fold_left.
  rewrite throughputOrZero_cases.
  destruct (TrafficLog.throughput log) as [d|] eqn:Hd; simpl.
  - destruct (reduce_from_string rest ("0" +:+ decimalString d))
      as (s' & Hs' & Hp).
    exists s'. split; [exact Hs'|].
    rewrite Hp, points_app, points_decimalString.
    unfold withThroughput. simpl. lia.
  - exact IH.
Qed.

(** ** [StringToNumber] of a text with two points *)

Lemma pointsIn_dropWhile (text : list ascii) :
  pointsIn (dropWhile isWhiteSpace text) = pointsIn text.
Proof.
  induction text as [|c text IH]; [reflexivity|]. simpl.
  destruct (isWhiteSpace c) eqn:Hw; [|reflexivity].
  rewrite IH. destruct (isChar "." c) eqn:Hc; [|reflexivity].
  apply bool_decide_eq_true in Hc. subst c. discriminate.
Qed.

Lemma pointsIn_reverse (text : list ascii) :
  pointsIn (reverse text) = pointsIn text.
Proof.
  induction text as [|c text IH]; [reflexivity|].
  rewrite reverse_cons, pointsIn_app, IH. simpl.
  destruct (isChar "." c); lia.
Qed.

Lemma pointsIn_trim (text : list ascii) : pointsIn (trim text) = pointsIn text.
Proof.
  unfold trim.
  by rewrite pointsIn_reverse, pointsIn_dropWhile, pointsIn_reverse,
    pointsIn_dropWhile.
Qed.

Lemma digitsFrom_no_point (radix acc : Z) (text : list ascii) (v : Z) :
  (radix ≤ 16)%Z → digitsFrom radix acc text = Some v → pointsIn text = 0.
Proof.
  intros Hr. revert acc. induction text as [|c text IH]; intros acc;
    [reflexivity|].
  simpl. destruct (digitValue radix c) as [d|] eqn:Hd; [|discriminate].
  simpl. intros H. rewrite (IH _ H).
  destruct (isChar "." c) eqn:Hc; [|reflexivity].
  apply bool_decide_eq_true in Hc. subst c.
  unfold digitValue in Hd. simpl in Hd.
  destruct (16 <? radix)%Z eqn:Hlt; [|discriminate].
  apply Z.ltb_lt in Hlt. lia.
Qed.

Lemma digitsValue_no_point (radix : Z) (text : list ascii) (v : Z) :
  (radix ≤ 16)%Z → digitsValue radix text = Some v → pointsIn text = 0.
Proof.
  intros Hr. destruct text as [|c text]; [reflexivity|].
  apply digitsFrom_no_point, Hr.
Qed.

Lemma pointsIn_splitSign (text : list ascii) :
  pointsIn (splitSign text).2 = pointsIn text.
Proof.
  destruct text as [|c text]; [reflexivity|]. simpl.
  destruct (isChar "-" c) eqn:Hm; simpl.
  { apply bool_decide_eq_true in Hm. by subst c. }
  destruct (isChar "+" c) eqn:Hp; simpl; [|reflexivity].
  apply bool_decide_eq_true in Hp. by subst c.
Qed.

Lemma signedInteger_no_point (text : list ascii) (v : Z) :
  signedInteger text = Some v → pointsIn text = 0.
Proof.
  unfold signedInteger. rewrite <- (pointsIn_splitSign text).
  destruct (splitSign text) as [negative digits]. simpl.
  destruct (digitsValue 10 digits) as [n|] eqn:Hn; [|discriminate].
  intros _. by apply (digitsValue_no_point 10 _ n).
Qed.

(** Splitting at the exponent indicator keeps the points; the text
    before the first point has none. *)
Lemma pointsIn_splitAt_exponent (text : list ascii) :
  pointsIn text
  = pointsIn (splitAt isExponentIndicator text).1
    + pointsIn (default [] (splitAt isExponentIndicator text).2).
Proof.
  induction text as [|c text IH]; [reflexivity|]. simpl.
  destruct (isExponentIndicator c) eqn:He; simpl.
  - destruct (isChar "." c) eqn:Hc; [|reflexivity].
    apply bool_decide_eq_true in Hc. subst c. discriminate.
  - destruct (splitAt isExponentIndicator text) as [before after].
    simpl in *. destruct (isChar "." c); lia.
Qed.

Lemma pointsIn_splitAt_point (text : list ascii) :
  pointsIn (splitAt (isChar ".") text).1 = 0
  ∧ pointsIn text
    ≤ 1 + pointsIn (default [] (splitAt (isChar ".") text).2).
Proof.
  induction text as [|c text IH]; [simpl; lia|]. simpl.
  destruct (isChar "." c) eqn:Hc; simpl; [lia|].
  destruct (splitAt (isChar ".") text) as [before after].
  simpl in *. rewrite Hc. lia.
Qed.

Lemma unsignedDecimal_points (text : list ascii) (v : Q) :
  unsignedDecimal text = Some v → pointsIn text ≤ 1.
Proof.
  unfold unsignedDecimal.
  pose proof (pointsIn_splitAt_exponent text) as Hsplit.
  destruct (splitAt isExponentIndicator text) as [mantissa exponentPart].
  simpl in Hsplit.
  assert (He : ∀ e, match exponentPart with
                    | Some part => signedInteger part
                    | None => Some 0%Z
                    end = Some e →
                    pointsIn (default [] exponentPart) = 0).
  { intros e. destruct exponentPart as [part|]; [|reflexivity].
    apply signedInteger_no_point. }
  destruct (match exponentPart with
            | Some part => signedInteger part
            | None => Some 0%Z
            end) as [e|]; [|discriminate].
  rewrite (He e eq_refl) in Hsplit. simpl.
  pose proof (pointsIn_splitAt_point mantissa) as [_ Hm].
  destruct (splitAt (isChar ".") mantissa) as [whole fraction].
  simpl in Hm.
  destruct (digitsFrom 10 0 whole) as [i|]; [|discriminate]. simpl.
  destruct (digitsFrom 10 0 (default [] fraction)) as [j|] eqn:Hj;
    [|discriminate].
  intros _.
  assert (Hf : pointsIn (default [] fraction) = 0).
  { apply (digitsFrom_no_point 10 0 _ j); [lia|exact Hj]. }
  lia.
Qed.

Lemma strDecimalLiteral_two_points (text : list ascii) :
  2 ≤ pointsIn text → strDecimalLiteral text = NaN.
Proof.
  intros Hp. unfold strDecimalLiteral.
  rewrite <- (pointsIn_splitSign text) in Hp.
  destruct (splitSign text) as [negative unsigned]. simpl in Hp.
  rewrite bool_decide_eq_false_2.
  2:{ intros ->. vm_compute in Hp. lia. }
  destruct (unsignedDecimal unsigned) as [v|] eqn:Hv.
  - apply unsignedDecimal_points in Hv. lia.
  - simpl. by destruct negative.
Qed.

Lemma radixPrefix_digits (text digits : list ascii) (radix : Z) :
  radixPrefix text = Some (radix, digits) →
  (radix ≤ 16)%Z ∧ pointsIn text = pointsIn digits.
Proof.
  destruct text as [|c0 [|c1 rest]]; [discriminate..|]. simpl.
  destruct (isChar "0" c0) eqn:H0; [|discriminate]. simpl.
  apply bool_decide_eq_true in H0. subst c0.
  assert (Hc1 : ∀ a, a ≠ "."%char → isChar a c1 = true →
                     isChar "." c1 = false).
  { intros a Ha Hc. apply bool_decide_eq_true in Hc. subst c1.
    by apply bool_decide_eq_false. }
  assert (Hor : ∀ a b, a ≠ "."%char → b ≠ "."%char →
                       isChar a c1 || isChar b c1 = true →
                       isChar "." c1 = false).
  { intros a b Ha Hb Hc. apply orb_true_iff in Hc as [Hc|Hc];
      eauto. }
  destruct (isChar "x" c1 || isChar "X" c1) eqn:Hx.
  { intros [= <- <-]. by rewrite (Hor "x" "X")%char. }
  destruct (isChar "o" c1 || isChar "O" c1) eqn:Ho.
  { intros [= <- <-]. by rewrite (Hor "o" "O")%char. }
  destruct (isChar "b" c1 || isChar "B" c1) eqn:Hb; [|discriminate].
  intros [= <- <-]. by rewrite (Hor "b" "B")%char.
Qed.

(** A text with two points is no numeric literal. *)
Lemma stringToNumber_two_points (s : string) :
  2 ≤ points s → stringToNumber s = NaN.
Proof.
  unfold points, stringToNumber. rewrite <- pointsIn_trim.
  destruct (trim (list_ascii_of_string s)) as [|c text] eqn:Ht;
    [simpl; lia|].
  intros Hp.
  destruct (radixPrefix (c :: text)) as [[radix digits]|] eqn:Hr.
  - apply radixPrefix_digits in Hr as [Hr Heq].
    destruct (digitsValue radix digits) as [v|] eqn:Hv; [|reflexivity].
    apply digitsValue_no_point in Hv; [lia|exact Hr].
  - by apply strDecimalLiteral_two_points.
Qed.

(** The entry of a traffic type whose logs carry two throughputs or
    more. *)
Lemma typeStats_two_throughputs (traffic : list TrafficLog.t) :
  2 ≤ length (withThroughput traffic) →
  avgThroughput (typeStats traffic) = JsString "NaN".
Proof.
  intros Hk. unfold typeStats. simpl.
  pose proof (reduce_throughputs traffic) as Hred.
  assert (Hlen : length (withThroughput traffic) ≤ length traffic).
  { unfold withThroughput. apply length_filter. }
  destruct (withThroughput traffic) as [|x l] eqn:Hw; [simpl in Hk; lia|].
  destruct Hred as (s & -> & Hp).
  destruct (0 <? length traffic)%nat eqn:Hpos.
  2:{ apply Nat.ltb_ge in Hpos. lia. }
  unfold jsDivide. simpl toNumber at 1.
  rewrite stringToNumber_two_points by lia. reflexivity.
Qed.

(** C7, what the code sends. In the [traffic-by-type] message of a
    tick, the entry of each traffic type holds the number of fetched
    logs of that type, and the number 0 as its average when there is
    none; but the average of a type of which two or more fetched logs
    carry a throughput is the string ["NaN"], not their mean: the
    decimals arrive as strings, and the reducer concatenates them. *)
Theorem traffic_by_type_average (n : Node) (cid : string)
    (c : ClientConnection) trafficLogs activeFlows alerts stats w' :
  tickReads (world n) = (Ok (trafficLogs, activeFlows, alerts, stats), w') →
  clients (manager n) !! cid = Some c →
  last (emittedTo cid (broadcastTick n).2)
  = Some (mkMessage "traffic-by-type"
            (TrafficByTypePayload (now w')
               (typeStats (ofType video trafficLogs))
               (typeStats (ofType voice trafficLogs))
               (typeStats (ofType file trafficLogs))
               (typeStats (ofType background trafficLogs))))
  ∧ ∀ ty,
      count (typeStats (ofType ty trafficLogs)) = countOfType ty trafficLogs
      ∧ (countOfType ty trafficLogs = 0 →
         avgThroughput (typeStats (ofType ty trafficLogs))
         = JsNumber (numberOfZ 0))
      ∧ (2 ≤ length (withThroughput (ofType ty trafficLogs)) →
         avgThroughput (typeStats (ofType ty trafficLogs)) = JsString "NaN").
Proof.
  intros Hr Hc. split.
  { rewrite (broadcastTick_emitted n cid c _ _ _ _ _ Hr Hc).
    by rewrite cons_middle, app_assoc, last_snoc. }
  intros ty. split; [apply length_ofType|]. split.
  - intros Hnone. unfold typeStats. simpl.
    by rewrite length_ofType, Hnone.
  - apply typeStats_two_throughputs.
Qed.

(** C7, the failing input. With two video logs of throughput 1 and 2
    fetched, the mean is 3/2 and the message carries ["NaN"]. *)
Lemma traffic_by_type_average_witness :
  (getTrafficLogs 100 0 (world pairNode)).1
  = Ok [sampleLog 2 video (Some 2%Q); sampleLog 1 video (Some 1%Q)]
  ∧ (meanThroughput video (trafficLogs pairDatabase) == 3 # 2)%Q
  ∧ last (emittedTo "a" (broadcastTick pairNode).2)
    = Some (mkMessage "traffic-by-type"
              (TrafficByTypePayload 1000
                 (mkTypeStats 2 (JsString "NaN"))
                 noTraffic noTraffic noTraffic)).
Proof.
  split; [vm_compute; reflexivity|].
  split; [vm_compute; reflexivity|].
  pose proof (traffic_by_type_average pairNode "a" _ _ _ _ _ _
                eq_refl eq_refl) as [H _].
  rewrite H. vm_compute. reflexivity.
Defined.

(** One throughput among the logs of a type is read back as a number:
    2.01 and a missing one average to ["1.00"] in doubles (the exact
    mean, 1.005, would print as 1.01), and 1 with two missing ones to
    ["0.33"]. *)
Example typeStats_single_throughput :
  typeStats [sampleLog 2 video (Some (201 # 100)%Q); sampleLog 1 video None]
  = mkTypeStats 2 (JsString "1.00")
  ∧ typeStats [sampleLog 3 video None; sampleLog 2 video (Some 1%Q);
               sampleLog 1 video None]
    = mkTypeStats 3 (JsString "0.33")
  ∧ typeStats [sampleLog 2 video None; sampleLog 1 video None]
    = mkTypeStats 2 (JsString "0.00").
Proof. vm_compute. repeat split. Qed.

End TypeStatistics.

(** * The allocation engine *)

Module EngineFacts.

Import Engine.

Local Open Scope Q_scope.

Implicit Types (es : list Entry) (rules : list QosRule.t) (remaining : Q).

(** The first scenario of the specification: budget 100 gives video
    48, voice 2.4, file 25 and background 20, every minimum met. *)
Example scenario_allocations :
  map (λ r, (AllocationResult.trafficClass r,
             Qred (AllocationResult.allocatedMbps r),
             AllocationResult.satisfiedMin r)) scenarioResults
  = [(video, 48, true); (voice, 12 # 5, true); (file, 25, true);
     (background, 20, true)].
Proof. vm_compute. reflexivity. Qed.

(** The second scenario: with a budget of 3 video is given the 3 and
    misses its minimum of 5, and every other class gets 0 with
    [satisfiedMin = false]. *)
Example scarce_allocations :
  ∃ results,
    allocate scenarioDemand defaultRules 3 = inr results
    ∧ map (λ r, (AllocationResult.trafficClass r,
                 Qred (AllocationResult.allocatedMbps r),
                 AllocationResult.satisfiedMin r)) results
      = [(video, 3, false); (voice, 0, false); (file, 0, false);
         (background, 0, false)].
Proof. eexists. split; vm_compute; reflexivity. Qed.

Example negative_budget_fails :
  allocate scenarioDemand defaultRules (-(1)) = inl NegativeBudget.
Proof. reflexivity. Qed.

(** ** Budget conservation *)

Lemma growth_le_cap (target : Q) (e : Entry) (cap : Q) :
  growth target e cap <= cap.
Proof. unfold growth. apply Q.le_min_r. Qed.

Lemma guaranteeMinimums_conserves perClassDemand rules :
  ∀ remaining es after,
    0 <= remaining →
    guaranteeMinimums perClassDemand remaining rules = (es, after) →
    0 <= after ∧ sumEntries es + after == remaining.
Proof.
  induction rules as [|r rest IH]; intros remaining es after Hrem; simpl.
  - intros [= <- <-]. simpl. split; [done|lra].
  - set (reserved := Qmin (QosRule.minBandwidthMbps r) remaining).
    assert (Hres : reserved <= remaining) by apply Q.le_min_r.
    destruct (guaranteeMinimums perClassDemand (remaining - reserved) rest)
      as [es' after'] eqn:Hrest.
    intros [= <- <-].
    assert (Hleft : 0 <= remaining - reserved) by lra.
    destruct (IH _ _ _ Hleft Hrest) as [Hafter Hsum].
    split; [done|]. simpl. lra.
Qed.

Lemma growPass_conserves (applies : Entry → bool) (target : Entry → Q) es :
  ∀ remaining es' after,
    0 <= remaining →
    growPass applies target remaining es = (es', after) →
    0 <= after ∧ sumEntries es' + after == sumEntries es + remaining.
Proof.
  induction es as [|e rest IH]; intros remaining es' after Hrem; simpl.
  - intros [= <- <-]. simpl. split; [done|lra].
  - destruct (applies e).
    + pose proof (growth_le_cap (target e) e remaining) as Hg.
      destruct (growPass applies target
                  (remaining - growth (target e) e remaining) rest)
        as [es1 after1] eqn:Hrest.
      intros [= <- <-].
      assert (Hleft : 0 <= remaining - growth (target e) e remaining) by lra.
      destruct (IH _ _ _ Hleft Hrest) as [Hafter Hsum].
      split; [done|]. simpl. lra.
    + destruct (growPass applies target remaining rest)
        as [es1 after1] eqn:Hrest.
      intros [= <- <-].
      destruct (IH _ _ _ Hrem Hrest) as [Hafter Hsum].
      split; [done|]. simpl. lra.
Qed.

Lemma shares_bounded (share : Q) es :
  sumEntries
    (map (λ e, if hasPriority 0 e then
                 setAllocated
                   (allocated e
                    + growth (QosRule.maxBandwidthMbps (rule e)) e share) e
               else e) es)
  <= sumEntries es
     + inject_Z (Z.of_nat (length (List.filter (hasPriority 0) es))) * share.
Proof.
  induction es as [|e rest IH]; simpl.
  { change (inject_Z (Z.of_nat 0)) with 0. lra. }
  destruct (hasPriority 0 e); simpl.
  - pose proof (growth_le_cap (QosRule.maxBandwidthMbps (rule e)) e share).
    rewrite Nat2Z.inj_succ, <- Z.add_1_r, inject_Z_plus.
    change (inject_Z 1) with 1.
    set (k := inject_Z (Z.of_nat (length (List.filter (hasPriority 0) rest))))
      in *.
    lra.
  - lra.
Qed.

Lemma shareLeftover_bounded remaining es :
  0 <= remaining →
  sumEntries (shareLeftover remaining es) <= sumEntries es + remaining.
Proof.
  intros Hrem. unfold shareLeftover.
  set (n := length (List.filter (hasPriority 0) es)).
  pose proof (shares_bounded (remaining / inject_Z (Z.of_nat n)) es) as H.
  fold n in H.
  assert (Hk : inject_Z (Z.of_nat n) * (remaining / inject_Z (Z.of_nat n))
               <= remaining).
  { destruct n as [|k].
    - change (inject_Z (Z.of_nat 0)) with 0. by rewrite Qmult_0_l.
    - rewrite Qmult_div_r; [apply Qle_refl|].
      change 0 with (inject_Z 0). rewrite inject_Z_injective. lia. }
  set (share := remaining / inject_Z (Z.of_nat n)) in *.
  set (k := inject_Z (Z.of_nat n)) in *.
  lra.
Qed.

Lemma sumAllocated_app (xs ys : list AllocationResult.t) :
  sumAllocated (xs ++ ys) == sumAllocated xs + sumAllocated ys.
Proof.
  induction xs as [|x xs IH]; simpl; [lra|].
  unfold sumAllocated in *. simpl. rewrite IH. lra.
Qed.

Lemma sumAllocated_results es :
  sumAllocated (map toResult es) == sumEntries es.
Proof.
  induction es as [|e es IH]; simpl; [reflexivity|].
  unfold sumAllocated in *. simpl. rewrite IH. reflexivity.
Qed.

Lemma sumAllocated_unmatched perClassDemand rules :
  sumAllocated (unmatched perClassDemand rules) == 0.
Proof.
  unfold unmatched. induction classes as [|c cs IH]; simpl; [reflexivity|].
  destruct (perClassDemand c) as [d|]; [|apply IH].
  destruct (bool_decide _); [apply IH|].
  simpl. unfold sumAllocated in *. simpl. rewrite IH. lra.
Qed.

(** The budget is conserved for any rules and demands. *)
Lemma allocate_within_budget perClassDemand rules (totalBudget : Q) :
  0 <= totalBudget →
  ∃ results,
    allocate perClassDemand rules totalBudget = inr results
    ∧ sumAllocated results <= totalBudget.
Proof.
  intros Hb. unfold allocate.
  destruct (Qlt_le_dec totalBudget 0) as [Hneg|_]; [lra|].
  destruct (guaranteeMinimums perClassDemand totalBudget (sortRules rules))
    as [es1 rem1] eqn:H1.
  destruct (growPass (hasPriority 3) headroomTarget rem1 es1)
    as [es2 rem2] eqn:H2.
  destruct (growPass (hasPriority 1) demandTarget rem2 es2)
    as [es3 rem3] eqn:H3.
  eexists. split; [reflexivity|].
  destruct (guaranteeMinimums_conserves _ _ _ _ _ Hb H1) as [Hr1 Hs1].
  destruct (growPass_conserves _ _ _ _ _ _ Hr1 H2) as [Hr2 Hs2].
  destruct (growPass_conserves _ _ _ _ _ _ Hr2 H3) as [Hr3 Hs3].
  pose proof (shareLeftover_bounded rem3 es3 Hr3) as Hs4.
  rewrite sumAllocated_app, sumAllocated_results, sumAllocated_unmatched.
  lra.
Qed.

(** C1. For rules with [minBandwidthMbps ≤ maxBandwidthMbps], demands
    that are not negative and a budget that is not negative, [allocate]
    returns a list of results whose allocations sum to at most the
    budget. *)
Theorem allocate_budget_conservation perClassDemand rules (totalBudget : Q) :
  Forall (λ r, QosRule.minBandwidthMbps r <= QosRule.maxBandwidthMbps r)
         rules →
  (∀ c d, perClassDemand c = Some d → 0 <= d) →
  0 <= totalBudget →
  ∃ results,
    allocate perClassDemand rules totalBudget = inr results
    ∧ sumAllocated results <= totalBudget.
Proof. intros _ _. apply allocate_within_budget. Qed.

Lemma allocate_budget_conservation_witness :
  ∃ results,
    allocate scenarioDemand defaultRules 100 = inr results
    ∧ sumAllocated results <= 100.
Proof.
  apply allocate_budget_conservation.
  - repeat constructor; simpl; lra.
  - intros c d H. destruct c; simpl in H; inversion H; lra.
  - lra.
Defined.

(** ** Minimums and priorities *)

Global Instance ruleBefore_total : Total ruleBefore.
Proof. intros a b. unfold ruleBefore. lia. Qed.

Global Instance ruleBefore_trans : Transitive ruleBefore.
Proof. intros a b c. unfold ruleBefore. lia. Qed.















End EngineFacts.

(** * db.ts with a handle: what the helpers return *)

Section DbQueries.

Implicit Types (w : World) (h : Handle).

(** ** The lazy handle *)

Lemma getDb_with_handle w h w1 :
  getDb w = (Ok (Some h), w1) →
  _db w1 = Some h ∧ database w1 = database w ∧ rejects w1 = rejects w.
Proof.
  unfold getDb.
  destruct (_db w) as [h0|] eqn:Hdb.
  { intros [= <- <-]. done. }
  destruct (truthy (DATABASE_URL w)) as [url|]; [|discriminate].
  destruct (drizzle w url) as [h0|e]; [|discriminate].
  intros [= <- <-]. done.
Qed.

(** X1. [getDb] connects once: a handle it has returned is kept in [_db]
    and returned by every later call with nothing else changing; a
    failed attempt leaves [_db] null, so that the next call tries
    again. *)
Theorem getDb_connects_once w w1 (o : option Handle) :
  getDb w = (Ok o, w1) →
  match o with
  | Some h => getDb w1 = (Ok (Some h), w1)
  | None => _db w1 = None
  end.
Proof.
  destruct o as [h|].
  - intros H. apply getDb_with_handle in H as (Hdb & _).
    unfold getDb. by rewrite Hdb.
  - unfold getDb.
    destruct (_db w) as [h0|] eqn:Hdb; [discriminate|].
    destruct (truthy (DATABASE_URL w)) as [url|].
    + destruct (drizzle w url) as [h0|e]; [discriminate|].
      by intros [= <-].
    + by intros [= <-].
Qed.

Lemma getDb_connects_once_witness :
  let connecting :=
    mkWorld None (Some "mysql://db") (λ url, Ok (mkHandle url))
            sampleDatabase (λ _, false) 1000 ∅ [] in
  getDb (getDb connecting).2 = (Ok (Some (mkHandle "mysql://db")), sampleWorld).
Proof.
  intros connecting.
  exact (getDb_connects_once connecting sampleWorld
           (Some (mkHandle "mysql://db")) eq_refl).
Defined.

Lemma helper_with_handle {A} (k : option Handle → Async World A) w h w1 :
  getDb w = (Ok (Some h), w1) → (getDb ≫= k) w = k (Some h) w1.
Proof. intros H. unfold mbind, async_bind. by rewrite H. Qed.

Lemma execute_returns {A} (t : Table) (read : Database → A) w :
  rejects w t = false → execute t read w = (Ok (read (database w)), w).
Proof. intros H. unfold execute. by rewrite H. Qed.

(** ** Sorted pages *)

Lemma StronglySorted_take {A} (R : relation A) (n : nat) (l : list A) :
  StronglySorted R l → StronglySorted R (take n l).
Proof.
  intros H. rewrite <- (take_drop n l) in H.
  by apply StronglySorted_app_1_l in H.
Qed.

Lemma StronglySorted_drop {A} (R : relation A) (n : nat) (l : list A) :
  StronglySorted R l → StronglySorted R (drop n l).
Proof.
  intros H. rewrite <- (take_drop n l) in H.
  by apply StronglySorted_app_1_r in H.
Qed.

Lemma getTrafficLogs_rows w h w1 (limit offset : nat) :
  getDb w = (Ok (Some h), w1) →
  rejects w trafficLogsT = false →
  getTrafficLogs limit offset w
  = (Ok (limitOffset limit offset
           (orderByDesc TrafficLog.timestamp (trafficLogs (database w)))),
     w1).
Proof.
  intros Hg Hok. unfold getTrafficLogs.
  rewrite (helper_with_handle _ _ _ _ Hg).
  destruct (getDb_with_handle _ _ _ Hg) as (_ & Hd & Hr).
  rewrite execute_returns; [by rewrite Hd|by rewrite Hr].
Qed.

(** X2. A page of traffic logs. With a handle and the query accepted,
    [getTrafficLogs(limit, offset)] returns [min(limit, n - offset)]
    of the [n] stored logs, newest first, each of them a stored log. *)
Theorem getTrafficLogs_page w h w1 (limit offset : nat) :
  getDb w = (Ok (Some h), w1) →
  rejects w trafficLogsT = false →
  ∃ rows,
    getTrafficLogs limit offset w = (Ok rows, w1)
    ∧ length rows = limit `min` (length (trafficLogs (database w)) - offset)
    ∧ StronglySorted (descBy TrafficLog.timestamp) rows
    ∧ rows ⊆ trafficLogs (database w).
Proof.
  intros Hg Hok. eexists.
  split; [exact (getTrafficLogs_rows _ _ _ _ _ Hg Hok)|].
  unfold limitOffset. split; [|split].
  - rewrite length_take, length_drop.
    by rewrite (Permutation_length (orderByDesc_perm _ _)).
  - apply StronglySorted_take, StronglySorted_drop, orderByDesc_sorted.
  - intros r Hr. apply subseteq_take, subseteq_drop in Hr.
    by rewrite orderByDesc_perm in Hr.
Qed.

Lemma getTrafficLogs_page_witness :
  ∃ rows,
    getTrafficLogs 2 1 sampleWorld = (Ok rows, sampleWorld)
    ∧ length rows = 2.
Proof.
  destruct (getTrafficLogs_page sampleWorld _ _ 2 1 eq_refl eq_refl)
    as (rows & H1 & H2 & _).
  exists rows. split; [exact H1 | exact H2].
Defined.

Lemma one_row_per_key {A} (key : A → Z) (rows : list A) (x y : A) :
  NoDup (map key rows) → x ∈ rows → y ∈ rows → key x = key y → x = y.
Proof.
  induction rows as [|z rows IH]; simpl; intros Hnd Hx Hy Hk.
  - by apply elem_of_nil in Hx.
  - apply NoDup_cons in Hnd as [Hz Hnd].
    apply elem_of_cons in Hx as [->|Hx]; apply elem_of_cons in Hy as [->|Hy].
    + done.
    + exfalso. apply Hz. rewrite Hk. by apply list_elem_of_fmap_2.
    + exfalso. apply Hz. rewrite <- Hk. by apply list_elem_of_fmap_2.
    + by apply IH.
Qed.

(** With distinct keys, [ORDER BY key DESC] leaves the server no
    choice: every descending arrangement of the rows is the same
    list. *)
Lemma orderByDesc_only_order {A} (key : A → Z) (rows served : list A) :
  NoDup (map key rows) →
  served ≡ₚ rows →
  StronglySorted (descBy key) served →
  served = orderByDesc key rows.
Proof.
  intros Hnd Hperm Hsorted.
  apply (StronglySorted_unique_strong (descBy key)).
  - intros x y Hx Hy Hxy Hyx. unfold descBy in *.
    apply (one_row_per_key key rows); [done| | |lia].
    + by rewrite <- Hperm.
    + by rewrite orderByDesc_perm in Hy.
  - done.
  - apply orderByDesc_sorted.
  - by rewrite orderByDesc_perm.
Qed.

(** X3. Paging. On a connected process whose logs have distinct
    timestamps, the page at [offset] followed by the page at
    [offset + limit] is the page of twice the size at [offset]:
    consecutive pages neither overlap nor skip a log.  The pages do not
    depend on how the server arranges the rows: each is the slice of
    any arrangement of the logs that descends by timestamp. *)
Theorem getTrafficLogs_consecutive_pages w h (limit offset : nat) :
  _db w = Some h →
  rejects w trafficLogsT = false →
  NoDup (map TrafficLog.timestamp (trafficLogs (database w))) →
  ∃ page1 page2,
    getTrafficLogs limit offset w = (Ok page1, w)
    ∧ getTrafficLogs limit (offset + limit) w = (Ok page2, w)
    ∧ getTrafficLogs (limit + limit) offset w = (Ok (page1 ++ page2), w)
    ∧ ∀ served,
        served ≡ₚ trafficLogs (database w) →
        StronglySorted (descBy TrafficLog.timestamp) served →
        page1 = take limit (drop offset served)
        ∧ page2 = take limit (drop (offset + limit) served).
Proof.
  intros Hdb Hok Hnd.
  assert (Hg : getDb w = (Ok (Some h), w)).
  { unfold getDb. by rewrite Hdb. }
  eexists _, _.
  rewrite !(getTrafficLogs_rows _ _ _ _ _ Hg Hok).
  split; [reflexivity|]. split; [reflexivity|]. split.
  - unfold limitOffset. by rewrite <- drop_drop, take_take_drop.
  - intros served Hperm Hsorted.
    by rewrite (orderByDesc_only_order _ _ _ Hnd Hperm Hsorted).
Qed.

Lemma getTrafficLogs_consecutive_pages_witness :
  ∃ page1 page2,
    getTrafficLogs 1 0 busyWorld = (Ok page1, busyWorld)
    ∧ getTrafficLogs 1 1 busyWorld = (Ok page2, busyWorld)
    ∧ getTrafficLogs 2 0 busyWorld = (Ok (page1 ++ page2), busyWorld)
    ∧ map TrafficLog.id (page1 ++ page2) = [5; 4]%Z.
Proof.
  destruct (getTrafficLogs_consecutive_pages busyWorld _ 1 0
              eq_refl eq_refl)
    as (page1 & page2 & H1 & H2 & H3 & _).
  { vm_compute. repeat constructor; rewrite ?elem_of_cons, ?elem_of_nil;
      intuition discriminate. }
  exists page1, page2. repeat split; [done..|].
  assert (Hp : match getTrafficLogs 2 0 busyWorld with
               | (Ok rows, _) => map TrafficLog.id rows
               | _ => []
               end = [5; 4]%Z) by (vm_compute; reflexivity).
  change (getTrafficLogs 2 0 busyWorld)
    with (getTrafficLogs (1 + 1) 0 busyWorld) in Hp.
  rewrite H3 in Hp. exact Hp.
Defined.

(** ** Filters *)

Lemma orderByDesc_nil {A} (key : A → Z) : orderByDesc key [] = [].
Proof. reflexivity. Qed.

(** X4. Traffic of one type. With a handle and the query accepted,
    [getTrafficByType] returns at most 100 stored logs, newest first,
    each of the requested type; a string that names no traffic type
    gives the empty list. *)
Theorem getTrafficByType_filters w h w1 (trafficType : string) :
  getDb w = (Ok (Some h), w1) →
  rejects w trafficLogsT = false →
  ∃ rows,
    getTrafficByType trafficType w = (Ok rows, w1)
    ∧ length rows ≤ 100
    ∧ StronglySorted (descBy TrafficLog.timestamp) rows
    ∧ rows ⊆ trafficLogs (database w)
    ∧ Forall (λ r, trafficTypeName (TrafficLog.trafficType r) = trafficType)
             rows
    ∧ ((∀ ty, trafficTypeName ty ≠ trafficType) → rows = []).
Proof.
  intros Hg Hok. unfold getTrafficByType.
  rewrite (helper_with_handle _ _ _ _ Hg).
  destruct (getDb_with_handle _ _ _ Hg) as (_ & Hd & Hr).
  rewrite execute_returns; [|by rewrite Hr]. rewrite Hd.
  eexists. split; [reflexivity|].
  set (P := λ r, trafficTypeName (TrafficLog.trafficType r) = trafficType).
  split; [|split; [|split; [|split]]].
  - rewrite length_take. lia.
  - apply StronglySorted_take, orderByDesc_sorted.
  - intros r Hr'. apply subseteq_take in Hr'.
    rewrite orderByDesc_perm in Hr'.
    by apply list_elem_of_filter in Hr' as [_ ?].
  - apply Forall_take. apply Forall_forall. intros r Hr'.
    rewrite orderByDesc_perm in Hr'.
    by apply list_elem_of_filter in Hr' as [? _].
  - intros Hno.
    assert (Hnil : filter P (trafficLogs (database w)) = []).
    { induction (trafficLogs (database w)) as [|r l IH]; [done|].
      rewrite filter_cons. destruct (decide (P r)) as [Hp|_]; [|done].
      by destruct (Hno (TrafficLog.trafficType r)). }
    by rewrite Hnil.
Qed.

Lemma getTrafficByType_filters_witness :
  ∃ rows,
    getTrafficByType "video" sampleWorld = (Ok rows, sampleWorld)
    ∧ Forall (λ r, trafficTypeName (TrafficLog.trafficType r) = "video") rows.
Proof.
  destruct (getTrafficByType_filters sampleWorld _ _ "video" eq_refl eq_refl)
    as (rows & H1 & _ & _ & _ & H2 & _).
  exists rows. split; [exact H1 | exact H2].
Defined.

(** X5. Unresolved alerts. With a handle and the query accepted,
    [getSystemAlerts(true, limit)] returns at most [limit] stored
    alerts, newest first, none of them resolved; when the limit is not
    reached, every unresolved alert is among them. *)
Theorem getSystemAlerts_unresolved w h w1 (limit : nat) :
  getDb w = (Ok (Some h), w1) →
  rejects w systemAlertsT = false →
  ∃ rows,
    getSystemAlerts true limit w = (Ok rows, w1)
    ∧ length rows ≤ limit
    ∧ StronglySorted (descBy SystemAlert.createdAt) rows
    ∧ Forall (λ r, r ∈ systemAlerts (database w)
                   ∧ SystemAlert.resolved r = false) rows
    ∧ (length rows < limit →
       ∀ r, r ∈ systemAlerts (database w) → SystemAlert.resolved r = false →
            r ∈ rows).
Proof.
  intros Hg Hok. unfold getSystemAlerts.
  rewrite (helper_with_handle _ _ _ _ Hg).
  destruct (getDb_with_handle _ _ _ Hg) as (_ & Hd & Hr).
  rewrite execute_returns; [|by rewrite Hr]. rewrite Hd.
  eexists. split; [reflexivity|].
  set (P := λ r, SystemAlert.resolved r = false).
  set (sorted := orderByDesc SystemAlert.createdAt
                   (filter P (systemAlerts (database w)))).
  split; [|split; [|split]].
  - rewrite length_take. lia.
  - apply StronglySorted_take, orderByDesc_sorted.
  - apply Forall_take. apply Forall_forall. intros r Hr'.
    unfold sorted in Hr'. rewrite orderByDesc_perm in Hr'.
    by apply list_elem_of_filter in Hr' as [? ?].
  - intros Hlt r Hin Hres.
    rewrite length_take in Hlt.
    rewrite take_ge by lia.
    unfold sorted. rewrite orderByDesc_perm.
    by apply list_elem_of_filter.
Qed.

Lemma getSystemAlerts_unresolved_witness :
  ∃ rows,
    getSystemAlerts true 10 busyWorld = (Ok rows, busyWorld)
    ∧ Forall (λ r, r ∈ systemAlerts busyDatabase
                   ∧ SystemAlert.resolved r = false) rows.
Proof.
  destruct (getSystemAlerts_unresolved busyWorld _ _ 10 eq_refl eq_refl)
    as (rows & H1 & _ & _ & H2 & _).
  exists rows. split; [exact H1 | exact H2].
Defined.

(** X6. The type filter of the predictions. With a handle and the query
    accepted, [getPredictions] returns stored predictions, each at most
    as often as it is stored, newest first.  Without a type, or with
    the empty string, which is falsy, nothing is filtered: the call
    returns [min(limit, n)] of the [n] predictions.  A non-empty type
    string keeps the predictions of that type only, and returns
    [min(limit, k)] of the [k] predictions of that type. *)
Theorem getPredictions_filter w h w1 (trafficType : option string)
    (limit : nat) :
  getDb w = (Ok (Some h), w1) →
  rejects w predictionsT = false →
  ∃ rows,
    getPredictions trafficType limit w = (Ok rows, w1)
    ∧ StronglySorted (descBy Prediction.timestamp) rows
    ∧ rows ⊆+ predictions (database w)
    ∧ (trafficType = None ∨ trafficType = Some "" →
       length rows = limit `min` length (predictions (database w)))
    ∧ ∀ ty, trafficType = Some ty → ty ≠ "" →
        Forall (λ r, trafficTypeName (Prediction.trafficType r) = ty) rows
        ∧ length rows
          = limit `min`
              length (filter (λ r, trafficTypeName (Prediction.trafficType r)
                                   = ty)
                             (predictions (database w))).
Proof.
  intros Hg Hok. unfold getPredictions.
  rewrite (helper_with_handle _ _ _ _ Hg).
  destruct (getDb_with_handle _ _ _ Hg) as (_ & Hd & Hr).
  assert (Hall : ∃ rows,
            execute predictionsT
              (λ d, take limit
                      (orderByDesc Prediction.timestamp (predictions d))) w1
            = (Ok rows, w1)
            ∧ StronglySorted (descBy Prediction.timestamp) rows
            ∧ rows ⊆+ predictions (database w)
            ∧ length rows = limit `min` length (predictions (database w))).
  { rewrite execute_returns; [|by rewrite Hr]. rewrite Hd.
    eexists. split; [reflexivity|]. split; [|split].
    - apply StronglySorted_take, orderByDesc_sorted.
    - etrans; [apply sublist_submseteq, sublist_take|].
      apply Permutation_submseteq, orderByDesc_perm.
    - rewrite length_take.
      by rewrite (Permutation_length (orderByDesc_perm _ _)). }
  destruct trafficType as [[|a s]|]; simpl.
  - destruct Hall as (rows & H1 & H2 & H3 & H4).
    exists rows. split; [done|]. split; [done|]. split; [done|].
    split; [done|]. by intros ty [= <-] Hne.
  - rewrite execute_returns; [|by rewrite Hr]. rewrite Hd.
    set (P := λ r, trafficTypeName (Prediction.trafficType r) = String a s).
    eexists. split; [reflexivity|]. split; [|split; [|split]].
    + apply StronglySorted_take, orderByDesc_sorted.
    + etrans; [apply sublist_submseteq, sublist_take|].
      etrans; [apply Permutation_submseteq, orderByDesc_perm|].
      apply sublist_submseteq, sublist_filter.
    + by intros [|].
    + intros ty [= <-] _. split.
      * apply Forall_take. apply Forall_forall. intros r Hr'.
        rewrite orderByDesc_perm in Hr'.
        by apply list_elem_of_filter in Hr' as [? _].
      * rewrite length_take.
        by rewrite (Permutation_length (orderByDesc_perm _ _)).
  - destruct Hall as (rows & H1 & H2 & H3 & H4).
    exists rows. split; [done|]. split; [done|]. split; [done|].
    split; [done|]. by intros ty [=].
Qed.

Lemma getPredictions_filter_witness :
  ∃ rows,
    getPredictions (Some "") 5 busyWorld = (Ok rows, busyWorld)
    ∧ length rows = length (predictions busyDatabase).
Proof.
  destruct (getPredictions_filter busyWorld _ _ (Some "") 5 eq_refl eq_refl)
    as (rows & H1 & _ & _ & H2 & _).
  exists rows. split; [exact H1|].
  rewrite H2 by (by right). reflexivity.
Defined.

End DbQueries.

(** * db.ts with a handle: writes *)

Section DbWrites.

Implicit Types (w : World) (h : Handle).

Lemma nextId_bound {A} (id : A → Z) (rows : list A) (r : A) :
  r ∈ rows → (id r < nextId id rows)%Z.
Proof.
  unfold nextId. induction rows as [|x rows IH]; intros Hr.
  - by apply elem_of_nil in Hr.
  - simpl. apply elem_of_cons in Hr as [->|Hr]; [lia|].
    specialize (IH Hr). lia.
Qed.

Lemma executeWrite_returns (t : Table)
    (write : Z → Database → option (ResultSetHeader * Database)) w r d :
  rejects w t = false →
  write (now w) (database w) = Some (r, d) →
  executeWrite t write w = (Ok r, set_database d w).
Proof. intros H Hw. unfold executeWrite. by rewrite H, Hw. Qed.

(** ** Decimals on their way into a column *)

Lemma Qfloor_between (y : Q) (n : Z) :
  (inject_Z n <= y)%Q → (y < inject_Z (n + 1))%Q → Qfloor y = n.
Proof.
  intros Hlo Hhi.
  pose proof (Qfloor_resp_le _ _ Hlo) as H1. rewrite Qfloor_Z in H1.
  pose proof (Qfloor_le y) as H2.
  assert (H3 : (inject_Z (Qfloor y) < inject_Z (n + 1))%Q).
  { eapply Qle_lt_trans; [exact H2|exact Hhi]. }
  rewrite <- Zlt_Qlt in H3. lia.
Qed.

(** The stored hundredths are within half a hundredth of the number. *)
Lemma nearestHundredths_error (x : Q) :
  (Qabs (decimalValue (mkDecimal (nearestHundredths x)) - x) <= 1 # 200)%Q.
Proof.
  unfold decimalValue, nearestHundredths. cbn [hundredths].
  pose proof (Qfloor_le (Qabs x * 100 + (1 # 2))) as Hlo.
  pose proof (Qlt_floor (Qabs x * 100 + (1 # 2))) as Hhi.
  rewrite inject_Z_plus in Hhi. change (inject_Z 1) with 1%Q in Hhi.
  generalize dependent (Qfloor (Qabs x * 100 + (1 # 2))). intros f Hlo Hhi.
  assert (Hmake : ∀ z : Z, (z # 100 == inject_Z z * (1 # 100))%Q).
  { intros z. unfold Qeq, inject_Z. simpl. lia. }
  rewrite Hmake. apply Qabs_Qle_condition.
  destruct x as [n d]. unfold Qabs in Hlo, Hhi. cbn [Qnum].
  destruct n as [|p|p]; cbn [Z.sgn].
  - change (Z.abs 0) with 0%Z in *.
    assert (H0 : (0 # d == 0)%Q) by reflexivity.
    change (0 * f)%Z with 0%Z. rewrite H0 in *.
    change (inject_Z 0) with 0%Q. split; lra.
  - change (Z.abs (Z.pos p)) with (Z.pos p) in *.
    rewrite Z.mul_1_l. split; lra.
  - change (Z.abs (Z.neg p)) with (Z.pos p) in *.
    assert (Hneg : (Z.neg p # d == - (Z.pos p # d))%Q) by reflexivity.
    assert (Hm : (inject_Z (-1 * f) == - inject_Z f)%Q).
    { rewrite <- inject_Z_opp. f_equiv. lia. }
    rewrite Hneg, Hm. split; lra.
Qed.

(** A number of hundredths is stored as it is. *)
Lemma nearestHundredths_exact (d : Decimal) :
  nearestHundredths (decimalValue d) = hundredths d.
Proof.
  destruct d as [h]. unfold nearestHundredths, decimalValue.
  cbn [hundredths Qnum].
  assert (Hf : Qfloor (Qabs (h # 100) * 100 + (1 # 2)) = Z.abs h).
  { apply Qfloor_between.
    - unfold Qle, Qabs, Qplus, Qmult, inject_Z. simpl. lia.
    - unfold Qlt, Qabs, Qplus, Qmult, inject_Z. simpl. lia. }
  rewrite Hf. lia.
Qed.

(** A number below 99999999.995 in absolute value fits a
    [decimal(10, 2)] column. *)
Lemma decimalColumn_fits (x : Q) :
  (Qabs x < 99999999995 # 1000)%Q →
  decimalColumn 10 x = Some (mkDecimal (nearestHundredths x)).
Proof.
  intros Hx. unfold decimalColumn. rewrite decide_True; [reflexivity|].
  unfold nearestHundredths.
  set (f := Qfloor (Qabs x * 100 + (1 # 2))).
  assert (Hlo : (inject_Z f <= Qabs x * 100 + (1 # 2))%Q)
    by apply Qfloor_le.
  assert (H0 : (0 <= f)%Z).
  { unfold f. rewrite <- (Qfloor_Z 0). apply Qfloor_resp_le.
    pose proof (Qabs_nonneg x). change (inject_Z 0) with 0%Q. lra. }
  assert (Hf : (f < 10 ^ 10)%Z).
  { rewrite Zlt_Qlt. eapply Qle_lt_trans; [exact Hlo|].
    change (inject_Z (10 ^ 10)) with (10000000000 # 1)%Q. lra. }
  change (Z.of_nat 10) with 10%Z.
  destruct (Qnum x); simpl Z.sgn; lia.
Qed.

Lemma nullableDecimalColumn_fits (x : option Q) :
  (∀ q, x = Some q → (Qabs q < 99999999995 # 1000)%Q) →
  nullableDecimalColumn 10 x = Some (decimal <$> x).
Proof.
  intros Hx. destruct x as [q|]; [|reflexivity]. simpl.
  by rewrite decimalColumn_fits by (by apply Hx).
Qed.

(** X7. Insert, then read. With a handle and the statement accepted,
    [insertTrafficLog] of data without an id, whose throughput fits the
    [decimal(10, 2)] column, adds exactly one row at an id no stored
    log has, carrying the given type and packet size, priority 0 when
    none is given, and as throughput the given number rounded to
    hundredths: within half a hundredth of it, and the number itself
    when it is a number of hundredths.  The other tables are
    untouched, and a following [getTrafficLogs] whose limit exceeds the
    number of logs returns the new row among the old ones. *)
Theorem insertTrafficLog_then_read w h w1 (data : InsertTrafficLog.t) :
  getDb w = (Ok (Some h), w1) →
  rejects w trafficLogsT = false →
  InsertTrafficLog.id data = None →
  (∀ x, InsertTrafficLog.throughput data = Some x →
        (Qabs x < 99999999995 # 1000)%Q) →
  ∃ result row w2,
    insertTrafficLog data w = (Ok (Some result), w2)
    ∧ trafficLogs (database w2) = trafficLogs (database w) ++ [row]
    ∧ set_trafficLogs (trafficLogs (database w)) (database w2) = database w
    ∧ TrafficLog.id row = insertId result
    ∧ (insertId result ∉ map TrafficLog.id (trafficLogs (database w)))
    ∧ TrafficLog.trafficType row = InsertTrafficLog.trafficType data
    ∧ TrafficLog.packetSize row = InsertTrafficLog.packetSize data
    ∧ (InsertTrafficLog.throughput data = None →
       TrafficLog.throughput row = None)
    ∧ (∀ x, InsertTrafficLog.throughput data = Some x →
         ∃ d, TrafficLog.throughput row = Some d
              ∧ (Qabs (decimalValue d - x) <= 1 # 200)%Q)
    ∧ (∀ d, InsertTrafficLog.throughput data = Some (decimalValue d) →
            TrafficLog.throughput row = Some d)
    ∧ TrafficLog.priority row
      = Some (default 0%Z (InsertTrafficLog.priority data))
    ∧ ∀ limit rows,
        length (trafficLogs (database w)) < limit →
        (getTrafficLogs limit 0 w2).1 = Ok rows →
        row ∈ rows ∧ trafficLogs (database w) ⊆ rows.
Proof.
  intros Hg Hok Hid Hfit. unfold insertTrafficLog.
  rewrite (helper_with_handle _ _ _ _ Hg).
  destruct (getDb_with_handle _ _ _ Hg) as (Hdb & Hd & Hr).
  unfold mbind at 1. unfold async_bind.
  erewrite executeWrite_returns; [|by rewrite Hr|].
  2:{ unfold trafficLogRow.
      rewrite (nullableDecimalColumn_fits _ Hfit). reflexivity. }
  simpl.
  eexists _, _, _. split; [reflexivity|]. simpl. rewrite Hd.
  split; [reflexivity|].
  split; [by destruct (database w)|].
  split; [reflexivity|].
  split.
  { rewrite Hid. simpl.
    intros Hin. apply list_elem_of_fmap in Hin as (r & Heq & Hin).
    pose proof (nextId_bound TrafficLog.id _ r Hin). lia. }
  do 2 (split; [reflexivity|]).
  split; [by intros ->|].
  split.
  { intros x ->. eexists. split; [reflexivity|].
    apply nearestHundredths_error. }
  split.
  { intros d ->. simpl. unfold decimal.
    rewrite nearestHundredths_exact. by destruct d. }
  split; [reflexivity|].
  intros limit rows Hlen.
  match goal with
  | |- context [getTrafficLogs limit 0 (set_database ?d w1)] =>
      set (w2 := set_database d w1)
  end.
  assert (Hg2 : getDb w2 = (Ok (Some h), w2)).
  { unfold getDb. simpl. by rewrite Hdb. }
  rewrite (getTrafficLogs_rows w2 h w2 limit 0 Hg2); [|simpl; by rewrite Hr].
  simpl. intros [= <-]. unfold limitOffset. rewrite drop_0.
  rewrite take_ge.
  2:{ rewrite (Permutation_length (orderByDesc_perm _ _)).
      rewrite length_app. simpl. lia. }
  split.
  - rewrite orderByDesc_perm. apply elem_of_app. right. apply list_elem_of_here.
  - intros r Hin. rewrite orderByDesc_perm. apply elem_of_app. by left.
Qed.

Lemma insertTrafficLog_then_read_witness :
  ∃ result row w2,
    insertTrafficLog
      (InsertTrafficLog.mk None None "10.0.0.1" "10.0.0.2" None None "UDP"
                           voice 200 (Some (1 # 3)%Q) None None)
      sampleWorld = (Ok (Some result), w2)
    ∧ (insertId result ∉ map TrafficLog.id (trafficLogs sampleDatabase))
    ∧ ∃ d, TrafficLog.throughput row = Some d
           ∧ (Qabs (decimalValue d - (1 # 3)) <= 1 # 200)%Q.
Proof.
  destruct (insertTrafficLog_then_read sampleWorld _ _
              (InsertTrafficLog.mk None None "10.0.0.1" "10.0.0.2" None None
                                   "UDP" voice 200 (Some (1 # 3)%Q) None None)
              eq_refl eq_refl eq_refl)
    as (result & row & w2 & H1 & _ & _ & _ & H2 & _ & _ & _ & H3 & _).
  { intros x [= <-]. reflexivity. }
  exists result, row, w2. split; [exact H1|]. split; [exact H2|].
  exact (H3 _ eq_refl).
Defined.

(** X8. A rejected write. With a handle, a write whose statement the
    server rejects throws, and every table is as it was: nothing is
    half-written.  ([updateActiveFlow] with an empty object throws
    before it sends a statement.) *)
Theorem rejected_writes_change_nothing w h w1 :
  getDb w = (Ok (Some h), w1) →
  (rejects w trafficLogsT = true →
   ∀ data, insertTrafficLog data w = (Throw "query failed", w1))
  ∧ (rejects w predictionsT = true →
     ∀ data, insertPrediction data w = (Throw "query failed", w1))
  ∧ (rejects w activeFlowsT = true →
     (∀ data, insertActiveFlow data w = (Throw "query failed", w1))
     ∧ ∀ flowId data,
         updateActiveFlow flowId data w
         = (Throw (if isEmptyPatch data then "No values to set"
                   else "query failed"), w1))
  ∧ (rejects w systemAlertsT = true →
     ∀ data, insertSystemAlert data w = (Throw "query failed", w1))
  ∧ database w1 = database w.
Proof.
  intros Hg.
  destruct (getDb_with_handle _ _ _ Hg) as (Hdb & Hd & Hr).
  assert (Hw : ∀ t write, rejects w t = true →
                 executeWrite t write w1 = (Throw "query failed", w1)).
  { intros t write Ht. unfold executeWrite. by rewrite Hr, Ht. }
  split; [|split; [|split; [|split]]]; [| | | |done]; intros Ht.
  - intros data. unfold insertTrafficLog.
    rewrite (helper_with_handle _ _ _ _ Hg).
    unfold mbind, async_bind. by rewrite Hw.
  - intros data. unfold insertPrediction.
    rewrite (helper_with_handle _ _ _ _ Hg).
    unfold mbind, async_bind. by rewrite Hw.
  - split; intros; [unfold insertActiveFlow | unfold updateActiveFlow];
      rewrite (helper_with_handle _ _ _ _ Hg);
      [|destruct (isEmptyPatch data); [reflexivity|]];
      unfold mbind, async_bind; by rewrite Hw.
  - intros data. unfold insertSystemAlert.
    rewrite (helper_with_handle _ _ _ _ Hg).
    unfold mbind, async_bind. by rewrite Hw.
Qed.

Lemma rejected_writes_change_nothing_witness :
  insertTrafficLog
    (InsertTrafficLog.mk None None "10.0.0.1" "10.0.0.2" None None "UDP"
                         voice 200 None None None)
    (failingWorld sampleWorld)
  = (Throw "query failed", failingWorld sampleWorld).
Proof.
  exact (proj1 (rejected_writes_change_nothing (failingWorld sampleWorld) _ _
                  eq_refl) eq_refl _).
Defined.

Lemma map_unless {A} (hit : A → bool) (f : A → A) (l : list A) :
  (∀ r, r ∈ l → hit r = false) →
  map (λ r, if hit r then f r else r) l = l.
Proof.
  induction l as [|r l IH]; intros Hno; [done|]. simpl.
  rewrite (Hno r (list_elem_of_here _ _)). f_equal.
  apply IH. intros r' Hr'. by apply Hno, list_elem_of_further.
Qed.

Lemma mapM_unless {A} (hit : A → bool) (f : A → option A) (g : A → A)
    (l : list A) :
  (∀ r, f r = Some (g r)) →
  mapM (λ r, if hit r then f r else Some r) l
  = Some (map (λ r, if hit r then g r else r) l).
Proof.
  intros Hf. induction l as [|r l IH]; [reflexivity|].
  cbn [mapM map]. rewrite IH. by destruct (hit r); rewrite ?Hf.
Qed.

(** X9. Updating a flow. With a handle, [updateActiveFlow] with an
    object that sets no column throws before any statement is sent, and
    the database is as it was.  With at least one column set, the
    statement accepted and the bandwidths among the columns fitting
    their [decimal(10, 2)] columns, it keeps the number of flows and
    leaves every flow of another id as it was; for an id no flow
    carries it changes nothing. *)
Theorem updateActiveFlow_touches_one_id w h w1 (flowId : Z)
    (data : PartialActiveFlow.t) :
  getDb w = (Ok (Some h), w1) →
  (isEmptyPatch data = true →
   updateActiveFlow flowId data w = (Throw "No values to set", w1)
   ∧ database w1 = database w)
  ∧ (isEmptyPatch data = false →
     rejects w activeFlowsT = false →
     (∀ x, PartialActiveFlow.currentBandwidth data = Some x →
           (Qabs x < 99999999995 # 1000)%Q) →
     (∀ x, PartialActiveFlow.allocatedBandwidth data = Some x →
           (Qabs x < 99999999995 # 1000)%Q) →
     ∃ result w2,
       updateActiveFlow flowId data w = (Ok (Some result), w2)
       ∧ length (activeFlows (database w2))
         = length (activeFlows (database w))
       ∧ filter (λ r, ActiveFlow.id r ≠ flowId) (activeFlows (database w))
         ⊆ activeFlows (database w2)
       ∧ (flowId ∉ map ActiveFlow.id (activeFlows (database w)) →
          database w2 = database w)).
Proof.
  intros Hg. unfold updateActiveFlow.
  rewrite (helper_with_handle _ _ _ _ Hg).
  destruct (getDb_with_handle _ _ _ Hg) as (Hdb & Hd & Hr).
  split.
  { intros ->. by split. }
  intros -> Hok Hcur Hall.
  assert (Hpatch : ∃ g, ∀ r, patchActiveFlow data r = Some (g r)).
  { unfold patchActiveFlow.
    destruct (PartialActiveFlow.currentBandwidth data) as [x|] eqn:Hx;
      destruct (PartialActiveFlow.allocatedBandwidth data) as [y|] eqn:Hy;
      rewrite ?(decimalColumn_fits x) by (by apply Hcur);
      rewrite ?(decimalColumn_fits y) by (by apply Hall);
      eexists (λ r, _); intros r; reflexivity. }
  destruct Hpatch as [g Hg'].
  unfold mbind at 1. unfold async_bind.
  erewrite executeWrite_returns; [|by rewrite Hr|].
  2:{ rewrite (mapM_unless _ _ g _ Hg'). reflexivity. }
  eexists _, _. split; [reflexivity|]. simpl. rewrite Hd.
  set (flows := activeFlows (database w)).
  split; [by rewrite length_map|].
  split.
  - intros r Hin. apply list_elem_of_filter in Hin as [Hne Hin].
    apply list_elem_of_fmap. exists r. split; [|done].
    by rewrite bool_decide_eq_false_2.
  - intros Hnot.
    assert (Hnone : ∀ r, r ∈ flows → ActiveFlow.id r ≠ flowId).
    { intros r Hin He. apply Hnot. rewrite <- He.
      by apply list_elem_of_fmap_2. }
    rewrite map_unless; [|intros r Hin; by apply bool_decide_eq_false_2, Hnone].
    unfold flows. by destruct (database w).
Qed.

Lemma updateActiveFlow_touches_one_id_witness :
  updateActiveFlow 7
    (PartialActiveFlow.mk None None None None None None None None None None
                          None None None None)
    busyWorld = (Throw "No values to set", busyWorld)
  ∧ ∃ result w2,
      updateActiveFlow 7
        (PartialActiveFlow.mk None None None None None None None (Some 3%Q)
                              None None None None None None)
        busyWorld = (Ok (Some result), w2)
      ∧ length (activeFlows (database w2)) = 2.
Proof.
  split.
  - exact (proj1 (proj1 (updateActiveFlow_touches_one_id busyWorld _ _ 7
                           (PartialActiveFlow.mk None None None None None None
                              None None None None None None None None)
                           eq_refl) eq_refl)).
  - destruct (proj2 (updateActiveFlow_touches_one_id busyWorld _ _ 7
                (PartialActiveFlow.mk None None None None None None None
                                      (Some 3%Q) None None None None None None)
                eq_refl) eq_refl eq_refl)
      as (result & w2 & H1 & H2 & _).
    + intros x [= <-]. reflexivity.
    + intros x [=].
    + exists result, w2. split; [exact H1 | exact H2].
Defined.

(** X10. A new alert is open. With a handle and the statements accepted,
    an alert inserted without [resolved] (or with [resolved = false])
    is stored unresolved, at an id no stored alert has when none is
    given, and a following [getSystemAlerts(true, limit)] returns it
    whenever fewer than [limit] alerts were unresolved before. *)
Theorem insertSystemAlert_then_unresolved w h w1 (data : InsertSystemAlert.t) :
  getDb w = (Ok (Some h), w1) →
  rejects w systemAlertsT = false →
  default false (InsertSystemAlert.resolved data) = false →
  ∃ result row w2,
    insertSystemAlert data w = (Ok (Some result), w2)
    ∧ systemAlerts (database w2) = systemAlerts (database w) ++ [row]
    ∧ SystemAlert.resolved row = false
    ∧ SystemAlert.title row = InsertSystemAlert.title data
    ∧ SystemAlert.message row = InsertSystemAlert.message data
    ∧ SystemAlert.severity row = InsertSystemAlert.severity data
    ∧ (InsertSystemAlert.id data = None →
       SystemAlert.id row ∉ map SystemAlert.id (systemAlerts (database w)))
    ∧ ∀ limit rows,
        length (filter (λ r, SystemAlert.resolved r = false)
                       (systemAlerts (database w))) < limit →
        (getSystemAlerts true limit w2).1 = Ok rows →
        row ∈ rows.
Proof.
  intros Hg Hok Hres. unfold insertSystemAlert.
  rewrite (helper_with_handle _ _ _ _ Hg).
  destruct (getDb_with_handle _ _ _ Hg) as (Hdb & Hd & Hr).
  unfold mbind, async_bind.
  erewrite executeWrite_returns; [|by rewrite Hr|reflexivity]. simpl.
  eexists _, _, _. split; [reflexivity|]. simpl. rewrite Hd.
  split; [reflexivity|].
  split; [exact Hres|].
  do 3 (split; [reflexivity|]).
  split.
  { intros Hid. unfold systemAlertRow. rewrite Hid. simpl.
    intros Hin. apply list_elem_of_fmap in Hin as (r & Heq & Hin).
    pose proof (nextId_bound SystemAlert.id _ r Hin). lia. }
  intros limit rows Hlen.
  set (row := systemAlertRow data (now w1) (systemAlerts (database w))).
  set (w2 := set_database _ w1).
  assert (Hg2 : getDb w2 = (Ok (Some h), w2)).
  { unfold getDb. simpl. by rewrite Hdb. }
  unfold getSystemAlerts. rewrite (helper_with_handle _ _ _ _ Hg2).
  rewrite execute_returns; [|simpl; by rewrite Hr].
  simpl. intros [= <-].
  rewrite filter_app, filter_cons_True by exact Hres.
  rewrite take_ge.
  2:{ rewrite (Permutation_length (orderByDesc_perm _ _)).
      rewrite length_app. simpl. lia. }
  rewrite orderByDesc_perm. apply elem_of_app. right. apply list_elem_of_here.
Qed.

Lemma insertSystemAlert_then_unresolved_witness :
  ∃ result row w2,
    insertSystemAlert
      (InsertSystemAlert.mk None warning "Link saturated" "eth0 above 90%"
                            None None None None)
      busyWorld = (Ok (Some result), w2)
    ∧ systemAlerts (database w2) = systemAlerts busyDatabase ++ [row]
    ∧ SystemAlert.resolved row = false.
Proof.
  destruct (insertSystemAlert_then_unresolved busyWorld _ _
              (InsertSystemAlert.mk None warning "Link saturated"
                                    "eth0 above 90%" None None None None)
              eq_refl eq_refl eq_refl)
    as (result & row & w2 & H1 & H2 & H3 & _).
  exists result, row, w2. split; [exact H1|]. split; [exact H2 | exact H3].
Defined.

End DbWrites.

(** * Users *)

Section Users.

Implicit Types (a : Accounts) (u : User.t) (user : InsertUser.t).

Lemma upsertUser_connected (ownerOpenId : string) user a h w1 :
  InsertUser.openId user ≠ "" →
  getDb (accountsWorld a) = (Ok (Some h), w1) →
  upsertUser ownerOpenId user a
  = try_catch
      (insertOnDuplicateKeyUpdate
         (upsertValues ownerOpenId (now w1) user)
         (upsertUpdateSet ownerOpenId (now w1) user))
      (λ error, (accountsLog "[Database] Failed to upsert user:";;
                 throw error))
      (mkAccounts w1 (users a) (usersRejected a)).
Proof.
  intros Hne Hg. unfold upsertUser. rewrite decide_False by done.
  unfold mbind, async_bind, liftAccounts, try_catch, gets. by rewrite Hg.
Qed.

(** The users after a successful upsert. *)
Lemma upsertUser_users (ownerOpenId : string) user a h w1 :
  InsertUser.openId user ≠ "" →
  getDb (accountsWorld a) = (Ok (Some h), w1) →
  usersRejected a = false →
  ∃ users',
    upsertUser ownerOpenId user a = (Ok tt, mkAccounts w1 users' false)
    ∧ users'
      = if existsb (λ u, bool_decide
                           (User.openId u = InsertUser.openId user)) (users a)
        then map (λ u, if bool_decide (User.openId u = InsertUser.openId user)
                       then applyUpdateSet
                              (upsertUpdateSet ownerOpenId (now w1) user)
                              (now w1) u
                       else u) (users a)
        else users a
             ++ [userRow (upsertValues ownerOpenId (now w1) user) (now w1)
                         (users a)].
Proof.
  intros Hne Hg Hrej. rewrite (upsertUser_connected _ _ _ _ _ Hne Hg).
  unfold try_catch, insertOnDuplicateKeyUpdate. simpl. rewrite Hrej.
  destruct (existsb _ (users a)); by eexists.
Qed.

Lemma applyUpdateSet_openId (s : UpdateSet) (t : Z) u :
  User.openId (applyUpdateSet s t u) = User.openId u
  ∧ User.id (applyUpdateSet s t u) = User.id u
  ∧ User.createdAt (applyUpdateSet s t u) = User.createdAt u
  ∧ User.name (applyUpdateSet s t u) = default (User.name u) (setName s)
  ∧ User.email (applyUpdateSet s t u) = default (User.email u) (setEmail s)
  ∧ User.loginMethod (applyUpdateSet s t u)
    = default (User.loginMethod u) (setLoginMethod s)
  ∧ User.role (applyUpdateSet s t u) = default (User.role u) (setRole s)
  ∧ User.lastSignedIn (applyUpdateSet s t u)
    = default (User.lastSignedIn u) (setLastSignedIn s).
Proof.
  unfold applyUpdateSet. destruct (decide _) as [He|_]; [|done].
  pose proof (f_equal User.name He) as H1.
  pose proof (f_equal User.email He) as H2.
  pose proof (f_equal User.loginMethod He) as H3.
  pose proof (f_equal User.role He) as H4.
  pose proof (f_equal User.lastSignedIn He) as H5.
  simpl in *. by repeat split.
Qed.

Lemma upsertUpdateSet_fields (ownerOpenId : string) (t : Z) user :
  let s := upsertUpdateSet ownerOpenId t user in
  setName s = InsertUser.name user
  ∧ setEmail s = InsertUser.email user
  ∧ setLoginMethod s = InsertUser.loginMethod user
  ∧ setRole s = upsertRole ownerOpenId user
  ∧ (∀ v, InsertUser.lastSignedIn user = Some v → setLastSignedIn s = Some v).
Proof.
  unfold upsertUpdateSet, isEmptyUpdateSet. simpl.
  destruct (InsertUser.name user), (InsertUser.email user),
    (InsertUser.loginMethod user), (upsertRole ownerOpenId user),
    (InsertUser.lastSignedIn user); simpl; repeat split; try done.
Qed.

(** The first row of an open id after the update of all its rows. *)
Lemma head_updated (x : string) (g : User.t → User.t) (l : list User.t) :
  (∀ u, User.openId (g u) = User.openId u) →
  existsb (λ u, bool_decide (User.openId u = x)) l = true →
  ∃ u0, u0 ∈ l ∧ User.openId u0 = x
        ∧ head (filter (λ u, User.openId u = x) l) = Some u0
        ∧ head (take 1 (filter (λ u, User.openId u = x)
                          (map (λ u, if bool_decide (User.openId u = x)
                                     then g u else u) l)))
          = Some (g u0).
Proof.
  intros Hg. induction l as [|u l IH]; [discriminate|]. simpl.
  destruct (decide (User.openId u = x)) as [He|Hne].
  - intros _. exists u. rewrite !bool_decide_eq_true_2 by done.
    rewrite !filter_cons_True by (by rewrite ?Hg).
    split; [apply list_elem_of_here|done].
  - rewrite !bool_decide_eq_false_2 by done. simpl. intros Hex.
    destruct (IH Hex) as (u0 & Hin & Ho & Hh & Hhead).
    exists u0. rewrite !filter_cons_False by done.
    split; [by apply list_elem_of_further|done].
Qed.

Lemma no_row_of (x : string) (l : list User.t) :
  existsb (λ u, bool_decide (User.openId u = x)) l = false →
  filter (λ u, User.openId u = x) l = [] ∧ x ∉ map User.openId l.
Proof.
  induction l as [|u l IH]; simpl.
  - intros _. split; [done|]. apply not_elem_of_nil.
  - intros H. apply orb_false_iff in H as [Hu Hl].
    apply bool_decide_eq_false in Hu.
    destruct (IH Hl) as [Hf Hn]. split.
    + by rewrite filter_cons_False.
    + apply not_elem_of_cons. by split.
Qed.

(** X11. Upsert, then look up. With a handle and the statements accepted,
    [upsertUser] with a non-empty open id succeeds, and
    [getUserByOpenId] then returns a user of that open id carrying
    every field the call gave: name, e-mail, login method and last
    sign-in, and as role the given one or, when none is given and the
    open id is the owner's, [admin]. *)
Theorem upsertUser_then_getUserByOpenId (ownerOpenId : string) user a h w1 :
  InsertUser.openId user ≠ "" →
  getDb (accountsWorld a) = (Ok (Some h), w1) →
  usersRejected a = false →
  ∃ a' u,
    upsertUser ownerOpenId user a = (Ok tt, a')
    ∧ getUserByOpenId (InsertUser.openId user) a' = (Ok (Some u), a')
    ∧ User.openId u = InsertUser.openId user
    ∧ (∀ v, InsertUser.name user = Some v → User.name u = v)
    ∧ (∀ v, InsertUser.email user = Some v → User.email u = v)
    ∧ (∀ v, InsertUser.loginMethod user = Some v → User.loginMethod u = v)
    ∧ (∀ v, InsertUser.lastSignedIn user = Some v → User.lastSignedIn u = v)
    ∧ (∀ r, InsertUser.role user = Some r → User.role u = r)
    ∧ (InsertUser.role user = None →
       InsertUser.openId user = ownerOpenId → User.role u = adminRole).
Proof.
  intros Hne Hg Hrej.
  destruct (getDb_with_handle _ _ _ Hg) as (Hdb & _ & _).
  assert (Hg1 : getDb w1 = (Ok (Some h), w1)).
  { unfold getDb. by rewrite Hdb. }
  destruct (upsertUser_users ownerOpenId _ _ _ _ Hne Hg Hrej)
    as (users' & Hup & Husers).
  set (x := InsertUser.openId user) in *.
  set (s := upsertUpdateSet ownerOpenId (now w1) user) in *.
  destruct (upsertUpdateSet_fields ownerOpenId (now w1) user)
    as (Hsn & Hse & Hsl & Hsr & Hst). fold s in Hsn, Hse, Hsl, Hsr, Hst.
  assert (Hrole : ∀ r, upsertRole ownerOpenId user = Some r →
                       (∀ r', InsertUser.role user = Some r' → r = r')
                       ∧ (InsertUser.role user = None → x = ownerOpenId →
                          r = adminRole)).
  { unfold upsertRole. intros r. destruct (InsertUser.role user) as [r0|].
    - intros [= <-]. split; [by intros r' [= <-]|done].
    - fold x. destruct (decide (x = ownerOpenId)); [|done].
      intros [= <-]. by split. }
  assert (Hget : ∀ u, head (take 1 (filter (λ u, User.openId u = x) users'))
                      = Some u →
                 getUserByOpenId x (mkAccounts w1 users' false)
                 = (Ok (Some u), mkAccounts w1 users' false)).
  { intros u Hu. unfold getUserByOpenId, mbind, async_bind, liftAccounts.
    simpl. rewrite Hg1. unfold selectUserByOpenId. simpl. by rewrite Hu. }
  destruct (existsb _ (users a)) eqn:Hex.
  - destruct (head_updated x (applyUpdateSet s (now w1)) (users a)
                (λ u, proj1 (applyUpdateSet_openId s (now w1) u)) Hex)
      as (u0 & Hin & Ho & _ & Hhead).
    rewrite <- Husers in Hhead.
    eexists _, _. split; [exact Hup|]. split; [by apply Hget|].
    destruct (applyUpdateSet_openId s (now w1) u0)
      as (H1 & _ & _ & H4 & H5 & H6 & H7 & H8).
    split; [by rewrite H1|].
    rewrite H4, H5, H6, H7, H8, Hsn, Hse, Hsl, Hsr.
    repeat split.
    + by intros v ->.
    + by intros v ->.
    + by intros v ->.
    + intros v Hv. by rewrite (Hst v Hv).
    + intros r Hr. unfold upsertRole. by rewrite Hr.
    + intros Hr Ho'. unfold upsertRole. rewrite Hr.
      by rewrite decide_True.
  - destruct (no_row_of x (users a) Hex) as [Hnil _].
    eexists _, _. split; [exact Hup|]. split.
    { apply Hget. rewrite Husers, filter_app, Hnil. simpl.
      rewrite filter_cons_True by done. reflexivity. }
    simpl. split; [done|]. repeat split.
    + by intros v ->.
    + by intros v ->.
    + by intros v ->.
    + by intros v ->.
    + intros r Hr. unfold upsertRole. by rewrite Hr.
    + intros Hr Ho'. unfold upsertRole. rewrite Hr.
      by rewrite decide_True.
Qed.

Lemma upsertUser_then_getUserByOpenId_witness :
  ∃ a' u,
    upsertUser "owner-1"
      (InsertUser.mk None "owner-1" (Some (Some "Grace")) None None None
                     None None None)
      sampleAccounts = (Ok tt, a')
    ∧ getUserByOpenId "owner-1" a' = (Ok (Some u), a')
    ∧ User.openId u = "owner-1".
Proof.
  destruct (upsertUser_then_getUserByOpenId "owner-1"
              (InsertUser.mk None "owner-1" (Some (Some "Grace")) None None
                             None None None None)
              sampleAccounts _ _ ltac:(discriminate) eq_refl eq_refl)
    as (a' & u & H1 & H2 & H3 & _).
  exists a', u. split; [exact H1|]. split; [exact H2 | exact H3].
Defined.

(** X12. One row per open id. A successful [upsertUser] keeps the open
    ids of the table distinct, leaves every user of another open id as
    it was, and adds a row only when the open id was not stored; for a
    stored open id the row keeps its id and creation time, and each of
    name, e-mail, login method and role the call leaves out (the owner
    apart, for the role) keeps its stored value. *)
Theorem upsertUser_one_row_per_openId (ownerOpenId : string) user a h w1 :
  InsertUser.openId user ≠ "" →
  getDb (accountsWorld a) = (Ok (Some h), w1) →
  usersRejected a = false →
  NoDup (map User.openId (users a)) →
  ∃ a',
    upsertUser ownerOpenId user a = (Ok tt, a')
    ∧ NoDup (map User.openId (users a'))
    ∧ (∀ u, u ∈ users a → User.openId u ≠ InsertUser.openId user →
            u ∈ users a')
    ∧ length (users a')
      = (if bool_decide (InsertUser.openId user ∈ map User.openId (users a))
         then length (users a) else S (length (users a)))
    ∧ ∀ u0, u0 ∈ users a → User.openId u0 = InsertUser.openId user →
        ∃ u, u ∈ users a'
             ∧ User.openId u = User.openId u0
             ∧ User.id u = User.id u0
             ∧ User.createdAt u = User.createdAt u0
             ∧ (InsertUser.name user = None → User.name u = User.name u0)
             ∧ (InsertUser.email user = None → User.email u = User.email u0)
             ∧ (InsertUser.loginMethod user = None →
                User.loginMethod u = User.loginMethod u0)
             ∧ (upsertRole ownerOpenId user = None →
                User.role u = User.role u0).
Proof.
  intros Hne Hg Hrej Hnd.
  destruct (upsertUser_users ownerOpenId _ _ _ _ Hne Hg Hrej)
    as (users' & Hup & Husers).
  set (x := InsertUser.openId user) in *.
  set (s := upsertUpdateSet ownerOpenId (now w1) user) in *.
  set (f := λ u, if bool_decide (User.openId u = x)
                 then applyUpdateSet s (now w1) u else u) in *.
  assert (Hf : ∀ u, User.openId (f u) = User.openId u).
  { intros u. unfold f. destruct (bool_decide _); [|done].
    apply applyUpdateSet_openId. }
  eexists. split; [exact Hup|]. simpl.
  destruct (existsb _ (users a)) eqn:Hex.
  - assert (Hin : x ∈ map User.openId (users a)).
    { apply existsb_exists in Hex as (u & Hu & Hb).
      apply bool_decide_eq_true in Hb. rewrite <- Hb.
      apply list_elem_of_fmap_2. by apply list_elem_of_In. }
    rewrite Husers, (bool_decide_eq_true_2 _ Hin).
    split; [|split; [|split]].
    + rewrite map_map. by rewrite (map_ext _ User.openId Hf).
    + intros u Hu Hneq. apply list_elem_of_fmap. exists u. split; [|done].
      unfold f. by rewrite bool_decide_eq_false_2.
    + by rewrite length_map.
    + intros u0 Hu0 Ho. exists (f u0).
      split; [by apply list_elem_of_fmap_2|].
      unfold f. rewrite bool_decide_eq_true_2 by done.
      destruct (applyUpdateSet_openId s (now w1) u0)
        as (H1 & H2 & H3 & H4 & H5 & H6 & H7 & _).
      destruct (upsertUpdateSet_fields ownerOpenId (now w1) user)
        as (Hsn & Hse & Hsl & Hsr & _). fold s in Hsn, Hse, Hsl, Hsr.
      rewrite H1, H2, H3, H4, H5, H6, H7, Hsn, Hse, Hsl, Hsr.
      repeat split; by intros ->.
  - destruct (no_row_of x (users a) Hex) as [_ Hnot].
    rewrite Husers, (bool_decide_eq_false_2 _ Hnot).
    split; [|split; [|split]].
    + rewrite map_app. simpl. apply NoDup_app. split; [done|].
      split; [|apply NoDup_singleton].
      intros y Hy Hy'. apply list_elem_of_singleton in Hy'. by subst.
    + intros u Hu _. apply elem_of_app. by left.
    + rewrite length_app. simpl. lia.
    + intros u0 Hu0 Ho. destruct Hnot. rewrite <- Ho.
      by apply list_elem_of_fmap_2.
Qed.

Lemma upsertUser_one_row_per_openId_witness :
  ∃ a',
    upsertUser "owner-1"
      (InsertUser.mk None "u-1" None (Some (Some "ada@example.org")) None
                     None None None None)
      sampleAccounts = (Ok tt, a')
    ∧ length (users a') = 1.
Proof.
  destruct (upsertUser_one_row_per_openId "owner-1"
              (InsertUser.mk None "u-1" None (Some (Some "ada@example.org"))
                             None None None None None)
              sampleAccounts _ _ ltac:(discriminate) eq_refl eq_refl
              ltac:(repeat constructor; apply not_elem_of_nil))
    as (a' & H1 & _ & _ & H2 & _).
  exists a'. split; [exact H1 | exact H2].
Defined.

(** X13. When nothing is written. [upsertUser] with an empty open id throws
    before anything else happens; without a handle it warns and returns
    normally; when the server rejects the statement it logs the failure
    and throws the error on. In all three cases the users are as they
    were. Without a handle [getUserByOpenId] warns and returns no
    user. *)
Theorem upsertUser_failures_write_nothing (ownerOpenId : string) user a w1 :
  (InsertUser.openId user = "" →
   upsertUser ownerOpenId user a
   = (Throw "User openId is required for upsert", a))
  ∧ (InsertUser.openId user ≠ "" →
     getDb (accountsWorld a) = (Ok None, w1) →
     upsertUser ownerOpenId user a
     = (Ok tt,
        mkAccounts
          (console_write
             "[Database] Cannot upsert user: database not available" w1)
          (users a) (usersRejected a)))
  ∧ (∀ h, InsertUser.openId user ≠ "" →
          getDb (accountsWorld a) = (Ok (Some h), w1) →
          usersRejected a = true →
          upsertUser ownerOpenId user a
          = (Throw "query failed",
             mkAccounts
               (console_write "[Database] Failed to upsert user:" w1)
               (users a) true))
  ∧ (∀ openId,
       getDb (accountsWorld a) = (Ok None, w1) →
       getUserByOpenId openId a
       = (Ok None,
          mkAccounts
            (console_write
               "[Database] Cannot get user: database not available" w1)
            (users a) (usersRejected a))).
Proof.
  split; [|split; [|split]].
  - intros He. unfold upsertUser. by rewrite decide_True.
  - intros Hne Hg. unfold upsertUser. rewrite decide_False by done.
    unfold mbind, async_bind, liftAccounts. by rewrite Hg.
  - intros h Hne Hg Hrej. rewrite (upsertUser_connected _ _ _ _ _ Hne Hg).
    unfold try_catch, insertOnDuplicateKeyUpdate. simpl. by rewrite Hrej.
  - intros openId Hg. unfold getUserByOpenId, mbind, async_bind, liftAccounts.
    by rewrite Hg.
Qed.

Lemma upsertUser_failures_write_nothing_witness :
  upsertUser "owner-1"
    (InsertUser.mk None "" None None None None None None None) sampleAccounts
  = (Throw "User openId is required for upsert", sampleAccounts).
Proof.
  exact (proj1 (upsertUser_failures_write_nothing "owner-1"
                  (InsertUser.mk None "" None None None None None None None)
                  sampleAccounts sampleWorld) eq_refl).
Defined.

End Users.

(** * The manager: connections, subscriptions and runs *)

Section ManagerRuns.

Implicit Types (n : Node) (c : ClientConnection) (cid sid channel k : string).

Lemma intervalFires_cases n :
  intervalFires n = broadcastTick n ∨ intervalFires n = (Ok tt, n).
Proof.
  unfold intervalFires. destruct (updateInterval (manager n)); [|by right].
  destruct (decide _); [by left|by right].
Qed.

(** The clients after the tick: untouched, or each sent the two
    messages. *)
Lemma broadcastTick_clients n :
  clients (manager (broadcastTick n).2) = clients (manager n)
  ∨ ∃ m1 m2,
      clients (manager (broadcastTick n).2)
      = socketEmit m2 <$> (socketEmit m1 <$> clients (manager n)).
Proof.
  rewrite broadcastTick_by_reads.
  destruct (tickReads (world n)) as [[[[[logs flows] alerts] stats]|e] w'].
  - right. by eexists _, _.
  - by left.
Qed.

(** What one event does to the client stored under [k]. *)
Lemma handleEvent_client (e : ManagerEvent) n k :
  clients (manager (handleEvent e n).2) !! k
  = match e with
    | ConnectionEvent sid =>
        if decide (sid = k)
        then Some (socketEmit
                     (mkMessage "connected"
                        (ConnectedPayload sid (now (world n))))
                     (mkClientConnection sid (mkSocket sid [])
                                         (now (world n)) ∅))
        else clients (manager n) !! k
    | SubscribeEvent cid channel =>
        if decide (cid = k)
        then socketEmit (mkMessage "subscribed" (ChannelPayload channel))
             <$> (subscriptionsAdd channel <$> clients (manager n) !! k)
        else clients (manager n) !! k
    | UnsubscribeEvent cid channel =>
        if decide (cid = k)
        then socketEmit (mkMessage "unsubscribed" (ChannelPayload channel))
             <$> (subscriptionsDelete channel <$> clients (manager n) !! k)
        else clients (manager n) !! k
    | DisconnectEvent cid =>
        if decide (cid = k) then None else clients (manager n) !! k
    | BroadcastCall ev data =>
        socketEmit (mkMessage ev (DataPayload (now (world n)) None data))
        <$> clients (manager n) !! k
    | BroadcastToSubscribersCall channel ev data =>
        (λ c, if decide (channel ∈ subscriptions c)
              then socketEmit
                     (mkMessage ev
                        (DataPayload (now (world n)) (Some channel) data)) c
              else c)
        <$> clients (manager n) !! k
    | IntervalEvent => clients (manager (intervalFires n).2) !! k
    | ErrorEvent _ | DatabaseChange _ => clients (manager n) !! k
    end.
Proof.
  destruct e; simpl; try reflexivity.
  - destruct (decide (sid = k)) as [->|Hne].
    + by rewrite lookup_alter_eq, lookup_insert_eq.
    + by rewrite lookup_alter_ne, lookup_insert_ne.
  - destruct (decide (cid = k)) as [->|Hne].
    + by rewrite !lookup_alter_eq.
    + by rewrite !lookup_alter_ne.
  - destruct (decide (cid = k)) as [->|Hne].
    + by rewrite !lookup_alter_eq.
    + by rewrite !lookup_alter_ne.
  - destruct (decide (cid = k)) as [->|Hne].
    + by rewrite lookup_delete_eq.
    + by rewrite lookup_delete_ne.
  - by rewrite lookup_fmap.
  - by rewrite lookup_fmap.
Qed.

Lemma greeted_socketEmit k c (m : Message) :
  greeted k c → greeted k (socketEmit m c).
Proof.
  intros (Hid & Hs & t & rest & He). repeat split; [done..|].
  exists t, (rest ++ [m]). simpl. by rewrite He.
Qed.

Lemma intervalFires_client n k :
  clients (manager (intervalFires n).2) !! k = clients (manager n) !! k
  ∨ ∃ m1 m2,
      clients (manager (intervalFires n).2) !! k
      = socketEmit m2 <$> (socketEmit m1 <$> clients (manager n) !! k).
Proof.
  destruct (intervalFires_cases n) as [-> | ->]; [|by left].
  destruct (broadcastTick_clients n) as [-> | (m1 & m2 & ->)]; [by left|].
  right. exists m1, m2. by rewrite !lookup_fmap.
Qed.

Lemma handleEvent_greeted (e : ManagerEvent) n :
  (∀ k c, clients (manager n) !! k = Some c → greeted k c) →
  ∀ k c, clients (manager (handleEvent e n).2) !! k = Some c → greeted k c.
Proof.
  intros Hinv k c. rewrite handleEvent_client.
  destruct e.
  - case_decide as H; [|apply Hinv]. subst. intros [= <-].
    repeat split. by eexists _, _.
  - case_decide as H; [|apply Hinv].
    destruct (clients (manager n) !! k) as [c0|] eqn:Hc; [|done].
    intros [= <-]. apply greeted_socketEmit.
    destruct (Hinv k c0 Hc) as (? & ? & ?). by repeat split.
  - case_decide as H; [|apply Hinv].
    destruct (clients (manager n) !! k) as [c0|] eqn:Hc; [|done].
    intros [= <-]. apply greeted_socketEmit.
    destruct (Hinv k c0 Hc) as (? & ? & ?). by repeat split.
  - case_decide; [done|apply Hinv].
  - apply Hinv.
  - destruct (intervalFires_client n k) as [-> | (m1 & m2 & ->)];
      [apply Hinv|].
    destruct (clients (manager n) !! k) as [c0|] eqn:Hc; [|done].
    intros [= <-]. by apply greeted_socketEmit, greeted_socketEmit, Hinv.
  - destruct (clients (manager n) !! k) as [c0|] eqn:Hc; [|done].
    intros [= <-]. by apply greeted_socketEmit, Hinv.
  - destruct (clients (manager n) !! k) as [c0|] eqn:Hc; [|done].
    intros [= <-]. case_decide; [apply greeted_socketEmit|]; by apply Hinv.
  - apply Hinv.
Qed.

(** X14. Every client is greeted first. Whatever events reach a manager
    after its construction, each client it holds is stored under its
    own socket id and the first message on its socket is the
    [connected] message naming that id. *)
Theorem clients_greeted_first (events : list ManagerEvent)
    (server : HTTPServer) (w : World) k c :
  clients (manager (runEvents events (startedNode server w))) !! k = Some c →
  greeted k c.
Proof.
  assert (Hgen : ∀ n,
            (∀ k c, clients (manager n) !! k = Some c → greeted k c) →
            ∀ k c, clients (manager (runEvents events n)) !! k = Some c →
                   greeted k c).
  { induction events as [|e events IH]; intros n Hinv; [exact Hinv|].
    simpl. apply IH. by apply handleEvent_greeted. }
  apply Hgen. intros k' c'. unfold startedNode. simpl.
  by rewrite lookup_empty.
Qed.

Lemma clients_greeted_first_witness :
  greeted "a"
    (mkClientConnection "a"
       (mkSocket "a"
          [mkMessage "connected" (ConnectedPayload "a" 1000);
           mkMessage "subscribed" (ChannelPayload "alerts")])
       1000 {["alerts"]}).
Proof.
  apply (clients_greeted_first
           [ConnectionEvent "a"; SubscribeEvent "a" "alerts"] 0 sampleWorld).
  vm_compute. reflexivity.
Defined.

(** X15. One event and a connected client. Unless the event is the
    client's own disconnect or a new connection under its id, the
    client stays connected, what was already sent to it stays at the
    head of its socket, in order, and its subscriptions change only by
    its own subscribe and unsubscribe events. *)
Theorem connected_client_step (e : ManagerEvent) n k c :
  clients (manager n) !! k = Some c →
  e ≠ DisconnectEvent k →
  e ≠ ConnectionEvent k →
  ∃ c',
    clients (manager (handleEvent e n).2) !! k = Some c'
    ∧ emitted (socket c) `prefix_of` emitted (socket c')
    ∧ connectedAt c' = connectedAt c
    ∧ subscriptions c'
      = match e with
        | SubscribeEvent cid channel =>
            if decide (cid = k) then {[channel]} ∪ subscriptions c
            else subscriptions c
        | UnsubscribeEvent cid channel =>
            if decide (cid = k) then subscriptions c ∖ {[channel]}
            else subscriptions c
        | _ => subscriptions c
        end.
Proof.
  intros Hc Hd Hn. rewrite handleEvent_client.
  destruct e.
  - destruct (decide (sid = k)) as [->|_]; [done|].
    exists c. by repeat split.
  - rewrite Hc. destruct (decide (cid = k)) as [->|_].
    + eexists. split; [reflexivity|]. simpl.
      repeat split. by apply prefix_app_r.
    + exists c. by repeat split.
  - rewrite Hc. destruct (decide (cid = k)) as [->|_].
    + eexists. split; [reflexivity|]. simpl.
      repeat split. by apply prefix_app_r.
    + exists c. by repeat split.
  - destruct (decide (cid = k)) as [->|_]; [done|].
    exists c. by repeat split.
  - exists c. by repeat split.
  - destruct (intervalFires_client n k) as [-> | (m1 & m2 & ->)].
    + exists c. by repeat split.
    + rewrite Hc. eexists. split; [reflexivity|]. simpl.
      repeat split. by apply prefix_app_r, prefix_app_r.
  - rewrite Hc. eexists. split; [reflexivity|]. simpl.
    repeat split. by apply prefix_app_r.
  - rewrite Hc. eexists. split; [reflexivity|]. simpl.
    case_decide; simpl; repeat split; [by apply prefix_app_r|done].
  - exists c. by repeat split.
Qed.

Lemma connected_client_step_witness :
  ∃ c',
    clients (manager (handleEvent IntervalEvent sampleNode).2) !! "a" = Some c'
    ∧ subscriptions c' = {["alerts"]} ∪ ∅.
Proof.
  destruct (connected_client_step IntervalEvent sampleNode "a" _
              eq_refl ltac:(discriminate) ltac:(discriminate))
    as (c' & H1 & _ & _ & H2).
  exists c'. split; [exact H1 | exact H2].
Defined.

(** X16. Connect, then disconnect. A connection under an id not in use
    followed by its disconnect leaves the clients exactly as they
    were; a disconnect for an id that is not connected changes none of
    them. *)
Theorem disconnect_undoes_connect n sid :
  clients (manager n) !! sid = None →
  clients (manager (onDisconnect sid (onConnection sid n).2).2)
  = clients (manager n)
  ∧ clients (manager (onDisconnect sid n).2) = clients (manager n).
Proof.
  intros Hnone. split.
  - apply map_eq. intros k.
    change (onDisconnect sid (onConnection sid n).2)
      with (handleEvent (DisconnectEvent sid)
              (handleEvent (ConnectionEvent sid) n).2).
    rewrite !handleEvent_client.
    destruct (decide (sid = k)) as [->|_]; [by rewrite Hnone|done].
  - simpl. by apply delete_id.
Qed.

Lemma disconnect_undoes_connect_witness :
  clients (manager (onDisconnect "b" (onConnection "b" sampleNode).2).2)
  = clients (manager sampleNode).
Proof.
  apply (disconnect_undoes_connect sampleNode "b").
  vm_compute. reflexivity.
Defined.

Lemma not_elem_of_own_difference (x : string) (X : gset string) :
  x ∉ X ∖ {[x]}.
Proof.
  rewrite elem_of_difference, elem_of_singleton. by intros [_ H].
Qed.

(** X17. A subscription gates its channel. [broadcastToSubscribers] on
    a channel sends a connected client the event right after it
    subscribed to that channel and sends it nothing right after it
    unsubscribed, whatever it had subscribed to before; a client that
    has just connected, under a new id or one in use, is sent nothing
    on any channel. *)
Theorem subscription_gates_channel n cid channel (ev : string)
    (data : list (string * string)) :
  let sent := mkMessage ev (DataPayload (now (world n)) (Some channel) data) in
  (∀ c, clients (manager n) !! cid = Some c →
     emittedTo cid
       (broadcastToSubscribers channel ev data (onSubscribe cid channel n).2).2
     = emitted (socket c)
       ++ [mkMessage "subscribed" (ChannelPayload channel); sent]
     ∧ emittedTo cid
         (broadcastToSubscribers channel ev data
            (onUnsubscribe cid channel n).2).2
       = emitted (socket c)
         ++ [mkMessage "unsubscribed" (ChannelPayload channel)])
  ∧ emittedTo cid
      (broadcastToSubscribers channel ev data (onConnection cid n).2).2
    = [mkMessage "connected" (ConnectedPayload cid (now (world n)))].
Proof.
  intros sent. unfold emittedTo.
  change (broadcastToSubscribers channel ev data)
    with (handleEvent (BroadcastToSubscribersCall channel ev data)).
  change (onSubscribe cid channel)
    with (handleEvent (SubscribeEvent cid channel)).
  change (onUnsubscribe cid channel)
    with (handleEvent (UnsubscribeEvent cid channel)).
  change (onConnection cid) with (handleEvent (ConnectionEvent cid)).
  rewrite !handleEvent_client, !decide_True by done.
  split; [intros c Hc; rewrite Hc; simpl; split|].
  - rewrite decide_True by (by apply elem_of_union_l, elem_of_singleton).
    simpl. by rewrite <- app_assoc.
  - by rewrite decide_False by apply not_elem_of_own_difference.
  - simpl. by rewrite decide_False by apply not_elem_of_empty.
Qed.

Lemma subscription_gates_channel_witness :
  map event
    (emittedTo "a"
       (broadcastToSubscribers "traffic" "traffic-update" []
          (onSubscribe "a" "traffic" sampleNode).2).2)
  = ["connected"; "subscribed"; "subscribed"; "traffic-update"]
  ∧ clients (manager sampleNode) !! "b" = None
  ∧ map event
      (emittedTo "b"
         (broadcastToSubscribers "traffic" "traffic-update" []
            (onConnection "b" sampleNode).2).2)
    = ["connected"].
Proof.
  split; [|split].
  - pose proof (proj1 (subscription_gates_channel sampleNode "a" "traffic"
                         "traffic-update" []) _ eq_refl) as [H _].
    rewrite H. vm_compute. reflexivity.
  - vm_compute. reflexivity.
  - rewrite (proj2 (subscription_gates_channel sampleNode "b" "traffic"
                      "traffic-update" [])).
    reflexivity.
Defined.

(** X18. Subscribe, then unsubscribe. For a connected client, after
    unsubscribing a channel it is not in the subscription set, and a
    subscribe followed by an unsubscribe of a channel the client did
    not have gives back the subscription set it had. *)
Theorem unsubscribe_undoes_subscribe n cid c channel :
  clients (manager n) !! cid = Some c →
  (∃ c', clients (manager (onUnsubscribe cid channel n).2) !! cid = Some c'
         ∧ channel ∉ subscriptions c')
  ∧ (channel ∉ subscriptions c →
     subscriptions
     <$> clients (manager (onUnsubscribe cid channel
                             (onSubscribe cid channel n).2).2) !! cid
     = Some (subscriptions c)).
Proof.
  intros Hc.
  change (onSubscribe cid channel)
    with (handleEvent (SubscribeEvent cid channel)).
  change (onUnsubscribe cid channel)
    with (handleEvent (UnsubscribeEvent cid channel)).
  rewrite !handleEvent_client, !decide_True by done. rewrite Hc. simpl.
  split.
  - eexists. split; [reflexivity|]. simpl. apply not_elem_of_own_difference.
  - intros Hnot. f_equal.
    rewrite difference_union_distr_l_L, difference_diag_L, (left_id_L ∅ (∪)).
    apply difference_disjoint_L. by apply disjoint_singleton_r.
Qed.

Lemma unsubscribe_undoes_subscribe_witness :
  subscriptions
  <$> clients (manager (onUnsubscribe "a" "traffic"
                          (onSubscribe "a" "traffic" sampleNode).2).2) !! "a"
  = subscriptions <$> clients (manager sampleNode) !! "a".
Proof.
  refine (proj2 (unsubscribe_undoes_subscribe sampleNode "a" _ "traffic"
                   eq_refl) _).
  vm_compute. discriminate.
Defined.

(** ** The interval *)

(** X19. Start and stop. [startBroadcasting] registers a timer that was not
    registered before and keeps the others, after which the interval
    runs the tick; [stop] right after it unregisters exactly that
    timer, and from then on the interval callback does nothing, however
    often the timer would have fired. *)
Theorem stop_ends_the_interval n :
  let started := (startBroadcasting n).2 in
  let stopped := (stop started).2 in
  intervalFires started = broadcastTick started
  ∧ timers (world n) ⊆ timers (world started)
  ∧ timers (world stopped) = timers (world n)
  ∧ intervalFires stopped = (Ok tt, stopped)
  ∧ (stop stopped).2 = stopped.
Proof.
  intros started stopped.
  pose proof (is_fresh (timers (world n))) as Hfresh.
  set (t := fresh (timers (world n))) in *.
  assert (Hrm : ({[t]} ∪ timers (world n)) ∖ {[t]} = timers (world n)).
  { rewrite difference_union_distr_l_L, difference_diag_L, (left_id_L ∅ (∪)).
    apply difference_disjoint_L. by apply disjoint_singleton_r. }
  split; [|split; [|split; [|split]]].
  - unfold intervalFires, started. simpl. fold t.
    rewrite decide_True; [done|]. by apply elem_of_union_l, elem_of_singleton.
  - unfold started. simpl. apply union_subseteq_r.
  - unfold stopped, started. simpl. fold t. exact Hrm.
  - unfold intervalFires, stopped, started. simpl. fold t.
    by rewrite Hrm, decide_False.
  - unfold stopped, started. simpl. fold t. rewrite Hrm.
    rewrite (difference_disjoint_L (timers (world n)))
      by (by apply disjoint_singleton_r).
    reflexivity.
Qed.

End ManagerRuns.

(** * The tick: what its messages carry *)

Section TickContents.

Implicit Types (n : Node) (w : World) (c : ClientConnection) (cid : string).

Lemma getDb_offline w :
  offline w →
  ∃ w1, getDb w = (Ok None, w1) ∧ offline w1
        ∧ database w1 = database w ∧ now w1 = now w.
Proof.
  intros [Hdb Hurl]. unfold getDb. rewrite Hdb.
  destruct (truthy (DATABASE_URL w)) as [url|] eqn:Hu.
  - destruct Hurl as [e He]. rewrite He. eexists. split; [reflexivity|].
    split; [|done]. split; [done|]. simpl. rewrite Hu. by exists e.
  - exists w. split; [done|]. split; [|done]. split; [done|]. by rewrite Hu.
Qed.

Lemma tickReads_offline w :
  offline w →
  ∃ w', tickReads w = (Ok ([], [], [], None), w')
        ∧ database w' = database w ∧ now w' = now w.
Proof.
  intros H0.
  destruct (getDb_offline w H0) as (w1 & Hg1 & H1 & Hd1 & Hn1).
  destruct (getDb_offline w1 H1) as (w2 & Hg2 & H2 & Hd2 & Hn2).
  destruct (getDb_offline w2 H2) as (w3 & Hg3 & H3 & Hd3 & Hn3).
  destruct (getDb_offline w3 H3) as (w4 & Hg4 & H4 & Hd4 & Hn4).
  exists w4.
  unfold tickReads, getTrafficLogs, getActiveFlows, getSystemAlerts,
    getNetworkStats, mbind, async_bind.
  rewrite Hg1. simpl. rewrite Hg2. simpl. rewrite Hg3. simpl. rewrite Hg4.
  simpl. split; [reflexivity|]. split; congruence.
Qed.

(** X20. The tick without a database. While no handle can be had, the tick
    still returns normally and sends every connected client both
    messages, with no logs, flows or alerts, all totals 0 and, for each
    type, count 0 and average 0; the database is not touched. *)
Theorem offline_tick_sends_zeros n cid c :
  offline (world n) →
  clients (manager n) !! cid = Some c →
  (broadcastTick n).1 = Ok tt
  ∧ emittedTo cid (broadcastTick n).2
    = emitted (socket c)
      ++ [mkMessage "traffic-update"
            (TrafficUpdatePayload (now (world n)) [] [] []
               (mkUpdateStats 0 0 0));
          mkMessage "traffic-by-type"
            (TrafficByTypePayload (now (world n))
               noTraffic noTraffic noTraffic noTraffic)]
  ∧ database (world (broadcastTick n).2) = database (world n).
Proof.
  intros Hoff Hc.
  destruct (tickReads_offline _ Hoff) as (w' & Hr & Hd & Hn).
  split; [|split].
  - rewrite broadcastTick_by_reads. by rewrite Hr.
  - rewrite (broadcastTick_emitted n cid c _ _ _ _ _ Hr Hc). by rewrite Hn.
  - rewrite broadcastTick_by_reads. by rewrite Hr.
Qed.

Lemma offline_tick_sends_zeros_witness :
  let n := mkNode (manager sampleNode) offlineWorld in
  map event (emittedTo "a" (broadcastTick n).2)
  = ["connected"; "subscribed"; "traffic-update"; "traffic-by-type"].
Proof.
  intros n.
  assert (Hoff : offline (world n)) by (split; [reflexivity|exact I]).
  pose proof (offline_tick_sends_zeros n "a" _ Hoff eq_refl) as (_ & H & _).
  rewrite H. vm_compute. reflexivity.
Defined.

(** ** Totals *)

Lemma tickReads_parts w w' logs flows alerts stats :
  tickReads w = (Ok (logs, flows, alerts, stats), w') →
  ∃ w1 w2 w3,
    getTrafficLogs 100 0 w = (Ok logs, w1)
    ∧ getActiveFlows w1 = (Ok flows, w2)
    ∧ getSystemAlerts true 10 w2 = (Ok alerts, w3)
    ∧ getNetworkStats w3 = (Ok stats, w').
Proof.
  unfold tickReads, mbind, async_bind.
  destruct (getTrafficLogs 100 0 w) as [[l|e] w1] eqn:H1; [|discriminate].
  destruct (getActiveFlows w1) as [[f|e] w2] eqn:H2; [|discriminate].
  destruct (getSystemAlerts true 10 w2) as [[a|e] w3] eqn:H3; [|discriminate].
  destruct (getNetworkStats w3) as [[s|e] w4] eqn:H4; [|discriminate].
  intros H. inversion H; subst. by exists w1, w2, w3.
Qed.

Lemma getTrafficLogs_length w w1 (limit offset : nat) rows :
  getTrafficLogs limit offset w = (Ok rows, w1) → length rows ≤ limit.
Proof.
  unfold getTrafficLogs, mbind, async_bind.
  destruct (getDb w) as [[[h|]|e] w0]; [| |discriminate].
  - unfold execute. destruct (rejects w0 trafficLogsT); [discriminate|].
    intros [= <- <-]. unfold limitOffset. rewrite length_take. lia.
  - intros [= <- <-]. simpl. lia.
Qed.

Lemma getSystemAlerts_length w w1 (unresolved : bool) (limit : nat) rows :
  getSystemAlerts unresolved limit w = (Ok rows, w1) → length rows ≤ limit.
Proof.
  unfold getSystemAlerts, mbind, async_bind.
  destruct (getDb w) as [[[h|]|e] w0]; [| |discriminate].
  - unfold execute.
    destruct unresolved; destruct (rejects w0 systemAlertsT);
      try discriminate; intros [= <- <-]; rewrite length_take; lia.
  - intros [= <- <-]. simpl. lia.
Qed.

Lemma reduce_counts {A} (l : list A) (acc : nat) :
  fold_left (λ sum _, sum + 1) l acc = acc + length l.
Proof.
  revert acc. induction l as [|x l IH]; intros acc; simpl; [lia|].
  rewrite IH. lia.
Qed.

Lemma counts_partition (logs : list TrafficLog.t) :
  countOfType video logs + countOfType voice logs + countOfType file logs
  + countOfType background logs + countOfType unknown logs
  = length logs.
Proof.
  induction logs as [|log rest IH]; [reflexivity|].
  simpl. destruct (TrafficLog.trafficType log); simpl; lia.
Qed.

(** X21. The totals of a tick. In the messages of a tick, [totalPackets]
    is the number of fetched logs, which is at most 100 whatever the
    table holds; at most 50 of them are sent along; [activeAlerts] is
    at most 10; and the counts of the four types add up to
    [totalPackets] less the fetched logs of type [unknown], which no
    per-type entry counts. *)
Theorem tick_totals n cid c trafficLogs activeFlows alerts stats w' :
  tickReads (world n) = (Ok (trafficLogs, activeFlows, alerts, stats), w') →
  clients (manager n) !! cid = Some c →
  ∃ sent byType,
    emittedTo cid (broadcastTick n).2
    = emitted (socket c)
      ++ [mkMessage "traffic-update"
            (TrafficUpdatePayload (now w') sent activeFlows alerts
               (mkUpdateStats (length activeFlows) (length trafficLogs)
                              (length alerts)));
          mkMessage "traffic-by-type" byType]
    ∧ byType
      = TrafficByTypePayload (now w')
          (typeStats (ofType video trafficLogs))
          (typeStats (ofType voice trafficLogs))
          (typeStats (ofType file trafficLogs))
          (typeStats (ofType background trafficLogs))
    ∧ length trafficLogs ≤ 100
    ∧ length sent = 50 `min` length trafficLogs
    ∧ length alerts ≤ 10
    ∧ count (typeStats (ofType video trafficLogs))
      + count (typeStats (ofType voice trafficLogs))
      + count (typeStats (ofType file trafficLogs))
      + count (typeStats (ofType background trafficLogs))
      + countOfType unknown trafficLogs
      = length trafficLogs.
Proof.
  intros Hr Hc.
  destruct (tickReads_parts _ _ _ _ _ _ Hr) as (w1 & w2 & w3 & H1 & _ & H3 & _).
  eexists _, _. split.
  { rewrite (broadcastTick_emitted n cid c _ _ _ _ _ Hr Hc).
    unfold trafficUpdate, trafficByType. rewrite reduce_counts. reflexivity. }
  split; [reflexivity|].
  split; [by eapply getTrafficLogs_length|].
  split; [by rewrite length_take|].
  split; [by eapply getSystemAlerts_length|].
  simpl. rewrite !length_ofType. apply counts_partition.
Qed.

Lemma tick_totals_witness :
  let n := mkNode (manager sampleNode) busyWorld in
  ∃ sent byType,
    emittedTo "a" (broadcastTick n).2
    = emittedTo "a" sampleNode
      ++ [mkMessage "traffic-update"
            (TrafficUpdatePayload 1000 sent
               [sampleFlow 8 voice (1 # 2); sampleFlow 7 video 4]
               [sampleAlert 1 critical false]
               (mkUpdateStats 2 5 1));
          mkMessage "traffic-by-type" byType].
Proof.
  intros n.
  destruct (tick_totals n "a" _ _ _ _ _ _ eq_refl eq_refl)
    as (sent & byType & H & _).
  exists sent, byType. exact H.
Defined.

End TickContents.

(** * The dashboard page *)

Module DashboardFacts.

Import Dashboard.

Section Page.

Context (toLocaleTimeString : Z → string).

Implicit Types (g : TrafficData) (ty : TrafficType) (st : State).

(** ** The capacity is never set *)

Lemma onResult_totalBandwidth (r : QueryResult) st :
  totalBandwidth (onResult toLocaleTimeString r st) = totalBandwidth st.
Proof.
  destruct r as [[[|? ?]|]|[[|? ?]|]|[[|? ?]|]]; reflexivity.
Qed.

Lemma run_totalBandwidth (results : list QueryResult) st :
  totalBandwidth
    (fold_left (λ st r, onResult toLocaleTimeString r st) results st)
  = totalBandwidth st.
Proof.
  revert st. induction results as [|r rs IH]; intros st; [reflexivity|].
  simpl. by rewrite IH, onResult_totalBandwidth.
Qed.

(** X22. The utilisation stays at zero. No effect of the page sets
    [totalBandwidth], so whatever the queries return, in whatever
    order, the page shows a capacity of 0 and a utilisation of 0,
    whatever [usedBandwidth] holds. *)
Theorem utilisation_stays_zero (results : list QueryResult) :
  totalBandwidth (render toLocaleTimeString results) = numberOfZ 0
  ∧ bandwidthUsagePercent (render toLocaleTimeString results) = numberOfZ 0.
Proof.
  assert (H : totalBandwidth (render toLocaleTimeString results)
              = numberOfZ 0).
  { unfold Dashboard.render. by rewrite run_totalBandwidth. }
  split; [exact H|]. unfold bandwidthUsagePercent. by rewrite H.
Qed.

(** ** What is shown is never cleared *)

Lemma groupLogs_step (logs : list TrafficLog.t) (gs : list TrafficData) :
  gs ≠ [] →
  fold_left
    (λ timeGroups log,
       addLog (toLocaleTimeString (TrafficLog.timestamp log))
              (TrafficLog.trafficType log) (throughputOrZero log) timeGroups)
    logs gs ≠ [].
Proof.
  revert gs. induction logs as [|log rest IH]; intros gs Hgs; [done|].
  simpl. apply IH. destruct gs as [|g gs']; [done|]. simpl.
  by destruct (decide _).
Qed.

Lemma sliceLast_nonempty {A} (k : nat) (l : list A) :
  l ≠ [] → sliceLast (S k) l ≠ [].
Proof.
  intros Hl. unfold sliceLast. intros Hd.
  apply (f_equal length) in Hd. rewrite length_drop in Hd. simpl in Hd.
  destruct l; [done|]. simpl in Hd. lia.
Qed.

Lemma onResult_keeps_shown (r : QueryResult) st :
  (trafficData st ≠ [] →
   trafficData (onResult toLocaleTimeString r st) ≠ [])
  ∧ (flows st ≠ [] → flows (onResult toLocaleTimeString r st) ≠ [])
  ∧ (alerts st ≠ [] → alerts (onResult toLocaleTimeString r st) ≠ []).
Proof.
  destruct r as [[[|log rest]|]|[[|? ?]|]|[[|? ?]|]]; simpl;
    repeat split; try done.
  intros _. apply sliceLast_nonempty. unfold Dashboard.groupLogs. simpl.
  by apply groupLogs_step.
Qed.

(** X23. Nothing shown is cleared. Once the page shows chart points, flows
    or alerts, no later query result empties that list: an empty or
    missing result leaves the state as it is, so that the last
    non-empty list stays on the page. *)
Theorem shown_lists_never_clear (results more : list QueryResult) :
  (∀ st,
     onResult toLocaleTimeString (TrafficLogsResult (Some [])) st = st
     ∧ onResult toLocaleTimeString (ActiveFlowsResult (Some [])) st = st
     ∧ onResult toLocaleTimeString (SystemAlertsResult (Some [])) st = st
     ∧ onResult toLocaleTimeString (SystemAlertsResult None) st = st)
  ∧ (trafficData (render toLocaleTimeString results) ≠ [] →
     trafficData (render toLocaleTimeString (results ++ more)) ≠ [])
  ∧ (flows (render toLocaleTimeString results) ≠ [] →
     flows (render toLocaleTimeString (results ++ more)) ≠ [])
  ∧ (alerts (render toLocaleTimeString results) ≠ [] →
     alerts (render toLocaleTimeString (results ++ more)) ≠ []).
Proof.
  split; [done|].
  unfold Dashboard.render. rewrite fold_left_app.
  generalize
    (fold_left (λ st r, onResult toLocaleTimeString r st) results
       initialState).
  induction more as [|r rs IH]; intros st; [done|]. simpl.
  destruct (onResult_keeps_shown r st) as (H1 & H2 & H3).
  destruct (IH (onResult toLocaleTimeString r st)) as (I1 & I2 & I3).
  repeat split; auto.
Qed.

(** ** The chart *)

Lemma getField_setField ty ty' (v : JsValue) g :
  getField ty' (setField ty v g)
  = if decide (ty' = ty) then Some v else getField ty' g.
Proof. by destruct ty, ty'. Qed.

Lemma timestamp_addTo ty (v : JsValue) g :
  timestamp (addTo ty v g) = timestamp g.
Proof. by destruct ty. Qed.

Lemma timestamps_addLog ty (time : string) (x : JsValue)
    (gs : list TrafficData) :
  map timestamp (addLog time ty x gs)
  = if decide (time ∈ map timestamp gs) then map timestamp gs
    else map timestamp gs ++ [time].
Proof.
  induction gs as [|g gs IH].
  - destruct (decide (time ∈ map timestamp [])) as [Hin|_].
    + by apply elem_of_nil in Hin.
    + cbn [addLog map app]. by rewrite timestamp_addTo.
  - cbn [addLog]. destruct (decide (timestamp g = time)) as [He|Hne].
    + cbn [map]. rewrite timestamp_addTo.
      destruct (decide (time ∈ timestamp g :: map timestamp gs)) as [_|Hn];
        [done|].
      destruct Hn. rewrite He. apply list_elem_of_here.
    + cbn [map]. rewrite IH.
      destruct (decide (time ∈ map timestamp gs)) as [Hin|Hnin];
        destruct (decide (time ∈ timestamp g :: map timestamp gs))
          as [Hin'|Hnin']; try done.
      * destruct Hnin'. by apply list_elem_of_further.
      * apply elem_of_cons in Hin' as [Heq|Hin']; [by destruct Hne|done].
Qed.

Lemma groupLogs_labels (logs : list TrafficLog.t) (gs : list TrafficData) :
  let grouped :=
    fold_left
      (λ timeGroups log,
         addLog (toLocaleTimeString (TrafficLog.timestamp log))
                (TrafficLog.trafficType log) (throughputOrZero log)
                timeGroups)
      logs gs in
  (NoDup (map timestamp gs) → NoDup (map timestamp grouped))
  ∧ length grouped ≤ length gs + length logs.
Proof.
  revert gs. induction logs as [|log rest IH]; intros gs; simpl.
  - split; [done|lia].
  - set (gs' := addLog _ _ _ gs).
    destruct (IH gs') as (Hnd & Hlen).
    assert (Hts := timestamps_addLog (TrafficLog.trafficType log)
                     (toLocaleTimeString (TrafficLog.timestamp log))
                     (throughputOrZero log) gs).
    fold gs' in Hts.
    split.
    + intros Hgs. apply Hnd. rewrite Hts.
      destruct (decide _) as [Hin|Hnin]; [done|].
      apply NoDup_app. split; [done|]. split; [|apply NoDup_singleton].
      intros y Hy Hy'. apply list_elem_of_singleton in Hy'. by subst.
    + assert (Hl : length gs' ≤ S (length gs)).
      { rewrite <- (length_map timestamp gs'), Hts.
        destruct (decide _); rewrite ?length_app, ?length_map; simpl; lia. }
      lia.
Qed.

(** ** What the fields of the chart hold

    A field is the number 0 until a log with a throughput reaches it,
    and a string from then on. *)

Lemma throughputOrZero_shape (log : TrafficLog.t) :
  match TrafficLog.throughput log with
  | Some _ => textual (throughputOrZero log)
  | None => untouched (throughputOrZero log)
  end.
Proof.
  rewrite throughputOrZero_cases.
  destruct (TrafficLog.throughput log) as [d|]; [|reflexivity].
  eexists. split; [reflexivity|]. intros Hempty.
  pose proof (points_decimalString d) as Hp. by rewrite Hempty in Hp.
Qed.

Lemma append_nonempty_l (a b : string) : a ≠ "" → a +:+ b ≠ "".
Proof. by destruct a. Qed.

Lemma append_nonempty_r (a b : string) : b ≠ "" → a +:+ b ≠ "".
Proof. destruct a; [done|]. discriminate. Qed.

(** [(field || 0) + throughput]. *)
Lemma accumulate_shape (v x : JsValue) :
  (untouched v ∨ textual v) → (untouched x ∨ textual x) →
  (untouched v → untouched x → untouched (jsPlus (jsOr (Some v) zero) x))
  ∧ (textual v ∨ textual x → textual (jsPlus (jsOr (Some v) zero) x)).
Proof.
  unfold untouched, textual.
  intros [->|(s & -> & Hs)] [->|(t & -> & Ht)].
  - split; [reflexivity|]. by intros [(? & ? & ?)|(? & ? & ?)].
  - split; [by intros _ ?|]. intros _.
    eexists. split; [reflexivity|]. by apply append_nonempty_r.
  - split; [by intros ?|]. intros _. simpl.
    rewrite bool_decide_eq_false_2 by done. simpl.
    eexists. split; [reflexivity|]. by apply append_nonempty_l.
  - split; [by intros ?|]. intros _. simpl.
    rewrite bool_decide_eq_false_2 by done. simpl.
    eexists. split; [reflexivity|]. by apply append_nonempty_l.
Qed.

Section Field.

(** One of the four typed fields. *)
Context (ty : TrafficType) (field : TrafficData → JsValue).
Context (Hfield : ∀ g, getField ty g = Some (field g)).

Lemma field_addTo ty' (x : JsValue) g :
  field (addTo ty' x g)
  = if decide (ty' = ty) then jsPlus (jsOr (Some (field g)) zero) x
    else field g.
Proof.
  assert (H := getField_setField ty' ty
                 (jsPlus (jsOr (getField ty' g) zero) x) g).
  fold (addTo ty' x g) in H. rewrite !Hfield in H.
  destruct (decide (ty = ty')) as [->|Hne].
  - rewrite decide_True by done. rewrite Hfield in H. by injection H.
  - rewrite decide_False by done. by injection H.
Qed.

Lemma field_newGroup (time : string) : untouched (field (newGroup time)).
Proof.
  assert (H := Hfield (newGroup time)).
  destruct ty; simpl in H; try discriminate; injection H as H;
    unfold untouched; by rewrite <- H.
Qed.

(** The groups after one more log. *)
Lemma addLog_shape (time : string) ty' (x : JsValue)
    (gs : list TrafficData) :
  (untouched x ∨ textual x) →
  Forall (λ g, untouched (field g) ∨ textual (field g)) gs →
  Forall (λ g, untouched (field g) ∨ textual (field g))
         (addLog time ty' x gs)
  ∧ (Forall (λ g, untouched (field g)) gs →
     (ty' = ty → untouched x) →
     Forall (λ g, untouched (field g)) (addLog time ty' x gs))
  ∧ (Exists (λ g, textual (field g)) gs ∨ (ty' = ty ∧ textual x) →
     Exists (λ g, textual (field g)) (addLog time ty' x gs)).
Proof.
  intros Hx Hgs.
  assert (Hstep : ∀ g,
            (untouched (field g) ∨ textual (field g)) →
            (untouched (field (addTo ty' x g))
             ∨ textual (field (addTo ty' x g)))
            ∧ (untouched (field g) → (ty' = ty → untouched x) →
               untouched (field (addTo ty' x g)))
            ∧ (textual (field g) ∨ (ty' = ty ∧ textual x) →
               textual (field (addTo ty' x g)))).
  { intros g Hg. rewrite field_addTo.
    destruct (decide (ty' = ty)) as [He|Hne].
    - destruct (accumulate_shape (field g) x Hg Hx) as [Hu Ht].
      split; [|split].
      + destruct Hg as [Hg|Hg]; destruct Hx as [Hx|Hx]; auto.
      + auto.
      + intros [H|[_ H]]; auto.
    - split; [done|]. split; [done|]. by intros [H|[? _]]. }
  induction gs as [|g gs IH].
  - cbn [addLog].
    destruct (Hstep (newGroup time) (or_introl (field_newGroup time)))
      as (H1 & H2 & H3).
    split; [by constructor|]. split.
    + intros _ Hu. constructor; [|done]. apply H2; [|done].
      apply field_newGroup.
    + intros [H|H]; [by apply Exists_nil in H|].
      apply Exists_cons_hd. apply H3. by right.
  - apply Forall_cons in Hgs as [Hg Hgs]. cbn [addLog].
    destruct (Hstep g Hg) as (H1 & H2 & H3).
    destruct (IH Hgs) as (I1 & I2 & I3).
    destruct (decide (timestamp g = time)).
    + split; [by constructor|]. split.
      * intros Hall Hu. apply Forall_cons in Hall as [? ?].
        constructor; auto.
      * intros [H|H].
        -- apply Exists_cons in H as [H|H];
             [apply Exists_cons_hd; auto | by apply Exists_cons_tl].
        -- apply Exists_cons_hd. auto.
    + split; [by constructor|]. split.
      * intros Hall Hu. apply Forall_cons in Hall as [? ?].
        constructor; auto.
      * intros [H|H].
        -- apply Exists_cons in H as [H|H];
             [by apply Exists_cons_hd | apply Exists_cons_tl; auto].
        -- apply Exists_cons_tl. auto.
Qed.

Lemma groupLogs_shape (logs : list TrafficLog.t) (gs : list TrafficData) :
  let grouped :=
    fold_left
      (λ timeGroups log,
         addLog (toLocaleTimeString (TrafficLog.timestamp log))
                (TrafficLog.trafficType log) (throughputOrZero log)
                timeGroups)
      logs gs in
  Forall (λ g, untouched (field g) ∨ textual (field g)) gs →
  Forall (λ g, untouched (field g) ∨ textual (field g)) grouped
  ∧ (Forall (λ g, untouched (field g)) gs →
     withThroughput (ofType ty logs) = [] →
     Forall (λ g, untouched (field g)) grouped)
  ∧ (Exists (λ g, textual (field g)) gs
     ∨ withThroughput (ofType ty logs) ≠ [] →
     Exists (λ g, textual (field g)) grouped).
Proof.
  revert gs. induction logs as [|log rest IH]; intros gs; simpl.
  { intros Hgs. split; [done|]. split; [done|]. by intros [H|H]. }
  intros Hgs.
  pose proof (throughputOrZero_shape log) as Hlog.
  assert (Hx : untouched (throughputOrZero log)
               ∨ textual (throughputOrZero log)).
  { destruct (TrafficLog.throughput log); auto. }
  destruct (addLog_shape (toLocaleTimeString (TrafficLog.timestamp log))
              (TrafficLog.trafficType log) (throughputOrZero log) gs Hx Hgs)
    as (A1 & A2 & A3).
  destruct (IH _ A1) as (I1 & I2 & I3).
  unfold withThroughput, ofType in *. rewrite filter_cons.
  destruct (decide (TrafficLog.trafficType log = ty)) as [He|Hne].
  - rewrite filter_cons.
    destruct (TrafficLog.throughput log) as [d|] eqn:Hd.
    + rewrite decide_True by (by eexists).
      split; [done|]. split; [done|]. intros _.
      apply I3. left. apply A3. by right.
    + rewrite decide_False by (by intros [? ?]).
      split; [done|]. split.
      * intros Hall Hnone. apply I2; [|done]. by apply A2.
      * intros [H|H]; apply I3; [left; apply A3; by left | by right].
  - split; [done|]. split.
    + intros Hall Hnone. apply I2; [|done]. by apply A2.
    + intros [H|H]; apply I3; [left; apply A3; by left | by right].
Qed.

(** [reduce((sum, d) => sum + d.field, 0)]. *)
Lemma pie_untouched (data : list TrafficData) :
  Forall (λ g, untouched (field g)) data → pieValue field data = zero.
Proof.
  unfold pieValue. induction data as [|d data IH]; [done|].
  intros Hall. apply Forall_cons in Hall as [Hd Hall]. simpl.
  rewrite Hd. by apply IH.
Qed.

Lemma pie_from_string (data : list TrafficData) (s : string) :
  ∃ s', fold_left (λ sum d, jsPlus sum (field d)) data (JsString s)
        = JsString s'.
Proof.
  revert s. induction data as [|d data IH]; intros s; [by eexists|].
  simpl. apply IH.
Qed.

Lemma pie_textual (data : list TrafficData) :
  Forall (λ g, untouched (field g) ∨ textual (field g)) data →
  Exists (λ g, textual (field g)) data →
  ∃ s, pieValue field data = JsString s.
Proof.
  unfold pieValue. induction data as [|d data IH]; intros Hall Hex.
  { by apply Exists_nil in Hex. }
  apply Forall_cons in Hall as [Hd Hall]. simpl.
  destruct Hd as [Hd|(s & Hd & _)].
  - rewrite Hd. apply Exists_cons in Hex as [(s & Hs & _)|Hex].
    + rewrite Hd in Hs. discriminate.
    + by apply IH.
  - rewrite Hd. apply pie_from_string.
Qed.

(** The value of the pie chart for the field. *)
Lemma pie_of_type (logs : list TrafficLog.t) :
  (withThroughput (ofType ty logs) = [] →
   pieValue field (sliceLast 20 (groupLogs toLocaleTimeString logs)) = zero)
  ∧ (withThroughput (ofType ty logs) ≠ [] →
     length (groupLogs toLocaleTimeString logs) ≤ 20 →
     ∃ s, pieValue field (sliceLast 20 (groupLogs toLocaleTimeString logs))
          = JsString s).
Proof.
  destruct (groupLogs_shape logs [] (Forall_nil_2 _)) as (H1 & H2 & H3).
  fold (groupLogs toLocaleTimeString logs) in H1, H2, H3.
  split.
  - intros Hnone. apply pie_untouched. unfold sliceLast.
    apply Forall_drop. by apply H2.
  - intros Hsome Hfew. unfold sliceLast.
    replace (length (groupLogs toLocaleTimeString logs) - 20) with 0 by lia.
    rewrite drop_0. apply pie_textual; [done|]. apply H3. by right.
Qed.

End Field.

(** X24. The chart adds nothing up. After a non-empty result of the log
    query, the chart holds at most 20 points with distinct time labels.
    The throughputs arrive as strings, so [usedBandwidth] is the number
    0 only while no log carries a throughput; otherwise it is a string
    with one point for each log that carries one, which from two such
    logs on reads as [NaN].  Likewise each of the four values of the
    pie chart is the number 0 when no log of its type carries a
    throughput, and a string when one does and the logs fall into at
    most 20 time labels. *)
Theorem chart_concatenates_throughput (logs : list TrafficLog.t) st :
  logs ≠ [] →
  let st' := onTrafficLogs toLocaleTimeString (Some logs) st in
  length (trafficData st') ≤ 20
  ∧ NoDup (map timestamp (trafficData st'))
  ∧ (withThroughput logs = [] → usedBandwidth st' = zero)
  ∧ (withThroughput logs ≠ [] →
     ∃ s, usedBandwidth st' = JsString s
          ∧ points s = length (withThroughput logs))
  ∧ (2 ≤ length (withThroughput logs) →
     toNumber (usedBandwidth st') = NaN)
  ∧ ∀ ty value,
      (ty, value) ∈ pieValues (trafficData st') →
      (withThroughput (ofType ty logs) = [] → value = zero)
      ∧ (withThroughput (ofType ty logs) ≠ [] →
         length (groupLogs toLocaleTimeString logs) ≤ 20 →
         ∃ s, value = JsString s).
Proof.
  intros Hne st'.
  destruct (groupLogs_labels logs []) as (Hnd & Hlen).
  fold (groupLogs toLocaleTimeString logs) in Hnd, Hlen.
  assert (Hst : trafficData st'
                = sliceLast 20 (groupLogs toLocaleTimeString logs)
                ∧ usedBandwidth st'
                  = fold_left (λ sum log, jsPlus sum (throughputOrZero log))
                              logs zero).
  { unfold st'. by destruct logs. }
  destruct Hst as [Hdata Hused]. rewrite Hdata, Hused.
  pose proof (reduce_throughputs logs) as Hred.
  split; [|split; [|split; [|split; [|split]]]].
  - unfold sliceLast. rewrite length_drop. lia.
  - unfold sliceLast. specialize (Hnd (NoDup_nil_2)).
    rewrite <- (take_drop (length (groupLogs toLocaleTimeString logs) - 20)
                  (groupLogs toLocaleTimeString logs)) in Hnd.
    rewrite map_app in Hnd. by apply NoDup_app in Hnd as (_ & _ & ?).
  - intros Hnone. by rewrite Hnone in Hred.
  - intros Hsome. by destruct (withThroughput logs).
  - intros Htwo. unfold zero.
    destruct (withThroughput logs) as [|x l] eqn:Hw; [simpl in Htwo; lia|].
    destruct Hred as (s & -> & Hp). simpl.
    apply stringToNumber_two_points. lia.
  - intros ty value Hin. unfold pieValues in Hin.
    repeat (apply elem_of_cons in Hin as [[= -> ->]|Hin]);
      [| | | |by apply elem_of_nil in Hin].
    + by apply (pie_of_type video videoMbps).
    + by apply (pie_of_type voice voiceMbps).
    + by apply (pie_of_type file fileMbps).
    + by apply (pie_of_type background backgroundMbps).
Qed.

End Page.

Lemma shown_lists_never_clear_witness :
  alerts (render secondsLocale
            ([SystemAlertsResult (Some (systemAlerts busyDatabase))]
             ++ [SystemAlertsResult (Some [])])) ≠ [].
Proof.
  apply (shown_lists_never_clear secondsLocale
           [SystemAlertsResult (Some (systemAlerts busyDatabase))]
           [SystemAlertsResult (Some [])]).
  discriminate.
Defined.

Lemma chart_concatenates_throughput_witness :
  toNumber
    (usedBandwidth
       (onTrafficLogs secondsLocale (Some (trafficLogs busyDatabase))
                      initialState))
  = NaN.
Proof.
  refine (proj1 (proj2 (proj2 (proj2 (proj2
            (chart_concatenates_throughput secondsLocale
               (trafficLogs busyDatabase) initialState _))))) _).
  - discriminate.
  - vm_compute. lia.
Defined.

End DashboardFacts.
